(** * Layer assignment and grid materialisation of the circuit drawer

    A shallow embedding of [pennylane/circuit_drawer/drawable_layers.py]:
    [_recursive_find_layer], [drawable_layers] and [drawable_grid].

    Modelling choices.
    - A wire label is a [string]; an operator is a record of a name and its
      ordered wire labels.  Python compares operators by object identity; here
      two operators are the same object exactly when the records are equal, so
      an input list may hold the same object more than once.
    - The wire map is a [gmap string nat] (the docstring asks for non-negative
      integers).  The branch [wire_map is None] calls [default_wire_map], an
      external collaborator, and is not modelled: the map is always supplied.
    - Python sets are [gset]s.  Exceptions are values of [PyError] carried by
      the [result] monad; every subscript that Python checks is checked here.
    - [_recursive_find_layer] calls itself once per layer it walks back.  The
      interpreter's recursion limit is modelled by the parameter [depth], the
      number of nested calls of that function still allowed where
      [drawable_layers] calls it; exceeding it raises [RecursionError].  The
      frames of [drawable_layers] and [drawable_grid] themselves are taken to
      be available. *)

From stdpp Require Import gmap strings list fin_maps fin_sets.


(** ** Exceptions *)

Inductive PyError : Type :=
  | KeyError (wire : string)
  | IndexError
  | ValueError
  | RecursionError.

Inductive result (A : Type) : Type :=
  | Ok (a : A)
  | Raise (e : PyError).
Arguments Ok {A} a.
Arguments Raise {A} e.

#[global] Instance result_ret : MRet result := λ A a, Ok a.
#[global] Instance result_bind : MBind result := λ A B f r,
  match r with
  | Ok a => f a
  | Raise e => Raise e
  end.

#[global] Instance PyError_eq_dec : EqDecision PyError.
Proof. solve_decision. Defined.

#[global] Instance result_eq_dec {A} `{EqDecision A} : EqDecision (result A).
Proof. solve_decision. Defined.

Definition is_Ok {A} (r : result A) : Prop := ∃ a, r = Ok a.

(** A [for] loop over a list whose body may raise. *)
Fixpoint foldM {A B} (f : B → A → result B) (b : B) (l : list A) : result B :=
  match l with
  | [] => Ok b
  | a :: l' => b' ← f b a; foldM f b' l'
  end.

(** ** Operators *)

Record Operator : Type := Op { name : string; wires : list string }.

#[global] Instance Operator_eq_dec : EqDecision Operator.
Proof. solve_decision. Defined.

#[global] Instance Operator_countable : Countable Operator.
Proof.
  refine (inj_countable' (λ o, (name o, wires o)) (λ p, Op p.1 p.2) _).
  by intros [].
Defined.

(** ** Occupied wires (lines 75-85) *)

(** [wire_map[wire]] *)
Definition lookup_wire (wire_map : gmap string nat) (wire : string) : result nat :=
  match wire_map !! wire with
  | Some i => Ok i
  | None => Raise (KeyError wire)
  end.

(** [wire_map[wire] for wire in op.wires], in iteration order *)
Fixpoint map_wires (wire_map : gmap string nat) (ws : list string) : result (list nat) :=
  match ws with
  | [] => Ok []
  | w :: ws' =>
      i ← lookup_wire wire_map w;
      rest ← map_wires wire_map ws';
      Ok (i :: rest)
  end.

(** [min(s)] and [max(s)] of a set of integers; empty sets raise. *)
Definition py_min (s : gset nat) : result nat :=
  match elements s with
  | [] => Raise ValueError
  | x :: xs => Ok (foldr Nat.min x xs)
  end.

Definition py_max (s : gset nat) : result nat :=
  match elements s with
  | [] => Raise ValueError
  | x :: xs => Ok (foldr Nat.max x xs)
  end.

(** [set(range(lo, hi))] *)
Definition set_range (lo hi : nat) : gset nat := set_seq lo (hi - lo).

(** The pair [(mapped_wires, op_occupied_wires)] of one loop iteration. *)
Definition wires_of_op (wire_map : gmap string nat) (op : Operator)
    : result (gset nat * gset nat) :=
  if decide (length (wires op) = 0) then
    let mapped_wires : gset nat := map_img wire_map in
    Ok (mapped_wires, mapped_wires)
  else
    l ← map_wires wire_map (wires op);
    let mapped_wires : gset nat := list_to_set l in
    min_wire ← py_min mapped_wires;
    max_wire ← py_max mapped_wires;
    Ok (mapped_wires, set_range min_wire (max_wire + 1)).

Definition op_occupied_wires (wire_map : gmap string nat) (op : Operator)
    : result (gset nat) :=
  p ← wires_of_op wire_map op; Ok p.2.

(** ** The placement search (lines 21-48) *)

(** The function calls itself once per layer it walks back, and every call
    takes a frame of the interpreter's stack.  [depth] is the number of
    nested calls of this function that the recursion limit still allows where
    [drawable_layers] calls it; a call that would exceed it raises
    [RecursionError]. *)
Fixpoint _recursive_find_layer (depth : nat) (layer_to_check : nat)
    (op_occupied_wires : gset nat) (occupied_wires_per_layer : list (gset nat))
    : result nat :=
  match depth with
  | 0 => Raise RecursionError
  | S depth_left =>
      match occupied_wires_per_layer !! layer_to_check with
      | None => Raise IndexError
      | Some occupied =>
          if decide (occupied ∩ op_occupied_wires ≠ ∅) then Ok (layer_to_check + 1)
          else
            match layer_to_check with
            | 0 => Ok 0
            | S layer_below =>
                _recursive_find_layer depth_left layer_below op_occupied_wires
                  occupied_wires_per_layer
            end
      end
  end.

(** ** The assignment loop (lines 68-99) *)

Record State : Type := mkState {
  max_layer : nat;
  occupied_wires_per_layer : list (gset nat);
  ops_in_layer : list (gset Operator)
}.

Definition init_state : State :=
  {| max_layer := 0; occupied_wires_per_layer := [∅]; ops_in_layer := [∅] |}.

(** Lines 75-87: the occupied wires of [op] and the local [op_layer]. *)
Definition find_op_layer (depth : nat) (wire_map : gmap string nat) (st : State)
    (op : Operator) : result (gset nat * nat) :=
  occ ← op_occupied_wires wire_map op;
  op_layer ← _recursive_find_layer depth (max_layer st) occ
                (occupied_wires_per_layer st);
  Ok (occ, op_layer).

(** Lines 90-93. *)
Definition add_layer_if_needed (st : State) (op_layer : nat) : State :=
  if decide (max_layer st < op_layer) then
    {| max_layer := max_layer st + 1;
       occupied_wires_per_layer := occupied_wires_per_layer st ++ [∅];
       ops_in_layer := ops_in_layer st ++ [∅] |}
  else st.

(** Lines 96-97: both subscripts are checked. *)
Definition add_to_layer (st : State) (op_layer : nat) (op : Operator) (occ : gset nat)
    : result State :=
  match ops_in_layer st !! op_layer, occupied_wires_per_layer st !! op_layer with
  | Some layer_ops, Some occupied =>
      Ok {| max_layer := max_layer st;
            occupied_wires_per_layer :=
              <[op_layer := occupied ∪ occ]> (occupied_wires_per_layer st);
            ops_in_layer := <[op_layer := layer_ops ∪ {[op]}]> (ops_in_layer st) |}
  | _, _ => Raise IndexError
  end.

(** One iteration of the loop. *)
Definition loop_body (depth : nat) (wire_map : gmap string nat) (st : State)
    (op : Operator) : result State :=
  '(occ, op_layer) ← find_op_layer depth wire_map st op;
  add_to_layer (add_layer_if_needed st op_layer) op_layer op occ.

Definition drawable_layers (depth : nat) (ops : list Operator)
    (wire_map : gmap string nat) : result (list (gset Operator)) :=
  st ← foldM (loop_body depth wire_map) init_state ops;
  Ok (ops_in_layer st).

(** The value of the local [op_layer] in each iteration, in input order.
    The function does not return it; it is recorded here to speak about
    "the layer an operation is assigned to" by position in the input. *)
Fixpoint op_layers_from (depth : nat) (wire_map : gmap string nat) (st : State)
    (ops : list Operator) : result (list nat) :=
  match ops with
  | [] => Ok []
  | op :: ops' =>
      '(_, op_layer) ← find_op_layer depth wire_map st op;
      st' ← loop_body depth wire_map st op;
      ks ← op_layers_from depth wire_map st' ops';
      Ok (op_layer :: ks)
  end.

Definition op_layers (depth : nat) (ops : list Operator) (wire_map : gmap string nat)
    : result (list nat) :=
  op_layers_from depth wire_map init_state ops.

(** ** The grid (lines 102-142) *)

Abbreviation Grid := (list (list (option Operator))).

(** [grid[r][c] = op] *)
Definition set_cell (grid : Grid) (r c : nat) (op : Operator) : result Grid :=
  match grid !! r with
  | None => Raise IndexError
  | Some row =>
      if decide (c < length row) then Ok (<[r := <[c := Some op]> row]> grid)
      else Raise IndexError
  end.

Section grid.
(** Iterating over a Python set visits its members once each in an order
    the language leaves open; [set_iter] is that order. *)
Variable set_iter : gset Operator → list Operator.

(** Lines 135-141 for one operator of one layer. *)
Definition place_op (wire_map : gmap string nat) (n_wires layer : nat)
    (grid : Grid) (op : Operator) : result Grid :=
  g ← (if decide (length (wires op) = 0) then
         foldM (λ g wire, set_cell g wire layer op) grid (seq 0 n_wires)
       else Ok grid);
  foldM (λ g wire, r ← lookup_wire wire_map wire; set_cell g r layer op) g (wires op).

(** Lines 133-141, [enumerate] starting at [layer]. *)
Fixpoint fill_layers (wire_map : gmap string nat) (n_wires layer : nat)
    (grid : Grid) (layers : list (gset Operator)) : result Grid :=
  match layers with
  | [] => Ok grid
  | layer_ops :: layers' =>
      g ← foldM (place_op wire_map n_wires layer) grid (set_iter layer_ops);
      fill_layers wire_map n_wires (S layer) g layers'
  end.

Definition drawable_grid (depth : nat) (ops : list Operator)
    (wire_map : gmap string nat) : result Grid :=
  let n_wires := size wire_map in
  if decide (length ops = 0) then
    if decide (n_wires = 0) then Ok [[]]
    else Ok (replicate (size wire_map) [])
  else
    ops_in_layer ← drawable_layers depth ops wire_map;
    let n_layers := length ops_in_layer in
    let grid := replicate n_wires (replicate n_layers None) in
    fill_layers wire_map n_wires 0 grid ops_in_layer.
End grid.

(** ** Vocabulary of the statements *)

(** Layer [j] is occupied on one of the wires of [occ]. *)
Definition conflicts_at (occs : list (gset nat)) (occ : gset nat) (j : nat) : Prop :=
  ∃ o, occs !! j = Some o ∧ o ∩ occ ≠ ∅.

(** Every wire of the operator is a key of the wire map. *)
Definition covered (wire_map : gmap string nat) (op : Operator) : Prop :=
  Forall (λ w, is_Some (wire_map !! w)) (wires op).

#[global] Instance covered_dec (wire_map : gmap string nat) (op : Operator) :
  Decision (covered wire_map op).
Proof. unfold covered. apply _. Defined.

(** The occupied wires of an operator, as a total function: the empty set
    where the wire map lacks one of its wires. *)
Definition occ_of (wire_map : gmap string nat) (op : Operator) : gset nat :=
  match op_occupied_wires wire_map op with
  | Ok occ => occ
  | Raise _ => ∅
  end.

(** The OccupiedSet of the specification, in its words: for an operation
    with wires, the contiguous inclusive range from its minimum to its
    maximum mapped wire index; for an operation without wires, every index of
    the wire map. *)
Definition is_OccupiedSet (wire_map : gmap string nat) (op : Operator)
    (occ : gset nat) : Prop :=
  if decide (wires op = []) then
    ∀ x, x ∈ occ ↔ ∃ w, wire_map !! w = Some x
  else
    ∃ lo hi,
      (∃ w, w ∈ wires op ∧ wire_map !! w = Some lo) ∧
      (∃ w, w ∈ wires op ∧ wire_map !! w = Some hi) ∧
      (∀ w i, w ∈ wires op → wire_map !! w = Some i → lo ≤ i ≤ hi) ∧
      (∀ x, x ∈ occ ↔ lo ≤ x ≤ hi).

(** Two operators conflict when their occupied wires intersect. *)
Definition conflict (wire_map : gmap string nat) (a b : Operator) : Prop :=
  occ_of wire_map a ∩ occ_of wire_map b ≠ ∅.

(** [st] holds the operators [seen], placed in the layers [pl] (position by
    position), together with the union of their occupied wires per layer. *)
Record Layered (wire_map : gmap string nat) (st : State)
    (seen : list Operator) (pl : list nat) : Prop := {
  layered_len_pl : length pl = length seen;
  layered_len_occ : length (occupied_wires_per_layer st) = S (max_layer st);
  layered_len_ops : length (ops_in_layer st) = S (max_layer st);
  layered_covered : ∀ op, op ∈ seen → is_Ok (op_occupied_wires wire_map op);
  layered_bound : ∀ p k, pl !! p = Some k → k ≤ max_layer st;
  layered_ops : ∀ k s, ops_in_layer st !! k = Some s →
    ∀ op, op ∈ s ↔ ∃ p, seen !! p = Some op ∧ pl !! p = Some k;
  layered_occ : ∀ k o, occupied_wires_per_layer st !! k = Some o →
    ∀ x, x ∈ o ↔ ∃ p op, seen !! p = Some op ∧ pl !! p = Some k
                        ∧ x ∈ occ_of wire_map op
}.

(** Every operator sits right after the last earlier operator it conflicts
    with, or in layer 0 when there is none. *)
Record Asap (wire_map : gmap string nat) (seen : list Operator) (pl : list nat)
    : Prop := {
  asap_after : ∀ p q op_p op_q kp kq,
    p < q → seen !! p = Some op_p → seen !! q = Some op_q →
    pl !! p = Some kp → pl !! q = Some kq →
    conflict wire_map op_p op_q → kp < kq;
  asap_tight : ∀ q op_q kq,
    seen !! q = Some op_q → pl !! q = Some kq →
    kq = 0 ∨ ∃ p op_p, p < q ∧ seen !! p = Some op_p ∧ pl !! p = Some (kq - 1)
                     ∧ conflict wire_map op_p op_q
}.

(** Every layer above the first holds an operator. *)
Definition Dense (st : State) (pl : list nat) : Prop :=
  ∀ k, 0 < k ≤ max_layer st → ∃ p, pl !! p = Some k.

(** The layers returned for [ops], with the layer [pl] of every position. *)
Record Placement (wire_map : gmap string nat) (ops : list Operator)
    (layers : list (gset Operator)) (pl : list nat) : Prop := {
  placement_len : length pl = length ops;
  placement_nonempty : 1 ≤ length layers;
  placement_covered : Forall (covered wire_map) ops;
  placement_bound : ∀ p k, pl !! p = Some k → k < length layers;
  placement_members : ∀ k s, layers !! k = Some s →
    ∀ op, op ∈ s ↔ ∃ p, ops !! p = Some op ∧ pl !! p = Some k;
  placement_asap : Asap wire_map ops pl;
  placement_dense : ∀ k, 0 < k < length layers → ∃ p, pl !! p = Some k
}.

#[global] Instance conflict_dec (wire_map : gmap string nat) (a b : Operator) :
  Decision (conflict wire_map a b).
Proof. unfold conflict. apply _. Defined.

(** Leftmost packing as the specification words it: two operations at
    positions [p < q] with disjoint occupied wires, such that no operation
    between them in input order conflicts with either, share a layer. *)
Definition leftmost_packing_as_stated (depth : nat) (ops : list Operator)
    (wire_map : gmap string nat) (p q : nat) : Prop :=
  ∀ layers X Y,
    drawable_layers depth ops wire_map = Ok layers →
    p < q → ops !! p = Some X → ops !! q = Some Y →
    occ_of wire_map X ## occ_of wire_map Y →
    (∀ m Z, p < m < q → ops !! m = Some Z →
       ¬ conflict wire_map Z X ∧ ¬ conflict wire_map Z Y) →
    ∃ k layer, layers !! k = Some layer ∧ X ∈ layer ∧ Y ∈ layer.

(** The placement search as the specification words it: for the operation
    at position [n], processed in state [st], the search started at
    [max_layer st] returns a layer, which is [max_layer st + 1] if that layer
    is occupied on a wire of the operation, the index after the first
    occupied layer met walking downward otherwise, and 0 if none is met. *)
Definition placement_search_as_stated (depth : nat) (ops : list Operator)
    (wire_map : gmap string nat) (n : nat) : Prop :=
  ∀ op st occ,
    foldM (loop_body depth wire_map) init_state (take n ops) = Ok st →
    ops !! n = Some op →
    op_occupied_wires wire_map op = Ok occ →
    ∃ r, _recursive_find_layer depth (max_layer st) occ (occupied_wires_per_layer st) = Ok r
       ∧ (conflicts_at (occupied_wires_per_layer st) occ (max_layer st) →
          r = max_layer st + 1)
       ∧ (∀ c, c ≤ max_layer st →
            conflicts_at (occupied_wires_per_layer st) occ c →
            (∀ j, c < j ≤ max_layer st →
               ¬ conflicts_at (occupied_wires_per_layer st) occ j) →
            r = c + 1)
       ∧ ((∀ j, j ≤ max_layer st →
             ¬ conflicts_at (occupied_wires_per_layer st) occ j) → r = 0).

(** The lookup failure as the specification words it: [drawable_layers]
    fails with a lookup error exactly when some operation names a wire label
    that is not a key of the wire map. *)
Definition lookup_failure_as_stated (depth : nat) (ops : list Operator)
    (wire_map : gmap string nat) : Prop :=
  (∃ w, drawable_layers depth ops wire_map = Raise (KeyError w))
  ↔ (∃ op w, op ∈ ops ∧ w ∈ wires op ∧ wire_map !! w = None).

(** The content of cell [(r, c)], when the grid has such a cell. *)
Definition cell (grid : Grid) (r c : nat) : option (option Operator) :=
  grid !! r ≫= λ row, row !! c.

(** [n] rows of [m] columns each. *)
Definition shape (grid : Grid) (n m : nat) : Prop :=
  length grid = n ∧ Forall (λ row, length row = m) grid.

(** A list of assignments [grid[r][c] = op], done in order. *)
Definition apply_writes (grid : Grid) (ws : list (nat * nat * Operator)) : result Grid :=
  foldM (λ g w, set_cell g w.1.1 w.1.2 w.2) grid ws.

(** The rows of the wires of an operator, in the order of its wires. *)
Definition mapped_rows (wire_map : gmap string nat) (ws : list string) : list nat :=
  omap (λ w, wire_map !! w) ws.

(** The rows assigned for one operator by lines 135-141, in order. *)
Definition op_rows (wire_map : gmap string nat) (n_wires : nat) (op : Operator)
    : list nat :=
  (if decide (length (wires op) = 0) then seq 0 n_wires else [])
  ++ mapped_rows wire_map (wires op).

(** The assignments of lines 135-141 for one operator of layer [layer]. *)
Definition op_writes (wire_map : gmap string nat) (n_wires layer : nat) (op : Operator)
    : list (nat * nat * Operator) :=
  (λ r, (r, layer, op)) <$> op_rows wire_map n_wires op.

(** No two assignments of the list give one cell two different operators. *)
Definition consistent (ws : list (nat * nat * Operator)) : Prop :=
  ∀ r c o1 o2, (r, c, o1) ∈ ws → (r, c, o2) ∈ ws → o1 = o2.

(** The wire map of the data model: distinct labels have distinct indices,
    and the indices are exactly [0 .. n-1] for [n] labels. *)
Definition wire_map_ok (wire_map : gmap string nat) : Prop :=
  NoDup ((map_to_list wire_map).*2) ∧
  (map_img wire_map : gset nat) = set_seq 0 (size wire_map).

#[global] Instance wire_map_ok_dec (wire_map : gmap string nat) :
  Decision (wire_map_ok wire_map).
Proof. unfold wire_map_ok. apply _. Defined.

(** The dimensions of the grid as the specification words them: with an
    operation or a wire, a grid of [wireCount] rows whose rows all have the
    same number of columns, at least one. *)
Definition grid_has_columns_as_stated (depth : nat) (set_iter : gset Operator → list Operator)
    (ops : list Operator) (wire_map : gmap string nat) : Prop :=
  ∀ grid, drawable_grid set_iter depth ops wire_map = Ok grid →
    ops ≠ [] ∨ wire_map ≠ ∅ →
    ∃ layer_count, 1 ≤ layer_count ∧ length grid = size wire_map
                 ∧ Forall (λ row, length row = layer_count) grid.

Section grid_assignments.
Variable set_iter : gset Operator → list Operator.

(** All assignments of lines 133-141, [enumerate] starting at [layer]. *)
Fixpoint grid_writes (wire_map : gmap string nat) (n_wires layer : nat)
    (layers : list (gset Operator)) : list (nat * nat * Operator) :=
  match layers with
  | [] => []
  | layer_ops :: layers' =>
      (set_iter layer_ops ≫= op_writes wire_map n_wires layer)
      ++ grid_writes wire_map n_wires (S layer) layers'
  end.

End grid_assignments.

(** ** Inputs used in the examples *)

Definition wm2 : gmap string nat := {[ "a" := 0; "b" := 1 ]}.
Definition wm4 : gmap string nat := {[ "a" := 0; "b" := 1; "c" := 2; "d" := 3 ]}.

Definition opA : Operator := Op "A" ["a"].
Definition opB : Operator := Op "B" ["a"].
Definition opC : Operator := Op "C" ["b"].
Definition opD : Operator := Op "D" ["a"].

Definition wm4_ops : list Operator := [Op "E" ["a"; "d"]; Op "F" ["b"]].

(** The grid of [wm4_ops] on [wm4]. *)
Definition wm4_grid : Grid :=
  [ [Some (Op "E" ["a"; "d"]); None];
    [None; Some (Op "F" ["b"])];
    [None; None];
    [Some (Op "E" ["a"; "d"]); None] ].

Definition opS : Operator := Op "state" [].

Definition opG : Operator := Op "G" ["b"].

(** An operation on wire [b] followed by 1100 operations on wire [a]: the
    first two share layer 0, every later one takes a layer of its own.
    [deep_state] is the state of the loop after them. *)
Definition deep_ops : list Operator := opC :: replicate 1100 opA.

Definition deep_state : State :=
  {| max_layer := 1099;
     occupied_wires_per_layer := {[0; 1]} :: replicate 1099 {[0]};
     ops_in_layer := {[opC; opA]} :: replicate 1099 {[opA]} |}.

(** ** Vocabulary of the further properties *)

(** A schedule [pl] of [ops] respects the input order: of two operators that
    conflict, the earlier in the input lies in a strictly earlier layer. *)
Definition respects_order (wire_map : gmap string nat) (ops : list Operator)
    (pl : list nat) : Prop :=
  ∀ p q op_p op_q kp kq,
    p < q → ops !! p = Some op_p → ops !! q = Some op_q →
    pl !! p = Some kp → pl !! q = Some kq →
    conflict wire_map op_p op_q → kp < kq.

(** ** The scenarios of the specification, evaluated *)

Example scenario_1 :
  drawable_layers 1000 [Op "A" ["a"]; Op "B" ["a"]] wm2
  = Ok [ {[Op "A" ["a"]]}; {[Op "B" ["a"]]} ].
Proof. compute_done. Qed.

Example scenario_2 :
  drawable_layers 1000 [Op "A" ["a"]; Op "B" ["b"]] wm2
  = Ok [ {[Op "A" ["a"]; Op "B" ["b"]]} ].
Proof. compute_done. Qed.

Example scenario_3 :
  drawable_layers 1000 [Op "C" ["a"; "b"]; Op "D" ["a"]] wm2
  = Ok [ {[Op "C" ["a"; "b"]]}; {[Op "D" ["a"]]} ].
Proof. compute_done. Qed.

Example scenario_6 :
  drawable_grid elements 1000 [Op "E" ["a"; "d"]; Op "F" ["b"]] wm4
  = Ok [ [Some (Op "E" ["a"; "d"]); None];
         [None; Some (Op "F" ["b"])];
         [None; None];
         [Some (Op "E" ["a"; "d"]); None] ].
Proof. compute_done. Qed.

(** ** The result monad *)

Lemma bind_Ok {A B} (r : result A) (f : A → result B) (b : B) :
  r ≫= f = Ok b ↔ ∃ a, r = Ok a ∧ f a = Ok b.
Proof.
  destruct r as [a|e]; simpl; split.
  - eauto.
  - by intros (a' & [= <-] & ?).
  - done.
  - by intros (a' & ? & ?).
Qed.

Lemma bind_Raise {A B} (r : result A) (f : A → result B) (e : PyError) :
  r ≫= f = Raise e ↔ r = Raise e ∨ ∃ a, r = Ok a ∧ f a = Raise e.
Proof.
  destruct r as [a|e']; simpl; split.
  - intros ?. right. eauto.
  - by intros [?|(a' & [= <-] & ?)].
  - intros [= ->]. by left.
  - by intros [[= ->]|(a' & ? & ?)].
Qed.

Lemma foldM_app {A B} (f : B → A → result B) (b : B) (l1 l2 : list A) :
  foldM f b (l1 ++ l2) = foldM f b l1 ≫= λ b', foldM f b' l2.
Proof.
  revert b. induction l1 as [|a l1 IH]; intros b; simpl; [done|].
  destruct (f b a) as [b'|e]; simpl; [apply IH | done].
Qed.

Lemma foldM_snoc {A B} (f : B → A → result B) (b : B) (l : list A) (a : A) :
  foldM f b (l ++ [a]) = foldM f b l ≫= λ b', f b' a.
Proof.
  rewrite foldM_app. destruct (foldM f b l) as [b'|e]; simpl; [|done].
  by destruct (f b' a).
Qed.

(** An invariant of the loop body that holds at the start holds at the end. *)
Lemma foldM_invariant {A B} (P : B → Prop) (f : B → A → result B) (l : list A) :
  (∀ b a b', a ∈ l → P b → f b a = Ok b' → P b') →
  ∀ b b', P b → foldM f b l = Ok b' → P b'.
Proof.
  induction l as [|a l IH]; intros Hstep b b' Hb; simpl.
  - by intros [= <-].
  - intros (b1 & Hf & Hrest)%bind_Ok.
    eapply IH; [|by eapply (Hstep b a b1); [left|..]|done].
    intros ??? Hin. apply Hstep. by right.
Qed.

(** ** The placement search *)

(** Whenever the search returns, what it returns starts the longest run of
    free layers that ends at [k]. *)
Lemma find_layer_Ok (depth : nat) (occ : gset nat) (occs : list (gset nat)) :
  ∀ k r, _recursive_find_layer depth k occ occs = Ok r →
    k < length occs
    ∧ r ≤ k + 1
    ∧ (∀ j, r ≤ j ≤ k → ¬ conflicts_at occs occ j)
    ∧ (r = 0 ∨ conflicts_at occs occ (r - 1)).
Proof.
  induction depth as [|d IH]; intros k r; simpl; [done|].
  destruct (occs !! k) as [o|] eqn:Ho; [|done].
  pose proof (lookup_lt_Some _ _ _ Ho) as Hk.
  case_decide as Hc.
  - intros [= <-]. split_and!; [done|lia| |].
    + intros j ?; lia.
    + right. exists o. by replace (k + 1 - 1) with k by lia.
  - destruct k as [|k].
    + intros [= <-]. split_and!; [done|lia| |by left].
      intros j ? (o' & Ho' & Hc'). assert (j = 0) as -> by lia.
      by simplify_eq.
    + intros Hr. destruct (IH k r Hr) as (_ & Hle & Hfree & Hstop).
      split_and!; [done|lia| |done].
      intros j Hj (o' & Ho' & Hc').
      destruct (decide (j = S k)) as [->|]; [by simplify_eq|].
      apply (Hfree j); [lia|]. by exists o'.
Qed.

(** The search makes at most [k + 1] calls, so it returns when that many are
    allowed. *)
Lemma find_layer_enough (depth : nat) (occ : gset nat) (occs : list (gset nat)) :
  ∀ k, k < length occs → k < depth →
  ∃ r, _recursive_find_layer depth k occ occs = Ok r.
Proof.
  induction depth as [|d IH]; intros k Hk Hd; [lia|]. simpl.
  destruct (lookup_lt_is_Some_2 occs k Hk) as [o Ho]. rewrite Ho.
  case_decide; [by eexists|].
  destruct k as [|k]; [by eexists|]. apply IH; lia.
Qed.

(** On an index of the list the search raises nothing but [RecursionError],
    and only when fewer than [k + 1] calls are allowed. *)
Lemma find_layer_Raise (depth : nat) (occ : gset nat) (occs : list (gset nat))
    (e : PyError) :
  ∀ k, k < length occs → _recursive_find_layer depth k occ occs = Raise e →
  e = RecursionError ∧ depth ≤ k.
Proof.
  induction depth as [|d IH]; intros k Hk; simpl.
  - intros [= <-]. split; [done|lia].
  - destruct (lookup_lt_is_Some_2 occs k Hk) as [o Ho]. rewrite Ho.
    case_decide; [done|]. destruct k as [|k]; [done|].
    intros Hr. destruct (IH k ltac:(lia) Hr) as [-> ?]. split; [done|lia].
Qed.

(** A conflict at the layer where the search starts ends it in one call. *)
Lemma find_layer_conflict (depth k : nat) (occ o : gset nat) (occs : list (gset nat)) :
  occs !! k = Some o → o ∩ occ ≠ ∅ →
  _recursive_find_layer (S depth) k occ occs = Ok (k + 1).
Proof. intros Ho Hc. simpl. rewrite Ho. by case_decide. Qed.

(** The first layer alone is searched in one call. *)
Lemma find_layer_first (depth : nat) (occ o : gset nat) (occs : list (gset nat)) :
  occs !! 0 = Some o → o ∩ occ = ∅ →
  _recursive_find_layer (S depth) 0 occ occs = Ok 0.
Proof. intros Ho Hc. simpl. rewrite Ho. by case_decide. Qed.

(** A search that returns from a layer occupied on a wire of the operator
    returns the next layer. *)
Lemma find_layer_Ok_conflict (depth k r : nat) (occ o : gset nat) (occs : list (gset nat)) :
  _recursive_find_layer depth k occ occs = Ok r →
  occs !! k = Some o → o ∩ occ ≠ ∅ → r = k + 1.
Proof.
  destruct depth as [|d]; simpl; [done|]. intros Hr Ho Hc.
  rewrite Ho in Hr. case_decide; congruence.
Qed.

(** The search returns exactly when it meets an occupied layer, or layer 0,
    within the calls it is allowed. *)
Lemma find_layer_returns (depth : nat) (occ : gset nat) (occs : list (gset nat)) :
  ∀ k, k < length occs →
  (∃ r, _recursive_find_layer depth k occ occs = Ok r)
  ↔ (k < depth ∨ ∃ c, c ≤ k ∧ k < c + depth ∧ conflicts_at occs occ c).
Proof.
  induction depth as [|d IH]; intros k Hk; simpl.
  - split; [by intros [r ?]|]. intros [?|(c & ? & ? & _)]; lia.
  - destruct (lookup_lt_is_Some_2 occs k Hk) as [o Ho]. rewrite Ho.
    case_decide as Hc.
    + split; [|by eexists]. intros _. right. exists k. split_and!; [lia..|].
      by exists o.
    + destruct k as [|k].
      * split; [|by eexists]. intros _. left. lia.
      * rewrite IH by lia. split.
        -- intros [?|(c & ? & ? & ?)]; [left; lia|right; exists c; split_and!; [lia..|done]].
        -- intros [?|(c & Hle & Hlt & Hcc)]; [left; lia|right].
           exists c. split_and!; [|lia|done].
           destruct (decide (c = S k)) as [->|]; [|lia].
           destruct Hcc as (o' & Ho' & Hcc). by simplify_eq.
Qed.

(** One iteration on a state whose last layer is occupied on a wire of the
    operator: one call of the search, and a new layer for the operator. *)
Lemma loop_body_conflict_top (depth : nat) (wire_map : gmap string nat) (st : State)
    (op : Operator) (occ o : gset nat) :
  op_occupied_wires wire_map op = Ok occ →
  occupied_wires_per_layer st !! max_layer st = Some o → o ∩ occ ≠ ∅ →
  length (occupied_wires_per_layer st) = max_layer st + 1 →
  length (ops_in_layer st) = max_layer st + 1 →
  loop_body (S depth) wire_map st op
  = Ok {| max_layer := max_layer st + 1;
          occupied_wires_per_layer := occupied_wires_per_layer st ++ [occ];
          ops_in_layer := ops_in_layer st ++ [{[op]}] |}.
Proof.
  intros Hocc Ho Hc Hlen1 Hlen2. unfold loop_body, find_op_layer.
  rewrite Hocc. cbn [mbind result_bind]. rewrite (find_layer_conflict _ _ _ _ _ Ho Hc).
  cbn [mbind result_bind]. unfold add_layer_if_needed. rewrite decide_True by lia.
  unfold add_to_layer. cbn [max_layer occupied_wires_per_layer ops_in_layer].
  rewrite !lookup_app_r by lia. rewrite Hlen1, Hlen2, Nat.sub_diag. cbn [lookup list_lookup].
  rewrite !insert_app_r_alt by lia. rewrite Hlen1, Hlen2, Nat.sub_diag.
  cbn [insert list_insert]. by rewrite !(left_id_L ∅ (∪)).
Qed.

(** One iteration on a state with one layer that is free on the wires of the
    operator: one call of the search, and the operator joins the layer. *)
Lemma loop_body_free_first (depth : nat) (wire_map : gmap string nat)
    (op : Operator) (occ o : gset nat) (layer_ops : gset Operator) :
  op_occupied_wires wire_map op = Ok occ → o ∩ occ = ∅ →
  loop_body (S depth) wire_map
    {| max_layer := 0; occupied_wires_per_layer := [o]; ops_in_layer := [layer_ops] |} op
  = Ok {| max_layer := 0; occupied_wires_per_layer := [o ∪ occ];
          ops_in_layer := [layer_ops ∪ {[op]}] |}.
Proof.
  intros Hocc Hfree. unfold loop_body, find_op_layer.
  rewrite Hocc. cbn [mbind result_bind max_layer occupied_wires_per_layer].
  rewrite (find_layer_first _ _ o) by done.
  cbn [mbind result_bind]. unfold add_layer_if_needed. rewrite decide_False by (simpl; lia).
  done.
Qed.

(** [S n] operations on wire [a], processed from a state with one layer that
    is free on that wire, fill [S n] layers, one call of the search each. *)
Lemma same_wire_loop (depth n : nat) (o : gset nat) (s : gset Operator) :
  o ∩ {[0]} = ∅ →
  foldM (loop_body (S depth) wm2)
    {| max_layer := 0; occupied_wires_per_layer := [o]; ops_in_layer := [s] |}
    (replicate (S n) opA)
  = Ok {| max_layer := n;
          occupied_wires_per_layer := (o ∪ {[0]}) :: replicate n {[0]};
          ops_in_layer := (s ∪ {[opA]}) :: replicate n {[opA]} |}.
Proof.
  intros Hfree. induction n as [|n IH].
  - cbn [replicate foldM].
    by rewrite (loop_body_free_first _ _ _ {[0]}) by (done || compute_done).
  - rewrite replicate_S_end, foldM_snoc, IH. cbn [mbind result_bind].
    rewrite (loop_body_conflict_top _ _ _ _ {[0]}
               (if n is 0 then o ∪ {[0]} else {[0]})).
    + cbn [max_layer occupied_wires_per_layer ops_in_layer].
      by rewrite <-!app_comm_cons, <-!replicate_S_end, Nat.add_1_r.
    + compute_done.
    + cbn [max_layer occupied_wires_per_layer]. destruct n as [|n]; [done|].
      rewrite lookup_cons_ne_0 by done. apply lookup_replicate_2. simpl. lia.
    + destruct n; [|compute_done].
      apply (non_empty_inhabited_L 0). set_solver.
    + cbn [max_layer occupied_wires_per_layer]. simpl. rewrite length_replicate. lia.
    + cbn [max_layer ops_in_layer]. simpl. rewrite length_replicate. lia.
Qed.

(** The search result is determined by the run it starts. *)
Lemma find_layer_unique (k : nat) (occ : gset nat) (occs : list (gset nat)) (r r' : nat) :
  r ≤ k + 1 → r' ≤ k + 1 →
  (∀ j, r ≤ j ≤ k → ¬ conflicts_at occs occ j) →
  (r = 0 ∨ conflicts_at occs occ (r - 1)) →
  (∀ j, r' ≤ j ≤ k → ¬ conflicts_at occs occ j) →
  (r' = 0 ∨ conflicts_at occs occ (r' - 1)) →
  r = r'.
Proof.
  intros Hr Hr' Hfree Hstop Hfree' Hstop'.
  destruct (decide (r < r')) as [Hlt|Hnlt].
  - destruct Hstop' as [?|Hc]; [lia|]. exfalso. apply (Hfree (r' - 1)); [lia|done].
  - destruct (decide (r' < r)) as [Hlt'|]; [|lia].
    destruct Hstop as [?|Hc]; [lia|]. exfalso. apply (Hfree' (r - 1)); [lia|done].
Qed.

(** ** Occupied wires *)

Lemma foldr_min_spec (x : nat) (xs : list nat) :
  foldr Nat.min x xs ∈ x :: xs ∧ ∀ y, y ∈ x :: xs → foldr Nat.min x xs ≤ y.
Proof.
  induction xs as [|a xs [IHin IHle]]; simpl.
  - split; [by left|]. by intros y ->%list_elem_of_singleton.
  - split.
    + destruct (Nat.min_spec a (foldr Nat.min x xs)) as [[_ ->]|[_ ->]].
      * right. by left.
      * apply elem_of_cons in IHin as [->|?]; [by left|]. right. by right.
    + intros y [->|[->|Hy]%elem_of_cons]%elem_of_cons.
      * etrans; [apply Nat.le_min_r|]. apply IHle. by left.
      * apply Nat.le_min_l.
      * etrans; [apply Nat.le_min_r|]. apply IHle. by right.
Qed.

Lemma foldr_max_spec (x : nat) (xs : list nat) :
  foldr Nat.max x xs ∈ x :: xs ∧ ∀ y, y ∈ x :: xs → y ≤ foldr Nat.max x xs.
Proof.
  induction xs as [|a xs [IHin IHle]]; simpl.
  - split; [by left|]. by intros y ->%list_elem_of_singleton.
  - split.
    + destruct (Nat.max_spec a (foldr Nat.max x xs)) as [[_ ->]|[_ ->]].
      * apply elem_of_cons in IHin as [->|?]; [by left|]. right. by right.
      * right. by left.
    + intros y [->|[->|Hy]%elem_of_cons]%elem_of_cons.
      * etrans; [|apply Nat.le_max_r]. apply IHle. by left.
      * apply Nat.le_max_l.
      * etrans; [|apply Nat.le_max_r]. apply IHle. by right.
Qed.

Lemma py_min_spec (s : gset nat) :
  s ≠ ∅ → ∃ m, py_min s = Ok m ∧ m ∈ s ∧ ∀ y, y ∈ s → m ≤ y.
Proof.
  intros Hne. unfold py_min.
  destruct (elements s) as [|x xs] eqn:Hel.
  - by apply elements_empty_inv, leibniz_equiv in Hel.
  - destruct (foldr_min_spec x xs) as [Hin Hle].
    exists (foldr Nat.min x xs). split_and!; [done| |].
    + apply elem_of_elements. by rewrite Hel.
    + intros y Hy. apply Hle. rewrite <-Hel. by apply elem_of_elements.
Qed.

Lemma py_max_spec (s : gset nat) :
  s ≠ ∅ → ∃ m, py_max s = Ok m ∧ m ∈ s ∧ ∀ y, y ∈ s → y ≤ m.
Proof.
  intros Hne. unfold py_max.
  destruct (elements s) as [|x xs] eqn:Hel.
  - by apply elements_empty_inv, leibniz_equiv in Hel.
  - destruct (foldr_max_spec x xs) as [Hin Hle].
    exists (foldr Nat.max x xs). split_and!; [done| |].
    + apply elem_of_elements. by rewrite Hel.
    + intros y Hy. apply Hle. rewrite <-Hel. by apply elem_of_elements.
Qed.

Lemma elem_of_set_range (lo hi x : nat) : x ∈ set_range lo hi ↔ lo ≤ x < hi.
Proof. unfold set_range. rewrite elem_of_set_seq. lia. Qed.

Lemma map_wires_Ok (wire_map : gmap string nat) (ws : list string) (l : list nat) :
  map_wires wire_map ws = Ok l ↔ Forall2 (λ w i, wire_map !! w = Some i) ws l.
Proof.
  revert l. induction ws as [|w ws IH]; intros l; simpl.
  - split; [intros [= <-]; constructor | by intros ->%Forall2_nil_inv_l].
  - unfold lookup_wire. destruct (wire_map !! w) as [i|] eqn:Hw; simpl.
    + split.
      * intros (rest & Hrest & [= <-])%bind_Ok. constructor; [done|]. by apply IH.
      * intros (i' & rest & Hi & Hrest & ->)%Forall2_cons_inv_l.
        apply IH in Hrest. rewrite Hrest. simpl. congruence.
    + split; [done|]. intros (i' & rest & Hi & _)%Forall2_cons_inv_l. congruence.
Qed.

(** The lookup that fails is the first wire, in order, missing from the map. *)
Lemma map_wires_Raise (wire_map : gmap string nat) (ws : list string) (e : PyError) :
  map_wires wire_map ws = Raise e ↔
  ∃ n w, e = KeyError w ∧ ws !! n = Some w ∧ wire_map !! w = None
       ∧ ∀ m w', m < n → ws !! m = Some w' → is_Some (wire_map !! w').
Proof.
  induction ws as [|w ws IH]; simpl.
  - split; [done|]. by intros (n & w & _ & ? & _).
  - unfold lookup_wire. destruct (wire_map !! w) as [i|] eqn:Hw; simpl.
    + rewrite bind_Raise, IH. split.
      * intros [(n & w' & -> & Hn & Hnone & Hbefore)|(rest & _ & ?)]; [|done].
        exists (S n), w'. split_and!; [done..|].
        intros [|m] w'' ? Hm; simplify_eq/=; [by eexists|].
        eapply Hbefore; [|done]. lia.
      * intros ([|n] & w' & -> & Hn & Hnone & Hbefore); simplify_eq/=.
        left. exists n, w'. split_and!; [done..|].
        intros m w'' ? Hm. apply (Hbefore (S m)); [lia|done].
    + split.
      * intros [= <-]. exists 0, w. split_and!; [done..|]. intros; lia.
      * intros ([|n] & w' & -> & Hn & Hnone & Hbefore); simplify_eq/=; [done|].
        destruct (Hbefore 0 w) as [? ?]; [lia|done|congruence].
Qed.

Lemma map_wires_covered (wire_map : gmap string nat) (ws : list string) :
  (∀ w, w ∈ ws → is_Some (wire_map !! w)) →
  ∃ l, map_wires wire_map ws = Ok l.
Proof.
  intros Hcov. destruct (map_wires wire_map ws) as [l|e] eqn:Hm; [by eexists|].
  apply map_wires_Raise in Hm as (n & w & _ & Hn & Hnone & _).
  destruct (Hcov w) as [? ?]; [by eapply list_elem_of_lookup_2|congruence].
Qed.

Lemma Forall2_lookup_img (wire_map : gmap string nat) (ws : list string) (l : list nat) :
  Forall2 (λ w i, wire_map !! w = Some i) ws l →
  ∀ i, i ∈ l ↔ ∃ w, w ∈ ws ∧ wire_map !! w = Some i.
Proof.
  induction 1 as [|w i ws l Hw _ IH]; intros j.
  - split; [by intros ?%elem_of_nil | by intros (? & ?%elem_of_nil & _)].
  - rewrite elem_of_cons, IH. split.
    + intros [->|(w' & ? & ?)]; [exists w; split; [by left|done]|].
      exists w'. split; [by right|done].
    + intros (w' & [->|?]%elem_of_cons & Hw'); [left; congruence|].
      right. by exists w'.
Qed.

Lemma wires_of_op_broadcast (wire_map : gmap string nat) (op : Operator) :
  wires op = [] →
  wires_of_op wire_map op = Ok (map_img wire_map, map_img wire_map).
Proof. intros Hw. unfold wires_of_op. by rewrite Hw. Qed.

Lemma mapped_nonempty (wire_map : gmap string nat) (ws : list string) (l : list nat) :
  ws ≠ [] → map_wires wire_map ws = Ok l → list_to_set l ≠ (∅ : gset nat).
Proof.
  intros Hne Hl%map_wires_Ok. destruct Hl as [|w i ws l' Hw Hrest]; [done|].
  set_solver.
Qed.

(** What lines 81-85 compute for an operator with wires. *)
Lemma wires_of_op_span (wire_map : gmap string nat) (op : Operator)
    (mapped occ : gset nat) :
  wires op ≠ [] →
  wires_of_op wire_map op = Ok (mapped, occ) →
  (∀ i, i ∈ mapped ↔ ∃ w, w ∈ wires op ∧ wire_map !! w = Some i) ∧
  ∃ min_wire max_wire,
    min_wire ∈ mapped ∧ max_wire ∈ mapped ∧
    (∀ i, i ∈ mapped → min_wire ≤ i ≤ max_wire) ∧
    (∀ x, x ∈ occ ↔ min_wire ≤ x ≤ max_wire).
Proof.
  intros Hne. unfold wires_of_op.
  case_decide as Hlen; [by destruct (wires op)|].
  intros (l & Hl & (mn & Hmn & (mx & Hmx & [= <- <-])%bind_Ok)%bind_Ok)%bind_Ok.
  pose proof (mapped_nonempty _ _ _ Hne Hl) as Hnonempty.
  apply map_wires_Ok in Hl.
  pose proof (Forall2_lookup_img _ _ _ Hl) as Himg.
  destruct (py_min_spec _ Hnonempty) as (mn' & Hmn' & Hmin_in & Hmin_le).
  destruct (py_max_spec _ Hnonempty) as (mx' & Hmx' & Hmax_in & Hmax_le).
  assert (mn' = mn) as -> by congruence.
  assert (mx' = mx) as -> by congruence.
  split.
  - intros i. by rewrite elem_of_list_to_set.
  - exists mn, mx. split_and!; [done..| |].
    + intros i Hi. split; [by apply Hmin_le | by apply Hmax_le].
    + intros x. rewrite elem_of_set_range. lia.
Qed.

Lemma wires_of_op_covered (wire_map : gmap string nat) (op : Operator) :
  covered wire_map op → is_Ok (wires_of_op wire_map op).
Proof.
  intros Hcov. unfold wires_of_op. case_decide as Hlen; [by eexists|].
  destruct (map_wires_covered wire_map (wires op)) as [l Hl].
  { by apply Forall_forall. }
  assert (wires op ≠ []) as Hne by (by destruct (wires op)).
  pose proof (mapped_nonempty _ _ _ Hne Hl) as Hnonempty.
  rewrite Hl. simpl.
  destruct (py_min_spec _ Hnonempty) as (mn' & -> & _).
  destruct (py_max_spec _ Hnonempty) as (mx' & -> & _).
  by eexists.
Qed.

(** The only exception of lines 75-85 is the [KeyError] of the first wire of
    the operator that the map lacks. *)
Lemma wires_of_op_Raise (wire_map : gmap string nat) (op : Operator) (e : PyError) :
  wires_of_op wire_map op = Raise e →
  ∃ n w, e = KeyError w ∧ wires op !! n = Some w ∧ wire_map !! w = None
       ∧ ∀ m w', m < n → wires op !! m = Some w' → is_Some (wire_map !! w').
Proof.
  unfold wires_of_op. case_decide as Hlen; [done|].
  intros [Hl|(l & Hl & Hrest)]%bind_Raise; [by apply map_wires_Raise|].
  exfalso.
  assert (wires op ≠ []) as Hne by (by destruct (wires op)).
  pose proof (mapped_nonempty _ _ _ Hne Hl) as Hnonempty.
  destruct (py_min_spec _ Hnonempty) as (mn' & Hmn & _).
  destruct (py_max_spec _ Hnonempty) as (mx' & Hmx & _).
  rewrite Hmn, Hmx in Hrest. done.
Qed.

Lemma op_occupied_wires_Ok (wire_map : gmap string nat) (op : Operator) (occ : gset nat) :
  op_occupied_wires wire_map op = Ok occ ↔
  ∃ mapped, wires_of_op wire_map op = Ok (mapped, occ).
Proof.
  unfold op_occupied_wires. rewrite bind_Ok. split.
  - intros ([mapped occ'] & ? & [= <-]). by exists mapped.
  - intros (mapped & ?). by exists (mapped, occ).
Qed.

Lemma op_occupied_wires_covered (wire_map : gmap string nat) (op : Operator) :
  covered wire_map op ↔ is_Ok (op_occupied_wires wire_map op).
Proof.
  split.
  - intros [[mapped occ] Hw]%wires_of_op_covered. exists occ.
    apply op_occupied_wires_Ok. by exists mapped.
  - intros [occ (mapped & Hw)%op_occupied_wires_Ok].
    apply Forall_forall. intros w Hin.
    destruct (decide (wires op = [])) as [Hnil|Hne].
    { rewrite Hnil in Hin. by apply elem_of_nil in Hin. }
    destruct (wire_map !! w) as [i|] eqn:Hlk; [by eexists|].
    exfalso. unfold wires_of_op in Hw.
    case_decide; [by destruct (wires op)|].
    apply bind_Ok in Hw as (l & Hl%map_wires_Ok & _).
    apply list_elem_of_lookup in Hin as [n Hn].
    destruct (Forall2_lookup_l _ _ _ _ _ Hl Hn) as (i & _ & ?). congruence.
Qed.

Lemma op_occupied_wires_broadcast (wire_map : gmap string nat) (op : Operator) :
  wires op = [] → op_occupied_wires wire_map op = Ok (map_img wire_map).
Proof.
  intros Hw. unfold op_occupied_wires. by rewrite wires_of_op_broadcast.
Qed.

(** A non-empty set of occupied wires contains an index of the wire map:
    for an operator with wires, the least mapped index. *)
Lemma occupied_meets_img (wire_map : gmap string nat) (op : Operator) (occ : gset nat) :
  op_occupied_wires wire_map op = Ok occ → occ ≠ ∅ →
  ∃ x, x ∈ occ ∧ x ∈ (map_img wire_map : gset nat).
Proof.
  intros (mapped & Hw)%op_occupied_wires_Ok Hne.
  destruct (decide (wires op = [])) as [Hnil|Hwires].
  - rewrite wires_of_op_broadcast in Hw by done. simplify_eq.
    apply set_choose_L in Hne as [x Hx]. by exists x.
  - destruct (wires_of_op_span _ _ _ _ Hwires Hw)
      as (Hmapped & mn & mx & Hmn & Hmx & Hbounds & Hocc).
    exists mn. split.
    + apply Hocc. split; [done|]. by apply Hbounds.
    + apply Hmapped in Hmn as (w & _ & Hlk). by eapply elem_of_map_img_2.
Qed.

(** An operator with wires occupies at least one wire. *)
Lemma occupied_nonempty (wire_map : gmap string nat) (op : Operator) (occ : gset nat) :
  wires op ≠ [] → op_occupied_wires wire_map op = Ok occ → occ ≠ ∅.
Proof.
  intros Hwires (mapped & Hw)%op_occupied_wires_Ok.
  destruct (wires_of_op_span _ _ _ _ Hwires Hw)
    as (_ & mn & mx & Hmn & _ & Hbounds & Hocc).
  apply (non_empty_inhabited_L mn).
  apply Hocc. split; [done|]. by apply Hbounds.
Qed.

(** ** The loop invariant *)

Lemma occ_of_Ok (wire_map : gmap string nat) (op : Operator) (occ : gset nat) :
  op_occupied_wires wire_map op = Ok occ → occ_of wire_map op = occ.
Proof. unfold occ_of. by intros ->. Qed.

Lemma conflict_sym (wire_map : gmap string nat) (a b : Operator) :
  conflict wire_map a b → conflict wire_map b a.
Proof. unfold conflict. by rewrite (comm_L (∩)). Qed.

Lemma Layered_init (wire_map : gmap string nat) : Layered wire_map init_state [] [].
Proof.
  split; simpl; try done.
  - by intros op ?%elem_of_nil.
  - intros [|k] s; [|done]. intros [= <-] op. split; [set_solver|].
    by intros (p & ? & _).
  - intros [|k] s; [|done]. intros [= <-] op. split; [set_solver|].
    by intros (p & ? & ? & _).
Qed.

Lemma Asap_init (wire_map : gmap string nat) : Asap wire_map [] [].
Proof. split; intros; simplify_eq/=. Qed.

Lemma Dense_init : Dense init_state [].
Proof. intros k. simpl. lia. Qed.

Lemma conflicts_at_iff (wire_map : gmap string nat) (st : State)
    (seen : list Operator) (pl : list nat) (op : Operator) (j : nat) :
  Layered wire_map st seen pl →
  conflicts_at (occupied_wires_per_layer st) (occ_of wire_map op) j ↔
  ∃ p op_p, seen !! p = Some op_p ∧ pl !! p = Some j ∧ conflict wire_map op_p op.
Proof.
  intros HL. split.
  - intros (o & Ho & [x [Hxo Hxocc]%elem_of_intersection]%set_choose_L).
    apply (layered_occ _ _ _ _ HL _ _ Ho) in Hxo as (p & op_p & Hp & Hk & Hx).
    exists p, op_p. split_and!; [done..|].
    apply (non_empty_inhabited_L x). by apply elem_of_intersection.
  - intros (p & op_p & Hp & Hk & [x [Hx1 Hx2]%elem_of_intersection]%set_choose_L).
    pose proof (layered_bound _ _ _ _ HL _ _ Hk) as Hle.
    destruct (lookup_lt_is_Some_2 (occupied_wires_per_layer st) j) as [o Ho].
    { rewrite (layered_len_occ _ _ _ _ HL). lia. }
    exists o. split; [done|].
    apply (non_empty_inhabited_L x). apply elem_of_intersection. split; [|done].
    apply (layered_occ _ _ _ _ HL _ _ Ho). by exists p, op_p.
Qed.

Lemma grow_Layered (wire_map : gmap string nat) (st : State)
    (seen : list Operator) (pl : list nat) (op_layer : nat) :
  Layered wire_map st seen pl →
  Layered wire_map (add_layer_if_needed st op_layer) seen pl.
Proof.
  intros HL. unfold add_layer_if_needed. case_decide as Hgrow; [|done].
  destruct HL as [Hlen Hlocc Hlops Hcov Hbound Hops Hocc].
  split; simpl; try done.
  - rewrite length_app, Hlocc. simpl. lia.
  - rewrite length_app, Hlops. simpl. lia.
  - intros p k Hk. apply Hbound in Hk. lia.
  - intros k s [Hk|[Hk Hs]]%lookup_app_Some; [by apply Hops|].
    apply list_lookup_singleton_Some in Hs as [_ <-].
    intros op. split; [set_solver|].
    intros (p & _ & Hp%Hbound). rewrite Hlops in Hk. lia.
  - intros k o [Hk|[Hk Ho]]%lookup_app_Some; [by apply Hocc|].
    apply list_lookup_singleton_Some in Ho as [_ <-].
    intros x. split; [set_solver|].
    intros (p & op & _ & Hp%Hbound & _). rewrite Hlocc in Hk. lia.
Qed.

Lemma add_to_layer_Layered (wire_map : gmap string nat) (st : State)
    (seen : list Operator) (pl : list nat) (op_layer : nat) (op : Operator)
    (occ : gset nat) :
  Layered wire_map st seen pl →
  op_layer ≤ max_layer st →
  op_occupied_wires wire_map op = Ok occ →
  ∃ st', add_to_layer st op_layer op occ = Ok st'
       ∧ max_layer st' = max_layer st
       ∧ Layered wire_map st' (seen ++ [op]) (pl ++ [op_layer]).
Proof.
  intros [Hlen Hlocc Hlops Hcov Hbound Hops Hocc] Hle Hop.
  unfold add_to_layer.
  destruct (lookup_lt_is_Some_2 (ops_in_layer st) op_layer) as [s Hs]; [lia|].
  destruct (lookup_lt_is_Some_2 (occupied_wires_per_layer st) op_layer) as [o Ho]; [lia|].
  rewrite Hs, Ho. eexists. split; [done|]. split; [done|].
  split; simpl.
  - rewrite !length_app. simpl. lia.
  - by rewrite length_insert.
  - by rewrite length_insert.
  - intros op' [?| ->%list_elem_of_singleton]%elem_of_app; [by apply Hcov|by eexists].
  - intros p k [[_ Hk]|[_ <-]]%lookup_snoc_Some; [by eapply Hbound|done].
  - intros k s' Hs' op'.
    apply list_lookup_insert_Some in Hs' as [(<- & <- & _)|[Hne Hs']].
    + rewrite elem_of_union, elem_of_singleton, (Hops _ _ Hs). split.
      * intros [(p & Hp & Hk)| ->].
        -- exists p. split; apply lookup_snoc_Some; left;
             (split; [by eapply lookup_lt_Some|done]).
        -- exists (length seen). split; apply lookup_snoc_Some; right; [done|].
           by rewrite Hlen.
      * intros (p & [[_ Hp]|[-> <-]]%lookup_snoc_Some & Hk); [|by right].
        left. exists p. split; [done|].
        apply lookup_snoc_Some in Hk as [[_ Hk]|[Hk _]]; [done|].
        apply lookup_lt_Some in Hp. lia.
    + rewrite (Hops _ _ Hs'). split.
      * intros (p & Hp & Hk).
        exists p. split; apply lookup_snoc_Some; left;
          (split; [by eapply lookup_lt_Some|done]).
      * intros (p & [[_ Hp]|[-> <-]]%lookup_snoc_Some & Hk).
        -- exists p. split; [done|].
           apply lookup_snoc_Some in Hk as [[_ Hk]|[Hk _]]; [done|].
           apply lookup_lt_Some in Hp. lia.
        -- apply lookup_snoc_Some in Hk as [[Hk _]|[_ Hk]]; [lia|done].
  - intros k o' Ho' x.
    apply list_lookup_insert_Some in Ho' as [(<- & <- & _)|[Hne Ho']].
    + rewrite elem_of_union, (Hocc _ _ Ho). split.
      * intros [(p & op' & Hp & Hk & Hx)|Hx].
        -- exists p, op'. split_and!; [| |done]; apply lookup_snoc_Some; left;
             (split; [by eapply lookup_lt_Some|done]).
        -- exists (length seen), op. split_and!.
           ++ apply lookup_snoc_Some. by right.
           ++ apply lookup_snoc_Some. right. by rewrite Hlen.
           ++ by rewrite (occ_of_Ok _ _ _ Hop).
      * intros (p & op' & [[_ Hp]|[-> <-]]%lookup_snoc_Some & Hk & Hx).
        -- left. exists p, op'. split_and!; [done| |done].
           apply lookup_snoc_Some in Hk as [[_ Hk]|[Hk _]]; [done|].
           apply lookup_lt_Some in Hp. lia.
        -- right. by rewrite (occ_of_Ok _ _ _ Hop) in Hx.
    + rewrite (Hocc _ _ Ho'). split.
      * intros (p & op' & Hp & Hk & Hx).
        exists p, op'. split_and!; [| |done]; apply lookup_snoc_Some; left;
          (split; [by eapply lookup_lt_Some|done]).
      * intros (p & op' & [[_ Hp]|[-> <-]]%lookup_snoc_Some & Hk & Hx).
        -- exists p, op'. split_and!; [done| |done].
           apply lookup_snoc_Some in Hk as [[_ Hk]|[Hk _]]; [done|].
           apply lookup_lt_Some in Hp. lia.
        -- apply lookup_snoc_Some in Hk as [[Hk _]|[_ Hk]]; [lia|done].
Qed.

(** The search, read on the operators already placed. *)
Lemma find_layer_placed {depth : nat} (wire_map : gmap string nat) (st : State)
    (seen : list Operator) (pl : list nat) (op : Operator) (occ : gset nat) (r : nat) :
  Layered wire_map st seen pl →
  op_occupied_wires wire_map op = Ok occ →
  _recursive_find_layer depth (max_layer st) occ (occupied_wires_per_layer st) = Ok r →
  r ≤ max_layer st + 1
  ∧ (∀ p op_p kp, seen !! p = Some op_p → pl !! p = Some kp →
       conflict wire_map op_p op → kp < r)
  ∧ (r = 0 ∨ ∃ p op_p, seen !! p = Some op_p ∧ pl !! p = Some (r - 1)
                       ∧ conflict wire_map op_p op).
Proof.
  intros HL Hocc Hr.
  destruct (find_layer_Ok _ _ _ _ _ Hr) as (_ & Hle & Hfree & Hstop).
  rewrite <-(occ_of_Ok _ _ _ Hocc) in Hfree, Hstop.
  split_and!; [done| |].
  - intros p op_p kp Hp Hk Hc.
    destruct (decide (kp < r)) as [|Hge]; [done|]. exfalso.
    apply (Hfree kp).
    + pose proof (layered_bound _ _ _ _ HL _ _ Hk). lia.
    + eapply conflicts_at_iff; [done|]. by exists p, op_p.
  - destruct Hstop as [->|Hc]; [by left|]. right.
    by eapply conflicts_at_iff in Hc.
Qed.

(** An operator is never placed beyond the layer of its own position. *)
Lemma Asap_le_position (wire_map : gmap string nat) (ops : list Operator)
    (pl : list nat) :
  Asap wire_map ops pl → length pl = length ops →
  ∀ q k, pl !! q = Some k → k ≤ q.
Proof.
  intros HA Hlen q.
  induction q as [q IH] using lt_wf_ind. intros k Hk.
  destruct (lookup_lt_is_Some_2 ops q) as [op_q Hq].
  { rewrite <-Hlen. by eapply lookup_lt_Some. }
  destruct (asap_tight _ _ _ HA _ _ _ Hq Hk)
    as [->|(p & op_p & Hpq & Hp & Hkp & Hc)]; [lia|].
  pose proof (IH p Hpq _ Hkp). lia.
Qed.

(** The layers in use never outnumber the operators placed. *)
Lemma max_layer_le_seen (wire_map : gmap string nat) (st : State)
    (seen : list Operator) (pl : list nat) :
  Layered wire_map st seen pl → Asap wire_map seen pl → Dense st pl →
  max_layer st ≤ length seen.
Proof.
  intros HL HA HD.
  destruct (decide (max_layer st = 0)) as [->|Hpos]; [lia|].
  destruct (HD (max_layer st)) as [p Hp]; [lia|].
  pose proof (Asap_le_position _ _ _ HA (layered_len_pl _ _ _ _ HL) _ _ Hp).
  apply lookup_lt_Some in Hp. rewrite (layered_len_pl _ _ _ _ HL) in Hp. lia.
Qed.

(** One iteration, once its search has returned [r]. *)
Lemma loop_body_place {depth : nat} (wire_map : gmap string nat) (st : State)
    (seen : list Operator) (pl : list nat) (op : Operator) (occ : gset nat) (r : nat) :
  Layered wire_map st seen pl → Asap wire_map seen pl → Dense st pl →
  op_occupied_wires wire_map op = Ok occ →
  _recursive_find_layer depth (max_layer st) occ (occupied_wires_per_layer st) = Ok r →
  ∃ st', find_op_layer depth wire_map st op = Ok (occ, r)
       ∧ loop_body depth wire_map st op = Ok st'
       ∧ Layered wire_map st' (seen ++ [op]) (pl ++ [r])
       ∧ Asap wire_map (seen ++ [op]) (pl ++ [r])
       ∧ Dense st' (pl ++ [r]).
Proof.
  intros HL HA HD Hocc Hr.
  destruct (find_layer_placed _ _ _ _ _ _ _ HL Hocc Hr) as (Hle & Hafter & Htight).
  pose proof (grow_Layered _ _ _ _ r HL) as HL1.
  assert (r ≤ max_layer (add_layer_if_needed st r)) as Hle1.
  { unfold add_layer_if_needed. case_decide; simpl; lia. }
  destruct (add_to_layer_Layered _ _ _ _ _ _ _ HL1 Hle1 Hocc) as (st' & Hst' & Hmax & HL').
  exists st'. unfold find_op_layer, loop_body, find_op_layer.
  rewrite Hocc. simpl. rewrite Hr. simpl.
  split_and!; [done..| |].
  - pose proof (layered_len_pl _ _ _ _ HL) as Hlen.
    destruct HA as [HAafter HAtight]. split.
    + intros p q op_p op_q kp kq Hpq Hp Hq Hkp Hkq Hc.
      apply lookup_snoc_Some in Hq as [[Hqlt Hq]|[-> <-]].
      * apply lookup_snoc_Some in Hkq as [[_ Hkq]|[? _]]; [|lia].
        rewrite lookup_app_l in Hp by lia.
        rewrite lookup_app_l in Hkp by lia.
        by eapply (HAafter p q).
      * apply lookup_snoc_Some in Hkq as [[? _]|[_ <-]]; [lia|].
        rewrite lookup_app_l in Hp by lia.
        rewrite lookup_app_l in Hkp by lia.
        by eapply Hafter.
    + intros q op_q kq Hq Hkq.
      apply lookup_snoc_Some in Hq as [[Hqlt Hq]|[-> <-]].
      * apply lookup_snoc_Some in Hkq as [[_ Hkq]|[? _]]; [|lia].
        destruct (HAtight q op_q kq Hq Hkq) as [->|(p & op_p & Hpq & Hp & Hkp & Hc)];
          [by left|right].
        exists p, op_p. split_and!; [done| | |done].
        -- rewrite lookup_app_l by lia. done.
        -- rewrite lookup_app_l by lia. done.
      * apply lookup_snoc_Some in Hkq as [[? _]|[_ <-]]; [lia|].
        destruct Htight as [->|(p & op_p & Hp & Hkp & Hc)]; [by left|right].
        pose proof (lookup_lt_Some _ _ _ Hp).
        exists p, op_p. split_and!; [done| | |done].
        -- rewrite lookup_app_l by lia. done.
        -- rewrite lookup_app_l by lia. done.
  - intros k Hk. rewrite Hmax in Hk. unfold add_layer_if_needed in Hk.
    case_decide as Hgrow; simpl in Hk.
    + destruct (decide (k ≤ max_layer st)) as [Hold|Hnew].
      * destruct (HD k) as [p Hp]; [lia|]. exists p.
        apply lookup_snoc_Some. left. split; [by eapply lookup_lt_Some|done].
      * exists (length pl). apply lookup_snoc_Some. right. split; [done|lia].
    + destruct (HD k) as [p Hp]; [lia|]. exists p.
      apply lookup_snoc_Some. left. split; [by eapply lookup_lt_Some|done].
Qed.

(** One iteration that returns keeps the invariant. *)
Lemma loop_body_step {depth : nat} (wire_map : gmap string nat) (st st' : State)
    (seen : list Operator) (pl : list nat) (op : Operator) :
  Layered wire_map st seen pl → Asap wire_map seen pl → Dense st pl →
  loop_body depth wire_map st op = Ok st' →
  ∃ occ k, op_occupied_wires wire_map op = Ok occ
         ∧ _recursive_find_layer depth (max_layer st) occ
             (occupied_wires_per_layer st) = Ok k
         ∧ find_op_layer depth wire_map st op = Ok (occ, k)
         ∧ Layered wire_map st' (seen ++ [op]) (pl ++ [k])
         ∧ Asap wire_map (seen ++ [op]) (pl ++ [k])
         ∧ Dense st' (pl ++ [k]).
Proof.
  intros HL HA HD Hbody.
  pose proof Hbody as Hbody0. unfold loop_body in Hbody0.
  apply bind_Ok in Hbody0 as ([occ k] & Hfind & _).
  unfold find_op_layer in Hfind.
  apply bind_Ok in Hfind as (occ' & Hocc & (k' & Hk & [= <- <-])%bind_Ok).
  destruct (loop_body_place _ _ _ _ _ _ _ HL HA HD Hocc Hk)
    as (st1 & Hfind & Hbody1 & HL1 & HA1 & HD1).
  assert (st1 = st') as -> by congruence.
  by exists occ', k'.
Qed.

(** One iteration returns when its operator is covered and the search is
    allowed one call per layer in use. *)
Lemma loop_body_enough {depth : nat} (wire_map : gmap string nat) (st : State)
    (seen : list Operator) (pl : list nat) (op : Operator) :
  Layered wire_map st seen pl → Asap wire_map seen pl → Dense st pl →
  covered wire_map op → max_layer st < depth →
  ∃ st', loop_body depth wire_map st op = Ok st'.
Proof.
  intros HL HA HD [occ Hocc]%op_occupied_wires_covered Hdepth.
  destruct (find_layer_enough depth occ (occupied_wires_per_layer st) (max_layer st))
    as [r Hr]; [rewrite (layered_len_occ _ _ _ _ HL); lia|done|].
  destruct (loop_body_place _ _ _ _ _ _ _ HL HA HD Hocc Hr) as (st' & _ & Hbody & _).
  by exists st'.
Qed.

(** The body raises what the computation of the occupied wires raises, or
    else [RecursionError] from a search that is allowed fewer calls than
    there are layers. *)
Lemma loop_body_Raise {depth : nat} (wire_map : gmap string nat) (st : State)
    (seen : list Operator) (pl : list nat) (op : Operator) (e : PyError) :
  Layered wire_map st seen pl → Asap wire_map seen pl → Dense st pl →
  loop_body depth wire_map st op = Raise e →
  op_occupied_wires wire_map op = Raise e
  ∨ (e = RecursionError ∧ covered wire_map op ∧ depth ≤ max_layer st).
Proof.
  intros HL HA HD Hbody.
  destruct (op_occupied_wires wire_map op) as [occ|e'] eqn:Hocc.
  - right.
    destruct (_recursive_find_layer depth (max_layer st) occ
                (occupied_wires_per_layer st)) as [r|e'] eqn:Hr.
    + destruct (loop_body_place _ _ _ _ _ _ _ HL HA HD Hocc Hr) as (st' & _ & Hst' & _).
      congruence.
    + unfold loop_body, find_op_layer in Hbody. rewrite Hocc in Hbody.
      simpl in Hbody. rewrite Hr in Hbody. simpl in Hbody. injection Hbody as <-.
      apply find_layer_Raise in Hr as [-> Hd];
        [|rewrite (layered_len_occ _ _ _ _ HL); lia].
      split_and!; [done| |done].
      apply op_occupied_wires_covered. by eexists.
  - left. unfold loop_body, find_op_layer in Hbody. rewrite Hocc in Hbody.
    simpl in Hbody. congruence.
Qed.

(** ** The whole loop *)

(** A run of the loop that returns keeps the invariant. *)
Lemma loop_run {depth : nat} (wire_map : gmap string nat) (ops : list Operator) :
  ∀ (st st' : State) (seen : list Operator) (pl : list nat),
  Layered wire_map st seen pl → Asap wire_map seen pl → Dense st pl →
  foldM (loop_body depth wire_map) st ops = Ok st' →
  ∃ ks, op_layers_from depth wire_map st ops = Ok ks
      ∧ Layered wire_map st' (seen ++ ops) (pl ++ ks)
      ∧ Asap wire_map (seen ++ ops) (pl ++ ks)
      ∧ Dense st' (pl ++ ks).
Proof.
  induction ops as [|op ops IH]; intros st st' seen pl HL HA HD; simpl.
  - intros [= <-]. exists []. rewrite !app_nil_r. by split_and!.
  - intros (st1 & Hbody & Hrun)%bind_Ok.
    destruct (loop_body_step _ _ _ _ _ _ HL HA HD Hbody)
      as (occ & k & _ & _ & Hfind & HL1 & HA1 & HD1).
    destruct (IH _ _ _ _ HL1 HA1 HD1 Hrun) as (ks & Htrace & HL' & HA' & HD').
    exists (k :: ks). rewrite Hfind, Hbody. simpl. rewrite Htrace.
    rewrite !(cons_middle _ _ ops), !(cons_middle _ _ ks), !app_assoc.
    by split_and!.
Qed.

(** The loop returns on covered operators when the search is allowed as many
    calls as there are operators. *)
Lemma loop_enough {depth : nat} (wire_map : gmap string nat) (ops : list Operator) :
  ∀ (st : State) (seen : list Operator) (pl : list nat),
  Layered wire_map st seen pl → Asap wire_map seen pl → Dense st pl →
  Forall (covered wire_map) ops → length seen + length ops ≤ depth →
  ∃ st', foldM (loop_body depth wire_map) st ops = Ok st'.
Proof.
  induction ops as [|op ops IH]; intros st seen pl HL HA HD Hcov Hdepth; simpl.
  - by exists st.
  - apply Forall_cons in Hcov as [Hop Hcov]. simpl in Hdepth.
    pose proof (max_layer_le_seen _ _ _ _ HL HA HD) as Hmax.
    destruct (loop_body_enough (depth:=depth) _ _ _ _ _ HL HA HD Hop) as [st1 Hbody]; [lia|].
    destruct (loop_body_step _ _ _ _ _ _ HL HA HD Hbody)
      as (occ & k & _ & _ & _ & HL1 & HA1 & HD1).
    destruct (IH _ _ _ HL1 HA1 HD1 Hcov) as [st' Hrun].
    { rewrite length_app. simpl. lia. }
    exists st'. by rewrite Hbody.
Qed.

(** The loop raises at the first operator that is not covered, what the
    computation of its occupied wires raises; or, at a covered operator,
    [RecursionError] from a search allowed fewer calls than there are
    layers. *)
Lemma loop_Raise {depth : nat} (wire_map : gmap string nat) (ops : list Operator)
    (e : PyError) :
  ∀ (st : State) (seen : list Operator) (pl : list nat),
  Layered wire_map st seen pl → Asap wire_map seen pl → Dense st pl →
  foldM (loop_body depth wire_map) st ops = Raise e →
  ∃ n op, ops !! n = Some op
        ∧ Forall (covered wire_map) (take n ops)
        ∧ (op_occupied_wires wire_map op = Raise e
           ∨ (e = RecursionError ∧ covered wire_map op
              ∧ depth ≤ length seen + n)).
Proof.
  induction ops as [|op ops IH]; intros st seen pl HL HA HD; simpl; [done|].
  intros [Hbody|(st1 & Hbody & Hrest)]%bind_Raise.
  - exists 0, op. split_and!; [done|constructor|].
    destruct (loop_body_Raise _ _ _ _ _ _ HL HA HD Hbody) as [?|(-> & Hcov & Hd)];
      [by left|right].
    pose proof (max_layer_le_seen _ _ _ _ HL HA HD). split_and!; [done..|lia].
  - destruct (loop_body_step _ _ _ _ _ _ HL HA HD Hbody)
      as (occ & k & Hocc & _ & _ & HL1 & HA1 & HD1).
    destruct (IH _ _ _ HL1 HA1 HD1 Hrest) as (n & op' & Hn & Hbefore & Hop').
    exists (S n), op'. split_and!; [done| |].
    + simpl. constructor; [|done].
      apply op_occupied_wires_covered. by eexists.
    + destruct Hop' as [?|(-> & Hcov & Hd)]; [by left|right].
      rewrite length_app in Hd. simpl in Hd. split_and!; [done..|lia].
Qed.

Lemma loop_Ok_covered {depth : nat} (wire_map : gmap string nat) (ops : list Operator) (st st' : State) :
  foldM (loop_body depth wire_map) st ops = Ok st' → Forall (covered wire_map) ops.
Proof.
  revert st. induction ops as [|op ops IH]; intros st; simpl; [by constructor|].
  intros (st1 & Hbody & Hrest)%bind_Ok. constructor; [|by eapply IH].
  unfold loop_body in Hbody.
  apply bind_Ok in Hbody as ([occ k] & Hfind & _).
  unfold find_op_layer in Hfind. apply bind_Ok in Hfind as (occ' & Hocc & _).
  apply op_occupied_wires_covered. by eexists.
Qed.

Lemma drawable_layers_Ok_covered {depth : nat} (wire_map : gmap string nat) (ops : list Operator)
    (layers : list (gset Operator)) :
  drawable_layers depth ops wire_map = Ok layers → Forall (covered wire_map) ops.
Proof.
  unfold drawable_layers. intros (st & Hrun & _)%bind_Ok.
  by eapply loop_Ok_covered.
Qed.

(** What [drawable_layers] returns, when it returns. *)
Lemma drawable_layers_Ok {depth : nat} (wire_map : gmap string nat) (ops : list Operator)
    (layers : list (gset Operator)) :
  drawable_layers depth ops wire_map = Ok layers →
  ∃ pl, op_layers depth ops wire_map = Ok pl ∧ Placement wire_map ops layers pl.
Proof.
  intros Hrun. pose proof (drawable_layers_Ok_covered _ _ _ Hrun) as Hcov.
  unfold drawable_layers in Hrun. apply bind_Ok in Hrun as (st & Hrun & [= <-]).
  destruct (loop_run wire_map ops init_state st [] []
              (Layered_init _) (Asap_init _) Dense_init Hrun)
    as (pl & Htrace & HL & HA & HD).
  simpl in HL, HA, HD.
  exists pl. split; [done|].
  destruct HL as [Hlen Hlocc Hlops Hcovd Hbound Hops Hocc].
  split; try done.
  - lia.
  - intros p k Hk%Hbound. lia.
  - intros k Hk. apply HD. lia.
Qed.

(** [drawable_layers] returns on covered operators when the search is allowed
    as many calls as there are operators. *)
Lemma drawable_layers_enough {depth : nat} (wire_map : gmap string nat)
    (ops : list Operator) :
  Forall (covered wire_map) ops → length ops ≤ depth →
  ∃ layers, drawable_layers depth ops wire_map = Ok layers.
Proof.
  intros Hcov Hdepth.
  destruct (loop_enough (depth:=depth) wire_map ops init_state [] []
              (Layered_init _) (Asap_init _) Dense_init Hcov) as [st Hrun];
    [simpl; lia|].
  exists (ops_in_layer st). unfold drawable_layers. by rewrite Hrun.
Qed.

(** On covered operators, with as many calls of the search allowed as there
    are operators, [drawable_layers] returns layers that place the operators
    as the trace says. *)
Lemma drawable_layers_covered {depth : nat} (wire_map : gmap string nat)
    (ops : list Operator) :
  Forall (covered wire_map) ops → length ops ≤ depth →
  ∃ layers pl, drawable_layers depth ops wire_map = Ok layers
             ∧ op_layers depth ops wire_map = Ok pl
             ∧ Placement wire_map ops layers pl.
Proof.
  intros Hcov Hdepth.
  destruct (drawable_layers_enough _ _ Hcov Hdepth) as [layers Hrun].
  destruct (drawable_layers_Ok _ _ _ Hrun) as (pl & Htrace & HP).
  by exists layers, pl.
Qed.

Lemma drawable_layers_Raise {depth : nat} (wire_map : gmap string nat) (ops : list Operator)
    (e : PyError) :
  drawable_layers depth ops wire_map = Raise e →
  ∃ n op, ops !! n = Some op
        ∧ Forall (covered wire_map) (take n ops)
        ∧ (op_occupied_wires wire_map op = Raise e
           ∨ (e = RecursionError ∧ covered wire_map op ∧ depth ≤ n)).
Proof.
  unfold drawable_layers. intros [Hrun|(st & _ & ?)]%bind_Raise; [|done].
  by eapply (loop_Raise _ _ _ init_state [] []);
    [apply Layered_init|apply Asap_init|apply Dense_init|].
Qed.

Lemma op_layers_from_app {depth : nat} (wire_map : gmap string nat) (l1 l2 : list Operator) :
  ∀ (st st1 : State) (ks1 ks2 : list nat),
  foldM (loop_body depth wire_map) st l1 = Ok st1 →
  op_layers_from depth wire_map st l1 = Ok ks1 →
  op_layers_from depth wire_map st1 l2 = Ok ks2 →
  op_layers_from depth wire_map st (l1 ++ l2) = Ok (ks1 ++ ks2).
Proof.
  induction l1 as [|op l1 IH]; intros st st1 ks1 ks2; simpl.
  - by intros [= <-] [= <-].
  - intros (st0 & Hbody & Hrun)%bind_Ok.
    intros ([occ k] & Hfind & Hrest)%bind_Ok.
    rewrite Hfind. simpl. rewrite Hbody in Hrest |- *. simpl in Hrest |- *.
    apply bind_Ok in Hrest as (ks & Hks & [= <-]).
    intros Hl2. by rewrite (IH _ _ _ _ Hrun Hks Hl2).
Qed.

(** The state in which the operator at position [n] is processed, and the
    layer the search gives it there. *)
Lemma loop_at_position {depth : nat} (wire_map : gmap string nat) (ops : list Operator)
    (layers : list (gset Operator)) (n : nat) (op : Operator) :
  drawable_layers depth ops wire_map = Ok layers →
  ops !! n = Some op →
  ∃ st pl occ k,
    foldM (loop_body depth wire_map) init_state (take n ops) = Ok st
    ∧ op_layers depth ops wire_map = Ok pl
    ∧ Placement wire_map ops layers pl
    ∧ Layered wire_map st (take n ops) (take n pl)
    ∧ Dense st (take n pl)
    ∧ op_occupied_wires wire_map op = Ok occ
    ∧ _recursive_find_layer depth (max_layer st) occ (occupied_wires_per_layer st) = Ok k
    ∧ pl !! n = Some k.
Proof.
  intros Hrun Hn.
  destruct (drawable_layers_Ok _ _ _ Hrun) as (pl & Htrace & HP).
  pose proof Hrun as Hfold. unfold drawable_layers in Hfold.
  apply bind_Ok in Hfold as (st' & Hfold & _).
  rewrite <-(take_drop n ops), (drop_S _ _ _ Hn), foldM_app in Hfold.
  apply bind_Ok in Hfold as (st & Hrun1 & Hrest). simpl in Hrest.
  apply bind_Ok in Hrest as (st1 & Hbody & Hrun2).
  destruct (loop_run wire_map (take n ops) init_state st [] []
              (Layered_init _) (Asap_init _) Dense_init Hrun1)
    as (ks1 & Htrace1 & HL & HA & HD).
  simpl in HL, HA, HD.
  destruct (loop_body_step _ _ _ _ _ _ HL HA HD Hbody)
    as (occ & k & Hocc & Hk & Hfind & HL1 & HA1 & HD1).
  destruct (loop_run wire_map (drop (S n) ops) st1 st' _ _ HL1 HA1 HD1 Hrun2)
    as (ks2 & Htrace2 & _).

  assert (op_layers_from depth wire_map st (op :: drop (S n) ops) = Ok (k :: ks2)) as Htail.
  { simpl. rewrite Hfind, Hbody. simpl. by rewrite Htrace2. }
  pose proof (op_layers_from_app _ _ _ _ _ _ _ Hrun1 Htrace1 Htail) as Hall.
  rewrite <-(drop_S _ _ _ Hn), take_drop in Hall.
  unfold op_layers in Htrace. rewrite Htrace in Hall. injection Hall as ->.
  pose proof (layered_len_pl _ _ _ _ HL) as Hlen.
  rewrite length_take_le in Hlen by (apply lookup_lt_Some in Hn; lia).
  exists st, (ks1 ++ k :: ks2), occ, k.
  rewrite take_app_length' by done. split_and!; try done.
  by rewrite list_lookup_middle.
Qed.

(** With pairwise distinct operators, an operator is in one layer only. *)
Lemma placement_unique (wire_map : gmap string nat) (ops : list Operator)
    (layers : list (gset Operator)) (pl : list nat)
    (p k k' : nat) (op : Operator) (s : gset Operator) :
  Placement wire_map ops layers pl → NoDup ops →
  ops !! p = Some op → pl !! p = Some k →
  layers !! k' = Some s → op ∈ s → k' = k.
Proof.
  intros HP Hnodup Hp Hk Hs Hin.
  apply (placement_members _ _ _ _ HP _ _ Hs) in Hin as (p' & Hp' & Hk').
  assert (p' = p) as -> by (by eapply NoDup_lookup).
  congruence.
Qed.

Lemma placement_member (wire_map : gmap string nat) (ops : list Operator)
    (layers : list (gset Operator)) (pl : list nat) (p : nat) (op : Operator) :
  Placement wire_map ops layers pl →
  ops !! p = Some op →
  ∃ k s, pl !! p = Some k ∧ layers !! k = Some s ∧ op ∈ s.
Proof.
  intros HP Hp.
  destruct (lookup_lt_is_Some_2 pl p) as [k Hk].
  { rewrite (placement_len _ _ _ _ HP). by eapply lookup_lt_Some. }
  destruct (lookup_lt_is_Some_2 layers k) as [s Hs].
  { by eapply placement_bound. }
  exists k, s. split_and!; [done..|].
  apply (placement_members _ _ _ _ HP _ _ Hs). by exists p.
Qed.

Lemma not_conflict_disjoint (wire_map : gmap string nat) (a b : Operator) :
  ¬ conflict wire_map a b ↔ occ_of wire_map a ## occ_of wire_map b.
Proof.
  unfold conflict. rewrite disjoint_intersection_L.
  destruct (decide (occ_of wire_map a ∩ occ_of wire_map b = ∅)); naive_solver.
Qed.

(** ** Properties of the layer assignment *)

(** C10.  On an empty operation sequence [drawable_layers] returns exactly
    one layer, the empty set, whatever the wire map; and every list of
    layers it returns has at least one layer. *)
Theorem drawable_layers_empty_ops (depth : nat) :
  (∀ wire_map : gmap string nat, drawable_layers depth [] wire_map = Ok [∅]) ∧
  (∀ (ops : list Operator) (wire_map : gmap string nat) (layers : list (gset Operator)),
     drawable_layers depth ops wire_map = Ok layers → 1 ≤ length layers).
Proof.
  split; [done|].
  intros ops wire_map layers Hrun.
  destruct (drawable_layers_Ok _ _ _ Hrun) as (pl & _ & HP).
  by eapply placement_nonempty.
Qed.

Lemma drawable_layers_empty_ops_witness :
  drawable_layers 1000 [] wm2 = Ok [∅] ∧
  1 ≤ length [ ({[Op "A" ["a"]]} : gset Operator); {[Op "B" ["a"]]} ].
Proof.
  split.
  - apply (proj1 (drawable_layers_empty_ops 1000) wm2).
  - apply (proj2 (drawable_layers_empty_ops 1000) [Op "A" ["a"]; Op "B" ["a"]] wm2).
    compute_done.
Defined.

(** What the code computes as [op_occupied_wires] is the OccupiedSet of the
    specification. *)
Lemma op_occupied_wires_is_OccupiedSet (wire_map : gmap string nat) (op : Operator)
    (occ : gset nat) :
  op_occupied_wires wire_map op = Ok occ → is_OccupiedSet wire_map op occ.
Proof.
  intros [mapped Hw]%op_occupied_wires_Ok. unfold is_OccupiedSet.
  case_decide as Hwires.
  - rewrite wires_of_op_broadcast in Hw by done. injection Hw as _ <-.
    intros x. apply elem_of_map_img.
  - destruct (wires_of_op_span _ _ _ _ Hwires Hw)
      as (Hmapped & lo & hi & Hlo & Hhi & Hbounds & Hocc).
    exists lo, hi. split_and!; [by apply Hmapped..| |done].
    intros w i Hin Hlk. apply Hbounds, Hmapped. by exists w.
Qed.

(** C1.  In each layer of the list that [drawable_layers] returns, any two
    distinct member operations have disjoint sets of occupied wires; the set
    of occupied wires the code computes ([op_occupied_wires]) is the
    OccupiedSet of the specification ([is_OccupiedSet]): the span from the
    least to the greatest mapped index for an operation with wires, all
    indices of the wire map for an operation without wires.  This holds for
    every number [depth] of nested calls the search is allowed. *)
Theorem layers_non_overlapping (depth : nat) (ops : list Operator)
    (wire_map : gmap string nat) (layers : list (gset Operator)) :
  drawable_layers depth ops wire_map = Ok layers →
  ∀ k layer a b, layers !! k = Some layer → a ∈ layer → b ∈ layer → a ≠ b →
    ∃ occ_a occ_b, op_occupied_wires wire_map a = Ok occ_a
                 ∧ op_occupied_wires wire_map b = Ok occ_b
                 ∧ is_OccupiedSet wire_map a occ_a
                 ∧ is_OccupiedSet wire_map b occ_b
                 ∧ occ_a ## occ_b.
Proof.
  intros Hrun.
  pose proof (drawable_layers_Ok_covered _ _ _ Hrun) as Hcov.
  destruct (drawable_layers_Ok _ _ _ Hrun) as (pl & _ & HP).
  intros k layer a b Hk Ha Hb Hab.
  apply (placement_members _ _ _ _ HP _ _ Hk) in Ha as (p & Hp & Hkp).
  apply (placement_members _ _ _ _ HP _ _ Hk) in Hb as (q & Hq & Hkq).
  rewrite Forall_forall in Hcov.
  destruct (proj1 (op_occupied_wires_covered wire_map a)) as [occ_a Hocc_a].
  { apply Hcov. by eapply list_elem_of_lookup_2. }
  destruct (proj1 (op_occupied_wires_covered wire_map b)) as [occ_b Hocc_b].
  { apply Hcov. by eapply list_elem_of_lookup_2. }
  exists occ_a, occ_b.
  split_and!; [done|done|by apply op_occupied_wires_is_OccupiedSet..|].
  rewrite <-(occ_of_Ok _ _ _ Hocc_a), <-(occ_of_Ok _ _ _ Hocc_b).
  apply not_conflict_disjoint. intros Hc.
  destruct (placement_asap _ _ _ _ HP) as [Hafter _].
  destruct (Nat.lt_total p q) as [Hlt|[->|Hlt]].
  - pose proof (Hafter _ _ _ _ _ _ Hlt Hp Hq Hkp Hkq Hc). lia.
  - congruence.
  - apply conflict_sym in Hc.
    pose proof (Hafter _ _ _ _ _ _ Hlt Hq Hp Hkq Hkp Hc). lia.
Qed.

Lemma layers_non_overlapping_witness :
  drawable_layers 1000 [opA; opC; opB] wm2 = Ok [ {[opA; opC]}; {[opB]} ] ∧
  ∀ k layer a b, [ ({[opA; opC]} : gset Operator); {[opB]} ] !! k = Some layer →
    a ∈ layer → b ∈ layer → a ≠ b →
    ∃ occ_a occ_b, op_occupied_wires wm2 a = Ok occ_a
                 ∧ op_occupied_wires wm2 b = Ok occ_b
                 ∧ is_OccupiedSet wm2 a occ_a
                 ∧ is_OccupiedSet wm2 b occ_b
                 ∧ occ_a ## occ_b.
Proof.
  split; [compute_done|].
  apply (layers_non_overlapping 1000 [opA; opC; opB] wm2). compute_done.
Defined.

(** One iteration changes the list of layers only by appending one empty
    layer, and that exactly when the layer found exceeds [max_layer]; every
    layer already present keeps its index and its members. *)
Lemma loop_body_appends {depth : nat} (wire_map : gmap string nat) (st st' : State) (op : Operator) :
  loop_body depth wire_map st op = Ok st' →
  ∃ occ op_layer,
    find_op_layer depth wire_map st op = Ok (occ, op_layer)
    ∧ length (ops_in_layer st') =
        (if decide (max_layer st < op_layer) then length (ops_in_layer st) + 1
         else length (ops_in_layer st))
    ∧ max_layer st' =
        (if decide (max_layer st < op_layer) then max_layer st + 1 else max_layer st)
    ∧ ∀ j s, ops_in_layer st !! j = Some s →
        ∃ s', ops_in_layer st' !! j = Some s' ∧ s ⊆ s'.
Proof.
  unfold loop_body. intros ([occ k] & Hfind & Hadd)%bind_Ok.
  exists occ, k. split; [done|].
  unfold add_to_layer in Hadd.
  destruct (ops_in_layer (add_layer_if_needed st k) !! k) as [layer_ops|] eqn:Hl; [|done].
  destruct (occupied_wires_per_layer (add_layer_if_needed st k) !! k)
    as [occupied|] eqn:Ho; [|done].
  injection Hadd as <-. simpl. rewrite length_insert.
  unfold add_layer_if_needed in *. case_decide as Hgrow; simpl in *.
  - split_and!; [by rewrite length_app|done|].
    intros j s Hj.
    destruct (decide (j = k)) as [->|Hne].
    + rewrite lookup_app_l in Hl by (by eapply lookup_lt_Some).
      exists (layer_ops ∪ {[op]}). split; [|set_solver].
      apply list_lookup_insert_eq. rewrite length_app.
      apply lookup_lt_Some in Hj. lia.
    + exists s. split; [|done].
      rewrite list_lookup_insert_ne by done.
      rewrite lookup_app_l by (by eapply lookup_lt_Some). done.
  - split_and!; [done..|].
    intros j s Hj.
    destruct (decide (j = k)) as [->|Hne].
    + exists (layer_ops ∪ {[op]}). split; [|set_solver].
      apply list_lookup_insert_eq. by eapply lookup_lt_Some.
    + exists s. split; [|done]. by rewrite list_lookup_insert_ne.
Qed.

(** C7.  In the layers returned by [drawable_layers] no empty layer lies
    between two non-empty layers; and one loop iteration appends one layer,
    at the end, exactly when the layer found for the operation exceeds the
    current [max_layer], and otherwise leaves the number of layers unchanged;
    layers already present keep their index and members. *)
Theorem layers_dense (depth : nat) :
  (∀ (ops : list Operator) (wire_map : gmap string nat) layers i j k si sj sk,
     drawable_layers depth ops wire_map = Ok layers →
     i < j < k →
     layers !! i = Some si → layers !! j = Some sj → layers !! k = Some sk →
     si ≠ ∅ → sk ≠ ∅ → sj ≠ ∅) ∧
  (∀ (wire_map : gmap string nat) (st st' : State) (op : Operator),
     loop_body depth wire_map st op = Ok st' →
     ∃ occ op_layer,
       find_op_layer depth wire_map st op = Ok (occ, op_layer)
       ∧ length (ops_in_layer st') =
           (if decide (max_layer st < op_layer) then length (ops_in_layer st) + 1
            else length (ops_in_layer st))
       ∧ max_layer st' =
           (if decide (max_layer st < op_layer) then max_layer st + 1
            else max_layer st)
       ∧ ∀ j s, ops_in_layer st !! j = Some s →
           ∃ s', ops_in_layer st' !! j = Some s' ∧ s ⊆ s').
Proof.
  split; [|apply loop_body_appends].
  intros ops wire_map layers i j k si sj sk Hrun Hijk Hi Hj Hk _ _.
  destruct (drawable_layers_Ok _ _ _ Hrun) as (pl & _ & HP).
  destruct (placement_dense _ _ _ _ HP j) as [p Hp].
  { apply lookup_lt_Some in Hj. lia. }
  destruct (lookup_lt_is_Some_2 ops p) as [op Hop].
  { rewrite <-(placement_len _ _ _ _ HP). by eapply lookup_lt_Some. }
  apply (non_empty_inhabited_L op).
  apply (placement_members _ _ _ _ HP _ _ Hj). by exists p.
Qed.

Lemma layers_dense_witness :
  ({[opB]} : gset Operator) ≠ ∅ ∧
  ∃ occ op_layer,
    find_op_layer 1000 wm2 init_state opA = Ok (occ, op_layer)
    ∧ length [ ({[opA]} : gset Operator) ] =
        (if decide (max_layer init_state < op_layer)
         then length (ops_in_layer init_state) + 1
         else length (ops_in_layer init_state))
    ∧ 0 =
        (if decide (max_layer init_state < op_layer) then max_layer init_state + 1
         else max_layer init_state)
    ∧ ∀ j s, ops_in_layer init_state !! j = Some s →
        ∃ s', [ ({[opA]} : gset Operator) ] !! j = Some s' ∧ s ⊆ s'.
Proof.
  split.
  - apply (proj1 (layers_dense 1000) [opA; opB; opD] wm2
             [ {[opA]}; {[opB]}; {[opD]} ] 0 1 2 {[opA]} {[opB]} {[opD]});
      [compute_done|lia|done..|compute_done|compute_done].
  - apply (proj2 (layers_dense 1000) wm2 init_state
             {| max_layer := 0; occupied_wires_per_layer := [ {[0]} ];
                ops_in_layer := [ {[opA]} ] |} opA).
    compute_done.
Defined.

(** The mapped wires of an operator are among its occupied wires. *)
Lemma mapped_subseteq_occupied (wire_map : gmap string nat) (op : Operator)
    (mapped occ : gset nat) :
  wires_of_op wire_map op = Ok (mapped, occ) → mapped ⊆ occ.
Proof.
  intros Hw. destruct (decide (wires op = [])) as [Hnil|Hne].
  - rewrite wires_of_op_broadcast in Hw by done. by simplify_eq.
  - destruct (wires_of_op_span _ _ _ _ Hne Hw) as (_ & lo & hi & _ & _ & Hb & Hocc).
    intros x Hx. apply Hocc. by apply Hb.
Qed.



(** C4, as stated, fails on [A(a); B(a); C(b)]: [B] and [C] are adjacent and
    on different wires, but [B] is pushed to layer 1 by [A] while [C] falls
    back to layer 0. *)
Lemma leftmost_packing_counterexample :
  drawable_layers 1000 [opA; opB; opC] wm2 = Ok [ {[opA; opC]}; {[opB]} ] ∧
  op_layers 1000 [opA; opB; opC] wm2 = Ok [0; 1; 0] ∧
  ¬ leftmost_packing_as_stated 1000 [opA; opB; opC] wm2 1 2.
Proof.
  split_and!; [compute_done..|].
  intros Hclaim.
  destruct (Hclaim [ {[opA; opC]}; {[opB]} ] opB opC) as (k & layer & Hk & HB & HC).
  - compute_done.
  - lia.
  - done.
  - done.
  - compute_done.
  - intros m Z ?. lia.
  - destruct k as [|[|k]]; simplify_eq/=.
    + revert HB. compute_done.
    + revert HC. compute_done.
Qed.

(** C4, amended.  Two operations neither of which conflicts with an
    operation before it in the input (so that, at different positions, their
    occupied wires are disjoint) are both placed in layer 0, the earliest
    layer.  In general the layers found obey [Asap]: an operation lies after
    every earlier operation it conflicts with, and it is in layer 0 or the
    layer just before it holds an earlier operation it conflicts with. *)
Theorem leftmost_packing (depth : nat) (ops : list Operator) (wire_map : gmap string nat)
    (layers : list (gset Operator)) (p q : nat) (X Y : Operator) :
  drawable_layers depth ops wire_map = Ok layers →
  ops !! p = Some X → ops !! q = Some Y →
  (∀ m Z, m < p → ops !! m = Some Z → ¬ conflict wire_map Z X) →
  (∀ m Z, m < q → ops !! m = Some Z → ¬ conflict wire_map Z Y) →
  ∃ pl layer,
    op_layers depth ops wire_map = Ok pl
    ∧ pl !! p = Some 0 ∧ pl !! q = Some 0
    ∧ layers !! 0 = Some layer ∧ X ∈ layer ∧ Y ∈ layer
    ∧ Asap wire_map ops pl.
Proof.
  intros Hrun Hp Hq HfreeX HfreeY.
  destruct (drawable_layers_Ok _ _ _ Hrun) as (pl & Htrace & HP).
  pose proof (placement_asap _ _ _ _ HP) as HA.
  destruct (placement_member _ _ _ _ _ _ HP Hp) as (kX & layer_X & HkX & HlX & HinX).
  destruct (placement_member _ _ _ _ _ _ HP Hq) as (kY & layer_Y & HkY & HlY & HinY).
  assert (kX = 0) as ->.
  { destruct (asap_tight _ _ _ HA _ _ _ Hp HkX) as [?|(m & Z & Hm & HZ & _ & Hc)]; [done|].
    by destruct (HfreeX m Z Hm HZ). }
  assert (kY = 0) as ->.
  { destruct (asap_tight _ _ _ HA _ _ _ Hq HkY) as [?|(m & Z & Hm & HZ & _ & Hc)]; [done|].
    by destruct (HfreeY m Z Hm HZ). }
  exists pl, layer_X. assert (layer_Y = layer_X) as -> by congruence.
  by split_and!.
Qed.

Lemma leftmost_packing_witness :
  ∃ pl layer,
    op_layers 1000 [opA; opB; opC] wm2 = Ok pl
    ∧ pl !! 0 = Some 0 ∧ pl !! 2 = Some 0
    ∧ [ ({[opA; opC]} : gset Operator); {[opB]} ] !! 0 = Some layer
    ∧ opA ∈ layer ∧ opC ∈ layer
    ∧ Asap wm2 [opA; opB; opC] pl.
Proof.
  apply (leftmost_packing 1000 [opA; opB; opC] wm2 _ 0 2 opA opC).
  - compute_done.
  - done.
  - done.
  - intros m Z ?. lia.
  - intros [|[|m]] Z ? ?; simplify_eq/=; [compute_done|compute_done|lia].
Defined.

(** Every state the loop reaches holds the operators processed so far. *)
Lemma reachable_Layered {depth : nat} (wire_map : gmap string nat) (l : list Operator) (st : State) :
  foldM (loop_body depth wire_map) init_state l = Ok st →
  ∃ pl, Layered wire_map st l pl ∧ Asap wire_map l pl ∧ Dense st pl.
Proof.
  intros Hrun.
  destruct (loop_run wire_map l init_state st [] []
              (Layered_init _) (Asap_init _) Dense_init Hrun)
    as (pl & _ & HL & HA & HD).
  exists pl. by split_and!.
Qed.

(** The loop on [deep_ops] ends in [deep_state], whenever the search is
    allowed a call. *)
Lemma deep_ops_loop (depth : nat) :
  foldM (loop_body (S depth) wm2) init_state deep_ops = Ok deep_state.
Proof.
  unfold deep_ops, init_state. cbn [foldM].
  rewrite (loop_body_free_first _ _ _ {[1]}) by compute_done.
  cbn [mbind result_bind].
  rewrite (same_wire_loop depth 1099) by compute_done.
  unfold deep_state. do 2 f_equal; f_equal; compute_done.
Qed.




(** C5.  An operation [B] without wires occupies every index of the wire
    map.  If, when the loop reaches it, the current last layer is occupied
    on some wire, then [B] is placed in a new layer, that layer holds [B]
    and nothing else in the result, every operation before [B] lies in an
    earlier layer and every operation after [B] in a later one. *)
Theorem broadcast_isolation (depth : nat) (ops : list Operator) (wire_map : gmap string nat)
    (layers : list (gset Operator)) (p : nat) (B : Operator) (st : State)
    (occupied : gset nat) :
  drawable_layers depth ops wire_map = Ok layers →
  ops !! p = Some B → wires B = [] →
  foldM (loop_body depth wire_map) init_state (take p ops) = Ok st →
  occupied_wires_per_layer st !! max_layer st = Some occupied →
  occupied ≠ ∅ →
  op_occupied_wires wire_map B = Ok (map_img wire_map) ∧
  ∃ pl, op_layers depth ops wire_map = Ok pl
      ∧ pl !! p = Some (max_layer st + 1)
      ∧ layers !! (max_layer st + 1) = Some {[B]}
      ∧ (∀ q k, q < p → pl !! q = Some k → k ≤ max_layer st)
      ∧ (∀ q k, p < q → pl !! q = Some k → max_layer st + 1 < k).
Proof.
  intros Hrun Hp HB Hst Hocc Hne.
  split; [by apply op_occupied_wires_broadcast|].
  destruct (loop_at_position _ _ _ _ _ Hrun Hp)
    as (st' & pl & occ & k & Hst' & Htrace & HP & HL & _ & HoccB & Hfind & Hk).
  assert (st' = st) as -> by congruence.
  rewrite op_occupied_wires_broadcast in HoccB by done. injection HoccB as <-.
  (* the last layer is occupied on an index of the wire map *)
  assert (∃ y, y ∈ occupied ∧ y ∈ (map_img wire_map : gset nat)) as (y & Hy & Himg).
  { apply set_choose_L in Hne as [x Hx].
    destruct (proj1 (layered_occ _ _ _ _ HL _ _ Hocc x) Hx)
      as (p' & op' & Hp' & Hk' & Hx').
    destruct (layered_covered _ _ _ _ HL op') as [o' Ho'].
    { by eapply list_elem_of_lookup_2. }
    rewrite (occ_of_Ok _ _ _ Ho') in Hx'.
    destruct (occupied_meets_img _ _ _ Ho') as (y & Hy & Himg).
    { by apply (non_empty_inhabited_L x). }
    exists y. split; [|done].
    apply (layered_occ _ _ _ _ HL _ _ Hocc). exists p', op'.
    by rewrite (occ_of_Ok _ _ _ Ho'). }
  assert (k = max_layer st + 1) as ->.
  { apply (find_layer_Ok_conflict _ _ _ _ _ _ Hfind Hocc).
    apply (non_empty_inhabited_L y). by apply elem_of_intersection. }
  assert (∀ q k, q < p → pl !! q = Some k → k ≤ max_layer st) as Hbefore.
  { intros q k Hq Hkq. apply (layered_bound _ _ _ _ HL q).
    by rewrite lookup_take_lt. }
  assert (∀ q k, p < q → pl !! q = Some k → max_layer st + 1 < k) as Hafter.
  { intros q k Hq Hkq.
    destruct (lookup_lt_is_Some_2 ops q) as [N HN].
    { rewrite <-(placement_len _ _ _ _ HP). by eapply lookup_lt_Some. }
    eapply (asap_after _ _ _ (placement_asap _ _ _ _ HP) p q); try done.
    pose proof (placement_covered _ _ _ _ HP) as Hcov.
    rewrite Forall_forall in Hcov.
    destruct (proj1 (op_occupied_wires_covered wire_map N)) as [oN HoN].
    { apply Hcov. by eapply list_elem_of_lookup_2. }
    unfold conflict.
    rewrite (occ_of_Ok _ B (map_img wire_map)), (occ_of_Ok _ N oN)
      by (done || by apply op_occupied_wires_broadcast).
    destruct (decide (wires N = [])) as [HNnil|HNwires].
    - rewrite op_occupied_wires_broadcast in HoN by done. injection HoN as <-.
      apply (non_empty_inhabited_L y). by apply elem_of_intersection.
    - destruct (occupied_meets_img _ _ _ HoN) as (z & Hz & Hzimg).
      { by eapply occupied_nonempty. }
      apply (non_empty_inhabited_L z). by apply elem_of_intersection. }
  exists pl. split_and!; try done.
  destruct (lookup_lt_is_Some_2 layers (max_layer st + 1)) as [s Hs].
  { by eapply placement_bound. }
  rewrite Hs. f_equal. apply set_eq. intros op.
  rewrite (placement_members _ _ _ _ HP _ _ Hs), elem_of_singleton. split.
  - intros (q & Hq & Hkq).
    destruct (Nat.lt_total q p) as [Hlt|[->|Hlt]].
    + pose proof (Hbefore _ _ Hlt Hkq). lia.
    + congruence.
    + pose proof (Hafter _ _ Hlt Hkq). lia.
  - intros ->. by exists p.
Qed.

Lemma broadcast_isolation_witness :
  op_occupied_wires wm2 opS = Ok (map_img wm2) ∧
  ∃ pl, op_layers 1000 [opA; opS; opC] wm2 = Ok pl
      ∧ pl !! 1 = Some (0 + 1)
      ∧ [ ({[opA]} : gset Operator); {[opS]}; {[opC]} ] !! (0 + 1) = Some {[opS]}
      ∧ (∀ q k, q < 1 → pl !! q = Some k → k ≤ 0)
      ∧ (∀ q k, 1 < q → pl !! q = Some k → 0 + 1 < k).
Proof.
  apply (broadcast_isolation 1000 [opA; opS; opC] wm2 _ 1 opS
           {| max_layer := 0; occupied_wires_per_layer := [ {[0]} ];
              ops_in_layer := [ {[opA]} ] |} {[0]}).
  - compute_done.
  - done.
  - done.
  - compute_done.
  - done.
  - compute_done.
Defined.

(** ** The grid as a sequence of cell assignments *)

Lemma shape_replicate (n m : nat) : shape (replicate n (replicate m None)) n m.
Proof.
  split; [by rewrite length_replicate|].
  apply Forall_replicate. by rewrite length_replicate.
Qed.

Lemma cell_replicate (n m r c : nat) :
  r < n → c < m → cell (replicate n (replicate m None)) r c = Some None.
Proof.
  intros Hr Hc. unfold cell. rewrite lookup_replicate_2 by done. simpl.
  by rewrite lookup_replicate_2.
Qed.

Lemma cell_is_Some (grid : Grid) (n m r c : nat) :
  shape grid n m → is_Some (cell grid r c) ↔ r < n ∧ c < m.
Proof.
  intros [Hn Hm]. unfold cell. split.
  - intros [x Hx]. destruct (grid !! r) as [row|] eqn:Hrow; [|done].
    simpl in Hx. split.
    + rewrite <-Hn. by eapply lookup_lt_Some.
    + rewrite Forall_forall in Hm. rewrite <-(Hm row).
      * by eapply lookup_lt_Some.
      * by eapply list_elem_of_lookup_2.
  - intros [Hr Hc]. destruct (lookup_lt_is_Some_2 grid r) as [row Hrow]; [lia|].
    rewrite Hrow. simpl. apply lookup_lt_is_Some_2.
    rewrite Forall_forall in Hm. rewrite (Hm row); [done|].
    by eapply list_elem_of_lookup_2.
Qed.

(** One assignment: it succeeds exactly on a cell of the grid, keeps the
    shape, and changes that cell only. *)
Lemma set_cell_Ok (grid : Grid) (n m r c : nat) (op : Operator) :
  shape grid n m → r < n → c < m →
  ∃ g', set_cell grid r c op = Ok g' ∧ shape g' n m
      ∧ ∀ r' c', cell g' r' c' =
          if decide (r' = r ∧ c' = c) then Some (Some op) else cell grid r' c'.
Proof.
  intros [Hn Hm] Hr Hc. unfold set_cell.
  destruct (lookup_lt_is_Some_2 grid r) as [row Hrow]; [lia|].
  assert (length row = m) as Hlen.
  { rewrite Forall_forall in Hm. apply Hm. by eapply list_elem_of_lookup_2. }
  rewrite Hrow. rewrite decide_True by lia.
  eexists. split; [done|]. split.
  - split; [by rewrite length_insert|].
    apply Forall_insert; [done|]. by rewrite length_insert.
  - intros r' c'. unfold cell. case_decide as Heq.
    + destruct Heq as [-> ->].
      rewrite list_lookup_insert_eq by lia. simpl.
      by rewrite list_lookup_insert_eq by lia.
    + destruct (decide (r' = r)) as [->|Hne].
      * rewrite list_lookup_insert_eq by lia. rewrite Hrow. simpl.
        apply list_lookup_insert_ne. naive_solver.
      * by rewrite list_lookup_insert_ne.
Qed.

Lemma set_cell_Raise (grid : Grid) (n m r c : nat) (op : Operator) (e : PyError) :
  shape grid n m → set_cell grid r c op = Raise e →
  e = IndexError ∧ ¬ (r < n ∧ c < m).
Proof.
  intros Hshape Hset.
  destruct (decide (r < n ∧ c < m)) as [[Hr Hc]|Hout].
  - destruct (set_cell_Ok _ _ _ _ _ op Hshape Hr Hc) as (g' & Hg' & _). congruence.
  - split; [|done]. unfold set_cell in Hset.
    destruct (grid !! r); [case_decide|]; congruence.
Qed.

Lemma apply_writes_app (grid : Grid) (ws1 ws2 : list (nat * nat * Operator)) :
  apply_writes grid (ws1 ++ ws2) = apply_writes grid ws1 ≫= λ g, apply_writes g ws2.
Proof. apply foldM_app. Qed.

(** A list of assignments inside the grid succeeds and keeps the shape. *)
Lemma apply_writes_Ok (ws : list (nat * nat * Operator)) (n m : nat) :
  ∀ grid, shape grid n m →
  Forall (λ w, w.1.1 < n ∧ w.1.2 < m) ws →
  ∃ g', apply_writes grid ws = Ok g' ∧ shape g' n m.
Proof.
  induction ws as [|[[r c] op] ws IH]; intros grid Hshape Hin.
  - by exists grid.
  - apply Forall_cons in Hin as [[Hr Hc] Hin]. simpl in Hr, Hc.
    destruct (set_cell_Ok _ _ _ _ _ op Hshape Hr Hc) as (g1 & Hg1 & Hshape1 & _).
    destruct (IH g1 Hshape1 Hin) as (g' & Hg' & Hshape').
    exists g'. split; [|done]. unfold apply_writes in *. simpl. by rewrite Hg1.
Qed.

(** A list of assignments raises only [IndexError], and only when one of
    them is outside the grid. *)
Lemma apply_writes_Raise (ws : list (nat * nat * Operator)) (n m : nat) (e : PyError) :
  ∀ grid, shape grid n m →
  apply_writes grid ws = Raise e →
  e = IndexError ∧ ¬ Forall (λ w, w.1.1 < n ∧ w.1.2 < m) ws.
Proof.
  induction ws as [|[[r c] op] ws IH]; intros grid Hshape; [done|].
  unfold apply_writes. simpl.
  intros [Hset|(g1 & Hset & Hrest)]%bind_Raise.
  - destruct (set_cell_Raise _ _ _ _ _ _ _ Hshape Hset) as [-> Hout].
    split; [done|]. by intros [? _]%Forall_cons.
  - destruct (decide (r < n ∧ c < m)) as [[Hr Hc]|Hout].
    + destruct (set_cell_Ok _ _ _ _ _ op Hshape Hr Hc) as (g1' & Hg1 & Hshape1 & _).
      assert (g1' = g1) as -> by congruence.
      destruct (IH g1 Hshape1 Hrest) as [-> Hnot].
      split; [done|]. by intros [_ ?]%Forall_cons.
    + split; [|by intros [? _]%Forall_cons].
      unfold set_cell in Hset. destruct (grid !! r) as [row|] eqn:Hrow; [|done].
      case_decide as Hc; [|done]. exfalso. apply Hout.
      destruct Hshape as [Hn Hm]. rewrite Forall_forall in Hm. split.
      * rewrite <-Hn. by eapply lookup_lt_Some.
      * rewrite <-(Hm row); [done|]. by eapply list_elem_of_lookup_2.
Qed.

Lemma set_cell_Ok_inv (grid g' : Grid) (n m r c : nat) (op : Operator) :
  shape grid n m → set_cell grid r c op = Ok g' →
  r < n ∧ c < m ∧ shape g' n m
  ∧ ∀ r' c', cell g' r' c' =
      if decide (r' = r ∧ c' = c) then Some (Some op) else cell grid r' c'.
Proof.
  intros Hshape Hset.
  destruct (decide (r < n ∧ c < m)) as [[Hr Hc]|Hout].
  - destruct (set_cell_Ok _ _ _ _ _ op Hshape Hr Hc) as (g1 & Hg1 & Hshape1 & Hcell).
    assert (g1 = g') as -> by congruence. done.
  - exfalso. apply Hout. unfold set_cell in Hset.
    destruct (grid !! r) as [row|] eqn:Hrow; [|done].
    case_decide as Hc; [|done].
    destruct Hshape as [Hn Hm]. rewrite Forall_forall in Hm. split.
    + rewrite <-Hn. by eapply lookup_lt_Some.
    + rewrite <-(Hm row); [done|]. by eapply list_elem_of_lookup_2.
Qed.

Lemma apply_writes_Ok_inv (ws : list (nat * nat * Operator)) (n m : nat) :
  ∀ grid g', shape grid n m → apply_writes grid ws = Ok g' →
  shape g' n m ∧ Forall (λ w, w.1.1 < n ∧ w.1.2 < m) ws.
Proof.
  induction ws as [|[[r c] op] ws IH]; intros grid g' Hshape.
  - intros [= <-]. by split.
  - unfold apply_writes. simpl. intros (g1 & Hset & Hrest)%bind_Ok.
    destruct (set_cell_Ok_inv _ _ _ _ _ _ _ Hshape Hset) as (Hr & Hc & Hshape1 & _).
    destruct (IH g1 g' Hshape1 Hrest) as [Hshape' Hin].
    split; [done|]. by constructor.
Qed.

(** On a grid of empty cells, consistent assignments leave in each cell the
    operator assigned to it, if any. *)
Lemma apply_writes_cells (grid : Grid) (n m : nat) (ws : list (nat * nat * Operator)) :
  shape grid n m →
  (∀ r c x, cell grid r c = Some x → x = None) →
  ∀ g', apply_writes grid ws = Ok g' → consistent ws →
  ∀ r c op, cell g' r c = Some (Some op) ↔ (r, c, op) ∈ ws.
Proof.
  intros Hshape Hempty.
  induction ws as [|[[r0 c0] op0] ws IH] using rev_ind; intros g' Hrun Hcons r c op.
  - injection Hrun as <-. split.
    + intros Hcell. by apply Hempty in Hcell.
    + by intros ?%elem_of_nil.
  - unfold apply_writes in Hrun. rewrite foldM_snoc in Hrun.
    apply bind_Ok in Hrun as (g1 & Hg1 & Hset). simpl in Hset.
    destruct (apply_writes_Ok_inv _ _ _ _ _ Hshape Hg1) as [Hshape1 _].
    destruct (set_cell_Ok_inv _ _ _ _ _ _ _ Hshape1 Hset) as (_ & _ & _ & Hcell).
    assert (consistent ws) as Hcons1.
    { intros r' c' o1 o2 H1 H2.
      apply (Hcons r' c'); apply elem_of_app; by left. }
    rewrite Hcell, elem_of_app, list_elem_of_singleton.
    case_decide as Heq.
    + destruct Heq as [-> ->]. split.
      * intros [= ->]. by right.
      * intros [Hin|[= ->]]; [|done].
        do 2 f_equal. apply (Hcons r0 c0); apply elem_of_app.
        -- right. by apply list_elem_of_singleton.
        -- by left.
    + rewrite (IH g1 Hg1 Hcons1). split; [by left|].
      intros [?|[= -> -> ->]]; [done|]. by destruct Heq.
Qed.

Lemma fold_rows_writes (layer : nat) (op : Operator) (rows : list nat) :
  ∀ g, foldM (λ g wire, set_cell g wire layer op) g rows
       = apply_writes g ((λ r, (r, layer, op)) <$> rows).
Proof.
  induction rows as [|r rows IH]; intros g; [done|].
  unfold apply_writes. simpl. destruct (set_cell g r layer op); simpl; [|done].
  apply IH.
Qed.

Lemma fold_wires_writes (wire_map : gmap string nat) (layer : nat) (op : Operator)
    (ws : list string) :
  Forall (λ w, is_Some (wire_map !! w)) ws →
  ∀ g, foldM (λ g wire, r ← lookup_wire wire_map wire; set_cell g r layer op) g ws
       = apply_writes g ((λ r, (r, layer, op)) <$> mapped_rows wire_map ws).
Proof.
  induction 1 as [|w ws [i Hw] _ IH]; intros g; [done|].
  unfold apply_writes, mapped_rows, lookup_wire. simpl. rewrite Hw. simpl.
  destruct (set_cell g i layer op); simpl; [|done].
  apply IH.
Qed.

Lemma place_op_writes (wire_map : gmap string nat) (n_wires layer : nat)
    (g : Grid) (op : Operator) :
  covered wire_map op →
  place_op wire_map n_wires layer g op
  = apply_writes g (op_writes wire_map n_wires layer op).
Proof.
  intros Hcov. unfold place_op, op_writes, op_rows.
  rewrite fmap_app, apply_writes_app.
  case_decide.
  - rewrite fold_rows_writes.
    destruct (apply_writes g _) as [g1|e]; simpl; [|done].
    by apply fold_wires_writes.
  - simpl. by apply fold_wires_writes.
Qed.

Lemma place_ops_writes (wire_map : gmap string nat) (n_wires layer : nat)
    (l : list Operator) :
  Forall (covered wire_map) l →
  ∀ g, foldM (place_op wire_map n_wires layer) g l
       = apply_writes g (l ≫= op_writes wire_map n_wires layer).
Proof.
  induction 1 as [|op l Hop _ IH]; intros g; [done|].
  rewrite bind_cons, apply_writes_app. simpl.
  rewrite place_op_writes by done.
  destruct (apply_writes g _) as [g1|e]; simpl; [|done].
  apply IH.
Qed.

Lemma elem_of_op_rows (wire_map : gmap string nat) (n_wires : nat) (op : Operator)
    (r : nat) :
  r ∈ op_rows wire_map n_wires op ↔
  (wires op = [] ∧ r < n_wires) ∨ (∃ w, w ∈ wires op ∧ wire_map !! w = Some r).
Proof.
  unfold op_rows, mapped_rows. rewrite elem_of_app, list_elem_of_omap.
  case_decide as Hlen.
  - rewrite elem_of_seq. apply length_zero_iff_nil in Hlen. split.
    + intros [?|(w & Hw & _)]; [left; split; [done|lia]|].
      rewrite Hlen in Hw. by apply elem_of_nil in Hw.
    + intros [[_ ?]|(w & Hw & _)]; [left; lia|].
      rewrite Hlen in Hw. by apply elem_of_nil in Hw.
  - split.
    + intros [?%elem_of_nil|?]; [done|by right].
    + intros [[Hnil _]|?]; [|by right]. by rewrite Hnil in Hlen.
Qed.

Section grid_writes.
Variable set_iter : gset Operator → list Operator.
Hypothesis set_iter_perm : ∀ s, set_iter s ≡ₚ elements s.

Lemma elem_of_set_iter (s : gset Operator) (op : Operator) :
  op ∈ set_iter s ↔ op ∈ s.
Proof. by rewrite set_iter_perm, elem_of_elements. Qed.

Lemma fill_layers_writes (wire_map : gmap string nat) (n_wires : nat)
    (layers : list (gset Operator)) :
  (∀ s op, s ∈ layers → op ∈ s → covered wire_map op) →
  ∀ layer g, fill_layers set_iter wire_map n_wires layer g layers
             = apply_writes g (grid_writes set_iter wire_map n_wires layer layers).
Proof.
  induction layers as [|s layers IH]; intros Hcov layer g; [done|].
  simpl. rewrite apply_writes_app, place_ops_writes.
  - destruct (apply_writes g _) as [g1|e]; simpl; [|done].
    apply IH. intros s' op Hs'. apply Hcov. by right.
  - apply Forall_forall. intros op Hop%elem_of_set_iter.
    apply (Hcov s); [by left|done].
Qed.

Lemma elem_of_grid_writes (wire_map : gmap string nat) (n_wires : nat)
    (layers : list (gset Operator)) (r c : nat) (op : Operator) :
  ∀ layer,
  (r, c, op) ∈ grid_writes set_iter wire_map n_wires layer layers ↔
  ∃ k s, layers !! k = Some s ∧ c = layer + k ∧ op ∈ s
       ∧ r ∈ op_rows wire_map n_wires op.
Proof.
  induction layers as [|s0 layers IH]; intros layer; simpl.
  - split; [by intros ?%elem_of_nil|]. by intros (k & s & ? & _).
  - rewrite elem_of_app, list_elem_of_bind, IH. split.
    + intros [(op' & Hw & Hop')|(k & s & Hk & -> & Hop & Hr)].
      * unfold op_writes in Hw.
        apply list_elem_of_fmap in Hw as (r' & [= -> -> ->] & Hr).
        exists 0, s0. split_and!; [done|lia| |done].
        by apply elem_of_set_iter.
      * exists (S k), s. split_and!; [done|lia|done..].
    + intros ([|k] & s & Hk & -> & Hop & Hr); simplify_eq/=.
      * left. exists op. split; [|by apply elem_of_set_iter].
        unfold op_writes. apply list_elem_of_fmap. exists r.
        split; [|done]. do 2 f_equal. lia.
      * right. exists k, s. split_and!; [done|lia|done..].
Qed.
End grid_writes.

(** Two distinct members of one layer do not conflict. *)
Lemma placement_disjoint (wire_map : gmap string nat) (ops : list Operator)
    (layers : list (gset Operator)) (pl : list nat) (k : nat) (s : gset Operator)
    (a b : Operator) :
  Placement wire_map ops layers pl →
  layers !! k = Some s → a ∈ s → b ∈ s → a ≠ b → ¬ conflict wire_map a b.
Proof.
  intros HP Hk Ha Hb Hab Hc.
  apply (placement_members _ _ _ _ HP _ _ Hk) in Ha as (p & Hp & Hkp).
  apply (placement_members _ _ _ _ HP _ _ Hk) in Hb as (q & Hq & Hkq).
  destruct (placement_asap _ _ _ _ HP) as [Hafter _].
  destruct (Nat.lt_total p q) as [Hlt|[->|Hlt]].
  - pose proof (Hafter _ _ _ _ _ _ Hlt Hp Hq Hkp Hkq Hc). lia.
  - congruence.
  - apply conflict_sym in Hc.
    pose proof (Hafter _ _ _ _ _ _ Hlt Hq Hp Hkq Hkp Hc). lia.
Qed.

Lemma placement_member_covered (wire_map : gmap string nat) (ops : list Operator)
    (layers : list (gset Operator)) (pl : list nat) (s : gset Operator) (op : Operator) :
  Placement wire_map ops layers pl → s ∈ layers → op ∈ s → covered wire_map op.
Proof.
  intros HP [k Hk]%list_elem_of_lookup Hop.
  apply (placement_members _ _ _ _ HP _ _ Hk) in Hop as (p & Hp & _).
  pose proof (placement_covered _ _ _ _ HP) as Hcov.
  rewrite Forall_forall in Hcov. apply Hcov. by eapply list_elem_of_lookup_2.
Qed.

Lemma NoDup_fmap_eq {A B} (f : A → B) (l : list A) (x y : A) :
  NoDup (f <$> l) → x ∈ l → y ∈ l → f x = f y → x = y.
Proof.
  induction l as [|a l IH]; simpl.
  - by intros _ ?%elem_of_nil.
  - intros [Hnotin Hnodup]%NoDup_cons [->|Hx]%elem_of_cons [->|Hy]%elem_of_cons Hf.
    + done.
    + exfalso. apply Hnotin. rewrite Hf. by apply list_elem_of_fmap_2.
    + exfalso. apply Hnotin. rewrite <-Hf. by apply list_elem_of_fmap_2.
    + by apply IH.
Qed.

Lemma wire_map_ok_inj (wire_map : gmap string nat) (w1 w2 : string) (i : nat) :
  wire_map_ok wire_map →
  wire_map !! w1 = Some i → wire_map !! w2 = Some i → w1 = w2.
Proof.
  intros [Hnodup _] H1%elem_of_map_to_list H2%elem_of_map_to_list.
  by injection (NoDup_fmap_eq snd _ _ _ Hnodup H1 H2 eq_refl).
Qed.

Lemma wire_map_ok_range (wire_map : gmap string nat) (w : string) (i : nat) :
  wire_map_ok wire_map → wire_map !! w = Some i → i < size wire_map.
Proof.
  intros [_ Himg] Hw%(elem_of_map_img_2 (SA:=gset nat)).
  rewrite Himg in Hw. apply elem_of_set_seq in Hw. lia.
Qed.

(** With indices inside [0 .. n-1] every assignment hits a row of the grid. *)
Lemma op_rows_range (wire_map : gmap string nat) (op : Operator) (r : nat) :
  (map_img wire_map : gset nat) ⊆ set_seq 0 (size wire_map) →
  r ∈ op_rows wire_map (size wire_map) op → r < size wire_map.
Proof.
  intros Himg [[_ ?]|(w & _ & Hw)]%elem_of_op_rows; [done|].
  apply (elem_of_map_img_2 (SA:=gset nat)), Himg, elem_of_set_seq in Hw. lia.
Qed.

(** With the wire map of the data model, a row assigned for an operator is
    one of its occupied wires. *)
Lemma op_rows_occupied (wire_map : gmap string nat) (op : Operator) (r : nat) :
  wire_map_ok wire_map → covered wire_map op →
  r ∈ op_rows wire_map (size wire_map) op → r ∈ occ_of wire_map op.
Proof.
  intros [_ Himg] [occ Hocc]%op_occupied_wires_covered Hr.
  rewrite (occ_of_Ok _ _ _ Hocc).
  apply op_occupied_wires_Ok in Hocc as [mapped Hw].
  apply elem_of_op_rows in Hr as [[Hnil Hr]|(w & Hin & Hlk)].
  - rewrite wires_of_op_broadcast in Hw by done. injection Hw as _ <-.
    rewrite Himg. apply elem_of_set_seq. lia.
  - assert (wires op ≠ []) as Hne.
    { intros Hnil. rewrite Hnil in Hin. by apply elem_of_nil in Hin. }
    apply (mapped_subseteq_occupied _ _ _ _ Hw).
    destruct (wires_of_op_span _ _ _ _ Hne Hw) as (Hmapped & _).
    apply Hmapped. by exists w.
Qed.

(** ** Properties of the grid *)

Section grid_properties.
Variable set_iter : gset Operator → list Operator.
Hypothesis set_iter_perm : ∀ s, set_iter s ≡ₚ elements s.

(** For a non-empty input whose layers are [layers], the grid is the empty
    grid with the assignments of all layers applied to it. *)
Lemma drawable_grid_writes {depth : nat} (ops : list Operator) (wire_map : gmap string nat)
    (layers : list (gset Operator)) :
  ops ≠ [] →
  drawable_layers depth ops wire_map = Ok layers →
  drawable_grid set_iter depth ops wire_map
  = apply_writes (replicate (size wire_map) (replicate (length layers) None))
      (grid_writes set_iter wire_map (size wire_map) 0 layers).
Proof.
  intros Hne Hrun. unfold drawable_grid.
  rewrite decide_False by (by destruct ops).
  rewrite Hrun. simpl.
  destruct (drawable_layers_Ok _ _ _ Hrun) as (pl & _ & HP).
  apply fill_layers_writes; [done|].
  intros s op. by eapply placement_member_covered.
Qed.

Lemma drawable_grid_Raise_layers {depth : nat} (ops : list Operator) (wire_map : gmap string nat)
    (e : PyError) :
  drawable_layers depth ops wire_map = Raise e →
  drawable_grid set_iter depth ops wire_map = Raise e.
Proof.
  intros Hrun. unfold drawable_grid. case_decide as Hlen.
  - apply length_zero_iff_nil in Hlen. by rewrite Hlen in Hrun.
  - by rewrite Hrun.
Qed.

(** The columns assigned are columns of the grid. *)
Lemma grid_writes_columns (wire_map : gmap string nat) (n_wires : nat)
    (layers : list (gset Operator)) (r c : nat) (op : Operator) :
  (r, c, op) ∈ grid_writes set_iter wire_map n_wires 0 layers → c < length layers.
Proof.
  intros (k & s & Hk & -> & _)%elem_of_grid_writes; [|done].
  by apply lookup_lt_Some in Hk.
Qed.

Lemma grid_writes_in_range (wire_map : gmap string nat)
    (layers : list (gset Operator)) :
  (map_img wire_map : gset nat) ⊆ set_seq 0 (size wire_map) →
  Forall (λ w, w.1.1 < size wire_map ∧ w.1.2 < length layers)
    (grid_writes set_iter wire_map (size wire_map) 0 layers).
Proof.
  intros Himg. apply Forall_forall. intros [[r c] op] Hw. simpl. split.
  - apply elem_of_grid_writes in Hw as (k & s & _ & _ & _ & Hr); [|done].
    by eapply op_rows_range.
  - by eapply grid_writes_columns.
Qed.

(** What [drawable_layers] raises: the [KeyError] of the first wire absent
    from the map, in the first operator that has one; or [RecursionError],
    at an operator whose search is allowed fewer calls than its position in
    the input. *)
Lemma drawable_layers_Raise_cases {depth : nat} (ops : list Operator)
    (wire_map : gmap string nat) (e : PyError) :
  drawable_layers depth ops wire_map = Raise e →
  (∃ n op m w, e = KeyError w ∧ ops !! n = Some op
     ∧ Forall (covered wire_map) (take n ops)
     ∧ wires op !! m = Some w ∧ wire_map !! w = None
     ∧ ∀ m' w', m' < m → wires op !! m' = Some w' → is_Some (wire_map !! w'))
  ∨ (e = RecursionError
     ∧ ∃ n op, ops !! n = Some op ∧ Forall (covered wire_map) (take (S n) ops)
               ∧ depth ≤ n).
Proof.
  intros (n & op & Hn & Hbefore & [Hocc|(-> & Hcov & Hd)])%drawable_layers_Raise.
  - left. unfold op_occupied_wires in Hocc.
    apply bind_Raise in Hocc as [Hw|(? & _ & ?)]; [|done].
    apply wires_of_op_Raise in Hw as (m & w & -> & Hm & Hnone & Hfirst).
    by exists n, op, m, w.
  - right. split; [done|]. exists n, op. split_and!; [done| |done].
    rewrite (take_S_r _ _ _ Hn). apply Forall_app. split; [done|].
    by apply Forall_singleton.
Qed.

(** With a wire label that is not a key of the wire map, [drawable_layers]
    returns nothing. *)
Lemma drawable_layers_missing {depth : nat} (ops : list Operator)
    (wire_map : gmap string nat) :
  (∃ op w, op ∈ ops ∧ w ∈ wires op ∧ wire_map !! w = None) →
  ∃ e, drawable_layers depth ops wire_map = Raise e.
Proof.
  intros (op & w & Hop & Hw & Hnone).
  destruct (drawable_layers depth ops wire_map) as [layers|e] eqn:Hrun; [|by eexists].
  apply drawable_layers_Ok_covered in Hrun.
  rewrite Forall_forall in Hrun. specialize (Hrun op Hop).
  unfold covered in Hrun. rewrite Forall_forall in Hrun.
  destruct (Hrun w Hw) as [i Hi]. congruence.
Qed.

(** A [KeyError] names a wire label that is not a key of the wire map. *)
Lemma drawable_layers_KeyError {depth : nat} (ops : list Operator)
    (wire_map : gmap string nat) (w : string) :
  drawable_layers depth ops wire_map = Raise (KeyError w) →
  ∃ op, op ∈ ops ∧ w ∈ wires op ∧ wire_map !! w = None.
Proof.
  intros [(n & op & m & w' & [= ->] & Hn & _ & Hm & Hnone & _)|[? _]]%drawable_layers_Raise_cases;
    [|done].
  exists op. split_and!; [|by eapply list_elem_of_lookup_2|done].
  by eapply list_elem_of_lookup_2.
Qed.

(** When the search is allowed as many calls as there are operators,
    [drawable_layers] raises only for a wire label that is not a key of the
    wire map, and then a [KeyError]. *)
Lemma drawable_layers_Raise_enough {depth : nat} (ops : list Operator)
    (wire_map : gmap string nat) (e : PyError) :
  length ops ≤ depth →
  drawable_layers depth ops wire_map = Raise e →
  ∃ w, e = KeyError w.
Proof.
  intros Hdepth [(_ & _ & _ & w & -> & _)|(_ & n & op & Hn & _ & Hd)]%drawable_layers_Raise_cases.
  - by exists w.
  - apply lookup_lt_Some in Hn. lia.
Qed.

(** [drawable_grid] raises a [KeyError] only when [drawable_layers] does. *)
Lemma drawable_grid_KeyError {depth : nat} (ops : list Operator)
    (wire_map : gmap string nat) (w : string) :
  drawable_grid set_iter depth ops wire_map = Raise (KeyError w) →
  drawable_layers depth ops wire_map = Raise (KeyError w).
Proof.
  intros Hgrid.
  destruct (decide (ops = [])) as [->|Hne].
  { unfold drawable_grid in Hgrid. simpl in Hgrid. by case_decide. }
  destruct (drawable_layers depth ops wire_map) as [layers|e] eqn:Hrun.
  - rewrite (drawable_grid_writes _ _ _ Hne Hrun) in Hgrid.
    by apply (apply_writes_Raise _ _ _ _ _ (shape_replicate _ _)) in Hgrid as [? _].
  - rewrite (drawable_grid_Raise_layers _ _ _ Hrun) in Hgrid. congruence.
Qed.



(** C9, amended.  For a non-empty operation sequence the grid returned has
    one row per entry of the wire map and one column per layer returned by
    [drawable_layers], of which there is at least one.  For an empty
    operation sequence it has one row per entry of the wire map and no
    column, or is the single empty row when the wire map is empty too. *)
Theorem grid_dimensions (depth : nat) (ops : list Operator) (wire_map : gmap string nat)
    (grid : Grid) :
  drawable_grid set_iter depth ops wire_map = Ok grid →
  (ops ≠ [] →
   ∃ layers, drawable_layers depth ops wire_map = Ok layers
           ∧ 1 ≤ length layers
           ∧ length grid = size wire_map
           ∧ Forall (λ row, length row = length layers) grid) ∧
  (ops = [] →
   grid = if decide (size wire_map = 0) then [[]]
          else replicate (size wire_map) []).
Proof.
  intros Hgrid. split.
  - intros Hne.
    destruct (drawable_layers depth ops wire_map) as [layers|e] eqn:Hrun.
    + rewrite (drawable_grid_writes _ _ _ Hne Hrun) in Hgrid.
      apply (apply_writes_Ok_inv _ _ _ _ _ (shape_replicate _ _)) in Hgrid
        as [[Hrows Hcols] _].
      exists layers. split_and!; [done| |done..].
      destruct (drawable_layers_Ok _ _ _ Hrun) as (pl & _ & HP).
      by eapply placement_nonempty.
    + by rewrite (drawable_grid_Raise_layers _ _ _ Hrun) in Hgrid.
  - intros ->. unfold drawable_grid in Hgrid. simpl in Hgrid.
    case_decide; by injection Hgrid as <-.
Qed.

Lemma mapped_rows_NoDup (wire_map : gmap string nat) (ws : list string) :
  wire_map_ok wire_map → NoDup ws → NoDup (mapped_rows wire_map ws).
Proof.
  intros Hok. induction 1 as [|w ws Hnotin Hnodup IH]; [constructor|].
  unfold mapped_rows. simpl. destruct (wire_map !! w) as [i|] eqn:Hw; [|done].
  constructor; [|done].
  intros (w' & Hin & Hw')%list_elem_of_omap.
  by rewrite (wire_map_ok_inj _ _ _ _ Hok Hw Hw') in Hnotin.
Qed.

Lemma mapped_rows_length (wire_map : gmap string nat) (ws : list string) :
  Forall (λ w, is_Some (wire_map !! w)) ws →
  length (mapped_rows wire_map ws) = length ws.
Proof.
  induction 1 as [|w ws [i Hw] _ IH]; [done|].
  unfold mapped_rows. simpl. rewrite Hw. simpl. by f_equal.
Qed.

(** The number of distinct rows assigned for an operator: all rows for an
    operator without wires, one per distinct wire otherwise. *)
Lemma op_rows_size (wire_map : gmap string nat) (op : Operator) (k : nat) :
  wire_map_ok wire_map → covered wire_map op →
  size (list_to_set ((λ r, (r, k)) <$> op_rows wire_map (size wire_map) op)
          : gset (nat * nat))
  = if decide (wires op = []) then size wire_map
    else length (remove_dups (wires op)).
Proof.
  intros Hok Hcov.
  assert (Inj (=) (=) (λ r : nat, (r, k))) as Hinj by (by intros ?? [= ->]).
  unfold op_rows. destruct (decide (wires op = [])) as [Hnil|Hne].
  - rewrite Hnil. simpl. unfold mapped_rows. simpl.
    rewrite app_nil_r, size_list_to_set, length_fmap, length_seq; [done|].
    apply NoDup_fmap_2; [done|]. apply NoDup_seq.
  - rewrite decide_False by (by destruct (wires op)). simpl.
    assert ((list_to_set ((λ r, (r, k)) <$> mapped_rows wire_map (wires op))
               : gset (nat * nat))
            = list_to_set ((λ r, (r, k)) <$>
                             mapped_rows wire_map (remove_dups (wires op)))) as ->.
    { apply set_eq. intros [r c]. rewrite !elem_of_list_to_set, !list_elem_of_fmap.
      unfold mapped_rows. setoid_rewrite list_elem_of_omap.
      by setoid_rewrite elem_of_remove_dups. }
    rewrite size_list_to_set.
    2:{ apply NoDup_fmap_2; [done|].
        apply mapped_rows_NoDup; [done|]. apply NoDup_remove_dups. }
    rewrite length_fmap. apply mapped_rows_length.
    apply Forall_forall. intros w Hw. rewrite elem_of_remove_dups in Hw.
    unfold covered in Hcov. rewrite Forall_forall in Hcov. by apply Hcov.
Qed.

(** With the wire map of the data model no cell is assigned two different
    operators. *)
Lemma grid_writes_consistent (ops : list Operator) (wire_map : gmap string nat)
    (layers : list (gset Operator)) (pl : list nat) :
  wire_map_ok wire_map →
  Placement wire_map ops layers pl →
  consistent (grid_writes set_iter wire_map (size wire_map) 0 layers).
Proof.
  intros Hok HP r c o1 o2.
  intros (k1 & s1 & Hk1 & -> & Ho1 & Hr1)%elem_of_grid_writes; [|done].
  intros (k2 & s2 & Hk2 & Hk & Ho2 & Hr2)%elem_of_grid_writes; [|done].
  assert (k2 = k1) as -> by lia. assert (s2 = s1) as -> by congruence.
  destruct (decide (o1 = o2)) as [|Hne]; [done|]. exfalso.
  apply (placement_disjoint _ _ _ _ _ _ _ _ HP Hk1 Ho1 Ho2 Hne).
  apply (non_empty_inhabited_L r). apply elem_of_intersection.
  split; (apply op_rows_occupied; [done| |done]);
    eapply placement_member_covered; try done; by eapply list_elem_of_lookup_2.
Qed.

(** C8.  Let the operations be pairwise distinct and the wire map be one of
    the data model (distinct labels have distinct indices, which are
    [0 .. n-1]).  In a grid that [drawable_grid] returns, for the operation
    at each position, with [k] the layer found for it:
    the operation is in layer [k] and in no other layer; the cells holding it
    are exactly those of column [k] in the rows of its mapped wires, or in
    all rows when it has no wires; their number is the number of its distinct
    wires, or the number of rows when it has no wires; and every other row
    of its span is empty in column [k].  A cell is an [option Operator], so
    it holds at most one operation.  This holds for every number [depth] of
    nested calls the search is allowed. *)
Theorem grid_cells (depth : nat) (ops : list Operator) (wire_map : gmap string nat)
    (grid : Grid) :
  NoDup ops → wire_map_ok wire_map →
  drawable_grid set_iter depth ops wire_map = Ok grid →
  ∃ layers pl,
    drawable_layers depth ops wire_map = Ok layers
    ∧ op_layers depth ops wire_map = Ok pl
    ∧ ∀ p op k, ops !! p = Some op → pl !! p = Some k →
        (∃ s, layers !! k = Some s ∧ op ∈ s
            ∧ ∀ k' s', layers !! k' = Some s' → op ∈ s' → k' = k)
        ∧ (∀ r c, cell grid r c = Some (Some op) ↔
             c = k ∧ ((wires op = [] ∧ r < size wire_map)
                      ∨ ∃ w, w ∈ wires op ∧ wire_map !! w = Some r))
        ∧ size (list_to_set ((λ r, (r, k)) <$> op_rows wire_map (size wire_map) op)
                  : gset (nat * nat))
          = (if decide (wires op = []) then size wire_map
             else length (remove_dups (wires op)))
        ∧ (∀ r c, (r, c) ∈ (list_to_set
                     ((λ r, (r, k)) <$> op_rows wire_map (size wire_map) op)
                     : gset (nat * nat))
                  ↔ cell grid r c = Some (Some op))
        ∧ (wires op ≠ [] →
           ∀ r, r ∈ occ_of wire_map op →
                (∀ w, w ∈ wires op → wire_map !! w ≠ Some r) →
                cell grid r k = Some None).
Proof.
  intros Hnodup Hok Hgrid0.
  destruct (decide (ops = [])) as [->|Hne].
  { exists [∅], []. split_and!; [done..|]. by intros p op k ?. }
  destruct (drawable_layers depth ops wire_map) as [layers|e] eqn:Hrun.
  2:{ by rewrite (drawable_grid_Raise_layers _ _ _ Hrun) in Hgrid0. }
  pose proof (drawable_layers_Ok_covered _ _ _ Hrun) as Hcov.
  destruct (drawable_layers_Ok _ _ _ Hrun) as (pl & Htrace & HP).
  rewrite (drawable_grid_writes _ _ _ Hne Hrun) in Hgrid0.

  pose proof (proj2 Hok) as Himg.
  destruct (apply_writes_Ok
              (grid_writes set_iter wire_map (size wire_map) 0 layers)
              (size wire_map) (length layers)
              _ (shape_replicate _ _)) as (grid0 & Hgrid & Hshape).
  { apply grid_writes_in_range. by rewrite Himg. }
  pose proof (apply_writes_cells _ _ _
                (grid_writes set_iter wire_map (size wire_map) 0 layers)
                (shape_replicate (size wire_map) (length layers))) as Hcells.
  assert (grid0 = grid) as -> by congruence.
  exists layers, pl.
  split_and!; [done..|].
  assert (∀ r c op, cell grid r c = Some (Some op) ↔
            (r, c, op) ∈ grid_writes set_iter wire_map (size wire_map) 0 layers)
    as Hcell.
  { apply Hcells; [|done|by eapply grid_writes_consistent].
    intros r c x Hx.
    assert (is_Some (cell (replicate (size wire_map)
                             (replicate (length layers) None)) r c)) as Hin
      by (by eexists).
    apply (cell_is_Some _ _ _ _ _ (shape_replicate _ _)) in Hin as [Hr Hc].
    rewrite cell_replicate in Hx by done. congruence. }
  clear Hcells.
  intros p op k Hp Hk.
  destruct (placement_member _ _ _ _ _ _ HP Hp) as (k0 & s & Hk0 & Hs & Hin).
  assert (k0 = k) as -> by congruence.
  assert (covered wire_map op) as Hop.
  { rewrite Forall_forall in Hcov. apply Hcov. by eapply list_elem_of_lookup_2. }
  assert (∀ r c, cell grid r c = Some (Some op) ↔
            c = k ∧ r ∈ op_rows wire_map (size wire_map) op) as Hcell_op.
  { intros r c. rewrite Hcell, (elem_of_grid_writes _ set_iter_perm). split.
    - intros (k' & s' & Hk' & -> & Hin' & Hr). split; [|done]. simpl.
      by eapply placement_unique.
    - intros [-> Hr]. by exists k, s. }
  split_and!.
  - exists s. split_and!; [done..|].
    intros k' s' Hk' Hin'. by eapply placement_unique.
  - intros r c. rewrite Hcell_op. by rewrite elem_of_op_rows.
  - by apply op_rows_size.
  - intros r c. rewrite Hcell_op, elem_of_list_to_set, list_elem_of_fmap. split.
    + by intros (r' & [= -> ->] & Hr).
    + intros [-> Hr]. by exists r.
  - intros Hwires r Hr Hnot.
    destruct (op_occupied_wires_covered wire_map op) as [[occ Hocc] _]; [done|].
    assert (r < size wire_map) as Hrange.
    { rewrite (occ_of_Ok _ _ _ Hocc) in Hr.
      apply op_occupied_wires_Ok in Hocc as [mapped Hw].
      destruct (wires_of_op_span _ _ _ _ Hwires Hw)
        as (Hmapped & lo & hi & _ & Hhi & _ & Hspan).
      apply Hmapped in Hhi as (w & _ & Hlk).
      pose proof (wire_map_ok_range _ _ _ Hok Hlk).
      apply Hspan in Hr. lia. }
    assert (k < length layers) as Hcol by (by eapply lookup_lt_Some).
    destruct (proj2 (cell_is_Some grid _ _ r k Hshape)) as [[op'|] Hx]; [done| |done].
    exfalso.
    pose proof Hx as Hw. rewrite Hcell in Hw.
    apply elem_of_grid_writes in Hw as (k' & s' & Hk' & Heq & Hin' & Hr'); [|done].
    simpl in Heq. subst k'. assert (s' = s) as -> by congruence.
    destruct (decide (op' = op)) as [->|Hne'].
    + apply elem_of_op_rows in Hr' as [[Hnil _]|(w & Hw & Hlk)]; [done|].
      by apply (Hnot w).
    + apply (placement_disjoint _ _ _ _ _ _ _ _ HP Hs Hin' Hin Hne').
      apply (non_empty_inhabited_L r). apply elem_of_intersection.
      split; [|done]. apply op_rows_occupied; [done| |done].
      eapply placement_member_covered; try done. by eapply list_elem_of_lookup_2.
Qed.
End grid_properties.

Lemma elements_perm (s : gset Operator) : elements s ≡ₚ elements s.
Proof. reflexivity. Qed.


(** C9, as stated, fails for no operations and one wire: the grid is one
    row without columns. *)
Lemma grid_columns_counterexample :
  drawable_grid elements 1000 [] {[ "a" := 0 ]} = Ok [[]] ∧
  ¬ grid_has_columns_as_stated 1000 elements [] {[ "a" := 0 ]}.
Proof.
  split; [compute_done|].
  intros Hclaim.
  destruct (Hclaim [[]]) as (layer_count & Hpos & _ & Hcols).
  - compute_done.
  - right. compute_done.
  - apply Forall_cons in Hcols as [Hrow _]. simpl in Hrow. lia.
Qed.

Lemma grid_dimensions_witness :
  ([opA; opB] ≠ [] →
   ∃ layers, drawable_layers 1000 [opA; opB] wm2 = Ok layers
           ∧ 1 ≤ length layers
           ∧ length [[Some opA; Some opB]; [None; None]] = size wm2
           ∧ Forall (λ row, length row = length layers)
               [[Some opA; Some opB]; [None; None]]) ∧
  ([opA; opB] = [] →
   [[Some opA; Some opB]; [None; None]]
   = if decide (size wm2 = 0) then [[]] else replicate (size wm2) []).
Proof.
  apply (grid_dimensions elements elements_perm 1000 [opA; opB] wm2).
  compute_done.
Defined.

Lemma grid_cells_witness :
  ∃ layers pl,
    drawable_layers 1000 wm4_ops wm4 = Ok layers
    ∧ op_layers 1000 wm4_ops wm4 = Ok pl
    ∧ ∀ p op k, wm4_ops !! p = Some op → pl !! p = Some k →
        (∃ s, layers !! k = Some s ∧ op ∈ s
            ∧ ∀ k' s', layers !! k' = Some s' → op ∈ s' → k' = k)
        ∧ (∀ r c, cell wm4_grid r c = Some (Some op) ↔
             c = k ∧ ((wires op = [] ∧ r < size wm4)
                      ∨ ∃ w, w ∈ wires op ∧ wm4 !! w = Some r))
        ∧ size (list_to_set ((λ r, (r, k)) <$> op_rows wm4 (size wm4) op)
                  : gset (nat * nat))
          = (if decide (wires op = []) then size wm4
             else length (remove_dups (wires op)))
        ∧ (∀ r c, (r, c) ∈ (list_to_set
                     ((λ r, (r, k)) <$> op_rows wm4 (size wm4) op)
                     : gset (nat * nat))
                  ↔ cell wm4_grid r c = Some (Some op))
        ∧ (wires op ≠ [] →
           ∀ r, r ∈ occ_of wm4 op →
                (∀ w, w ∈ wires op → wm4 !! w ≠ Some r) →
                cell wm4_grid r k = Some None).
Proof.
  apply (grid_cells elements elements_perm 1000 wm4_ops wm4 wm4_grid); compute_done.
Defined.

(** ** Further properties of the layer assignment *)

(** The layer of an operator is at most the layer any order-respecting
    schedule gives it. *)
Lemma Asap_least (wire_map : gmap string nat) (ops : list Operator)
    (pl pl' : list nat) :
  Asap wire_map ops pl → respects_order wire_map ops pl' →
  length pl' = length ops →
  ∀ q k k', pl !! q = Some k → pl' !! q = Some k' → k ≤ k'.
Proof.
  intros HA Hresp Hlen q.
  induction q as [q IH] using lt_wf_ind. intros k k' Hk Hk'.
  destruct (lookup_lt_is_Some_2 ops q) as [op_q Hq].
  { rewrite <-Hlen. by eapply lookup_lt_Some. }
  destruct (asap_tight _ _ _ HA _ _ _ Hq Hk)
    as [->|(p & op_p & Hpq & Hp & Hkp & Hc)]; [lia|].
  destruct (lookup_lt_is_Some_2 pl' p) as [kp' Hkp'].
  { rewrite Hlen. by eapply lookup_lt_Some. }
  pose proof (IH p Hpq _ _ Hkp Hkp').
  pose proof (Hresp _ _ _ _ _ _ Hpq Hp Hq Hkp' Hk' Hc). lia.
Qed.

Lemma Asap_respects_order (wire_map : gmap string nat) (ops : list Operator)
    (pl : list nat) :
  Asap wire_map ops pl → respects_order wire_map ops pl.
Proof. intros [Hafter _]. exact Hafter. Qed.

(** Two schedules that both obey [Asap] are the same schedule. *)
Lemma Asap_unique (wire_map : gmap string nat) (ops : list Operator)
    (pl pl' : list nat) :
  Asap wire_map ops pl → Asap wire_map ops pl' →
  length pl = length ops → length pl' = length ops → pl = pl'.
Proof.
  intros HA HA' Hlen Hlen'. apply list_eq. intros q.
  destruct (pl !! q) as [k|] eqn:Hk.
  - destruct (lookup_lt_is_Some_2 pl' q) as [k' Hk'].
    { rewrite Hlen', <-Hlen. by eapply lookup_lt_Some. }
    rewrite Hk'. f_equal.
    pose proof (Asap_least _ _ _ _ HA (Asap_respects_order _ _ _ HA') Hlen' _ _ _ Hk Hk').
    pose proof (Asap_least _ _ _ _ HA' (Asap_respects_order _ _ _ HA) Hlen _ _ _ Hk' Hk).
    lia.
  - symmetry. apply lookup_ge_None. apply lookup_ge_None in Hk. lia.
Qed.

Lemma op_layers_from_Ok_covered {depth : nat} (wire_map : gmap string nat) (ops : list Operator) :
  ∀ st pl, op_layers_from depth wire_map st ops = Ok pl → Forall (covered wire_map) ops.
Proof.
  induction ops as [|op ops IH]; intros st pl; simpl; [by constructor|].
  intros ([occ k] & Hfind & Hrest)%bind_Ok.
  apply bind_Ok in Hrest as (st1 & _ & (ks & Hks & _)%bind_Ok).
  constructor; [|by eapply IH].
  unfold find_op_layer in Hfind. apply bind_Ok in Hfind as (occ' & Hocc & _).
  apply op_occupied_wires_covered. by eexists.
Qed.

(** A trace of the loop is the trace of a run that returns. *)
Lemma op_layers_from_Ok_loop {depth : nat} (wire_map : gmap string nat)
    (ops : list Operator) :
  ∀ st pl, op_layers_from depth wire_map st ops = Ok pl →
  ∃ st', foldM (loop_body depth wire_map) st ops = Ok st'.
Proof.
  induction ops as [|op ops IH]; intros st pl; simpl; [by eexists|].
  intros ([occ k] & Hfind & Hrest)%bind_Ok.
  apply bind_Ok in Hrest as (st1 & Hbody & (ks & Hks & _)%bind_Ok).
  rewrite Hbody. simpl. by eapply IH.
Qed.

Lemma op_layers_Ok {depth : nat} (wire_map : gmap string nat) (ops : list Operator)
    (pl : list nat) :
  op_layers depth ops wire_map = Ok pl →
  ∃ layers, drawable_layers depth ops wire_map = Ok layers
          ∧ Placement wire_map ops layers pl.
Proof.
  intros Htrace.
  destruct (op_layers_from_Ok_loop _ _ _ _ Htrace) as [st Hrun].
  assert (drawable_layers depth ops wire_map = Ok (ops_in_layer st)) as Hlayers.
  { unfold drawable_layers. by rewrite Hrun. }
  destruct (drawable_layers_Ok _ _ _ Hlayers) as (pl0 & Htrace0 & HP).
  assert (pl0 = pl) as -> by congruence.
  by exists (ops_in_layer st).
Qed.

(** X1.  The layers found for the operations, when the loop returns, are a
    schedule in which every operation lies after all earlier operations it
    conflicts with and is in layer 0 or directly after such an operation.
    There is one such schedule only, so the loop finds no other; and it
    finds that schedule when the search is allowed as many nested calls as
    there are operations. *)
Theorem op_layers_characterised (depth : nat) (ops : list Operator)
    (wire_map : gmap string nat) (pl : list nat) :
  (op_layers depth ops wire_map = Ok pl →
   Forall (covered wire_map) ops ∧ length pl = length ops ∧ Asap wire_map ops pl) ∧
  (Forall (covered wire_map) ops → length pl = length ops → Asap wire_map ops pl →
   (∀ pl0, op_layers depth ops wire_map = Ok pl0 → pl0 = pl) ∧
   (length ops ≤ depth → op_layers depth ops wire_map = Ok pl)).
Proof.
  assert (∀ pl0, op_layers depth ops wire_map = Ok pl0 →
            Forall (covered wire_map) ops ∧ length pl0 = length ops
            ∧ Asap wire_map ops pl0) as Hsound.
  { intros pl0 Htrace.
    pose proof (op_layers_from_Ok_covered _ _ _ _ Htrace) as Hcov.
    destruct (op_layers_Ok _ _ _ Htrace) as (layers & _ & HP).
    split_and!; [done|by eapply placement_len|by eapply placement_asap]. }
  split; [apply Hsound|].
  intros Hcov Hlen HA.
  assert (∀ pl0, op_layers depth ops wire_map = Ok pl0 → pl0 = pl) as Huniq.
  { intros pl0 (_ & Hlen0 & HA0)%Hsound. by apply (Asap_unique wire_map ops). }
  split; [done|]. intros Hdepth.
  destruct (drawable_layers_covered _ _ Hcov Hdepth) as (layers & pl0 & _ & Htrace0 & _).
  by rewrite <-(Huniq _ Htrace0).
Qed.

(** X2.  The schedule found respects the input order of conflicting
    operations and is the earliest such schedule: no schedule that respects
    that order places any operation in an earlier layer, or uses fewer
    layers. *)
Theorem earliest_schedule (depth : nat) (ops : list Operator) (wire_map : gmap string nat)
    (layers : list (gset Operator)) (pl' : list nat) (n' : nat) :
  drawable_layers depth ops wire_map = Ok layers →
  respects_order wire_map ops pl' → length pl' = length ops →
  ops ≠ [] → (∀ q k', pl' !! q = Some k' → k' < n') →
  ∃ pl, op_layers depth ops wire_map = Ok pl
      ∧ respects_order wire_map ops pl
      ∧ (∀ q k k', pl !! q = Some k → pl' !! q = Some k' → k ≤ k')
      ∧ length layers ≤ n'.
Proof.
  intros Hrun Hresp Hlen Hne Hbound.
  destruct (drawable_layers_Ok _ _ _ Hrun) as (pl & Htrace & HP).
  pose proof (placement_asap _ _ _ _ HP) as HA.
  pose proof (Asap_least _ _ _ _ HA Hresp Hlen) as Hleast.
  exists pl. split_and!; [done|by apply Asap_respects_order|done|].
  destruct (decide (length layers ≤ 1)) as [Hone|Hmore].
  - destruct ops as [|op0 ops]; [done|].
    destruct (lookup_lt_is_Some_2 pl' 0) as [k0 Hk0]; [rewrite Hlen; simpl; lia|].
    pose proof (Hbound _ _ Hk0). lia.
  - destruct (placement_dense _ _ _ _ HP (length layers - 1)) as [p Hp]; [lia|].
    destruct (lookup_lt_is_Some_2 pl' p) as [k' Hk'].
    { rewrite Hlen, <-(placement_len _ _ _ _ HP). by eapply lookup_lt_Some. }
    pose proof (Hleast _ _ _ Hp Hk'). pose proof (Hbound _ _ Hk'). lia.
Qed.

Lemma earliest_schedule_witness :
  ∃ pl, op_layers 1000 [opA; opB; opC] wm2 = Ok pl
      ∧ respects_order wm2 [opA; opB; opC] pl
      ∧ (∀ q k k', pl !! q = Some k → [0; 1; 2] !! q = Some k' → k ≤ k')
      ∧ length [ ({[opA; opC]} : gset Operator); {[opB]} ] ≤ 3.
Proof.
  apply (earliest_schedule 1000 [opA; opB; opC] wm2 _ [0; 1; 2] 3).
  - compute_done.
  - intros p q op_p op_q kp kq Hpq Hp Hq Hkp Hkq _.
    destruct p as [|[|[|p]]], q as [|[|[|q]]]; simplify_eq/=; lia.
  - done.
  - done.
  - intros [|[|[|q]]] k' ?; simplify_eq/=; lia.
Defined.

(** X3.  The operation at position [q] of the input is placed in layer [q]
    at the latest, so a non-empty input of [n] operations gets at most [n]
    layers. *)
Theorem layer_count_bound (depth : nat) (ops : list Operator) (wire_map : gmap string nat)
    (layers : list (gset Operator)) :
  drawable_layers depth ops wire_map = Ok layers → ops ≠ [] →
  length layers ≤ length ops ∧
  ∃ pl, op_layers depth ops wire_map = Ok pl ∧ ∀ q k, pl !! q = Some k → k ≤ q.
Proof.
  intros Hrun Hne.
  destruct (drawable_layers_Ok _ _ _ Hrun) as (pl & Htrace & HP).
  pose proof (Asap_le_position _ _ _ (placement_asap _ _ _ _ HP)
                (placement_len _ _ _ _ HP)) as Hle.
  split; [|by exists pl].
  destruct (decide (length layers ≤ 1)) as [Hone|Hmore].
  - destruct ops; [done|]. simpl. lia.
  - destruct (placement_dense _ _ _ _ HP (length layers - 1)) as [p Hp]; [lia|].
    pose proof (Hle _ _ Hp). apply lookup_lt_Some in Hp.
    rewrite (placement_len _ _ _ _ HP) in Hp. lia.
Qed.

Lemma layer_count_bound_witness :
  length [ ({[opA; opC]} : gset Operator); {[opB]} ] ≤ length [opA; opB; opC] ∧
  ∃ pl, op_layers 1000 [opA; opB; opC] wm2 = Ok pl ∧ ∀ q k, pl !! q = Some k → k ≤ q.
Proof.
  apply (layer_count_bound 1000 [opA; opB; opC] wm2); [compute_done|done].
Defined.

(** X4.  For a non-empty input the first operation is in layer 0 and no
    returned layer is empty. *)
Theorem no_empty_layer (depth : nat) (ops : list Operator) (wire_map : gmap string nat)
    (layers : list (gset Operator)) (op0 : Operator) :
  drawable_layers depth ops wire_map = Ok layers → ops !! 0 = Some op0 →
  (∃ s, layers !! 0 = Some s ∧ op0 ∈ s) ∧
  ∀ k s, layers !! k = Some s → s ≠ ∅.
Proof.
  intros Hrun H0.
  destruct (drawable_layers_Ok _ _ _ Hrun) as (pl & Htrace & HP).
  destruct (placement_member _ _ _ _ _ _ HP H0) as (k0 & s0 & Hk0 & Hs0 & Hin0).
  assert (k0 = 0) as ->.
  { pose proof (Asap_le_position _ _ _ (placement_asap _ _ _ _ HP)
                  (placement_len _ _ _ _ HP) _ _ Hk0). lia. }
  split; [by exists s0|].
  intros k s Hs. destruct (decide (k = 0)) as [->|Hk].
  - assert (s = s0) as -> by congruence. by apply (non_empty_inhabited_L op0).
  - destruct (placement_dense _ _ _ _ HP k) as [p Hp].
    { apply lookup_lt_Some in Hs. lia. }
    destruct (lookup_lt_is_Some_2 ops p) as [op Hop].
    { rewrite <-(placement_len _ _ _ _ HP). by eapply lookup_lt_Some. }
    apply (non_empty_inhabited_L op).
    apply (placement_members _ _ _ _ HP _ _ Hs). by exists p.
Qed.

Lemma no_empty_layer_witness :
  (∃ s, [ ({[opA; opC]} : gset Operator); {[opB]} ] !! 0 = Some s ∧ opA ∈ s) ∧
  ∀ k s, [ ({[opA; opC]} : gset Operator); {[opB]} ] !! k = Some s → s ≠ ∅.
Proof.
  apply (no_empty_layer 1000 [opA; opB; opC] wm2); [compute_done|done].
Defined.

Lemma op_layers_characterised_witness :
  Forall (covered wm2) [opA; opB; opC] ∧ length [0; 1; 0] = length [opA; opB; opC]
  ∧ Asap wm2 [opA; opB; opC] [0; 1; 0].
Proof.
  apply (proj1 (op_layers_characterised 1000 [opA; opB; opC] wm2 [0; 1; 0])).
  compute_done.
Defined.

Lemma size_union_list_disjoint (l : list (gset Operator)) :
  (∀ i j si sj, i ≠ j → l !! i = Some si → l !! j = Some sj → si ## sj) →
  size (⋃ l) = sum_list (size <$> l).
Proof.
  induction l as [|s l IH]; intros Hdisj; simpl; [done|].
  rewrite size_union.
  - f_equal. apply IH. intros i j si sj Hij Hi Hj.
    apply (Hdisj (S i) (S j)); [lia|done..].
  - intros x Hx (s' & [j Hj]%list_elem_of_lookup & Hx')%elem_of_union_list.
    by apply (Hdisj 0 (S j) s s' ltac:(lia) eq_refl Hj x).
Qed.

(** X5.  The returned layers hold exactly the operations of the input.  When
    the operations are pairwise distinct the layers are pairwise disjoint, so
    that every operation is in exactly one layer, and their sizes add up to
    the number of operations. *)
Theorem layers_partition (depth : nat) (ops : list Operator) (wire_map : gmap string nat)
    (layers : list (gset Operator)) :
  drawable_layers depth ops wire_map = Ok layers →
  (∀ op, op ∈ ops ↔ ∃ k s, layers !! k = Some s ∧ op ∈ s) ∧
  (NoDup ops →
   (∀ k k' s s' op, layers !! k = Some s → layers !! k' = Some s' →
      op ∈ s → op ∈ s' → k = k') ∧
   sum_list (size <$> layers) = length ops).
Proof.
  intros Hrun.
  destruct (drawable_layers_Ok _ _ _ Hrun) as (pl & Htrace & HP).
  assert (∀ op, op ∈ ops ↔ ∃ k s, layers !! k = Some s ∧ op ∈ s) as Hall.
  { intros op. split.
    - intros [p Hp]%list_elem_of_lookup.
      destruct (placement_member _ _ _ _ _ _ HP Hp) as (k & s & _ & Hs & Hin).
      by exists k, s.
    - intros (k & s & Hs & Hin).
      apply (placement_members _ _ _ _ HP _ _ Hs) in Hin as (p & Hp & _).
      by eapply list_elem_of_lookup_2. }
  split; [done|]. intros Hnodup.
  assert (∀ k k' s s' op, layers !! k = Some s → layers !! k' = Some s' →
            op ∈ s → op ∈ s' → k = k') as Hone.
  { intros k k' s s' op Hs Hs' Hin Hin'.
    pose proof Hin as Hin0.
    apply (placement_members _ _ _ _ HP _ _ Hs) in Hin0 as (p & Hp & Hk).
    symmetry.
    exact (placement_unique _ _ _ _ _ _ _ _ _ HP Hnodup Hp Hk Hs' Hin'). }
  split; [done|].
  rewrite <-size_union_list_disjoint.
  - rewrite <-(size_list_to_set (C:=gset Operator) ops) by done. f_equal.
    apply set_eq. intros op.
    rewrite elem_of_union_list, elem_of_list_to_set, Hall. split.
    + intros (s & [k Hk]%list_elem_of_lookup & Hin). by exists k, s.
    + intros (k & s & Hk & Hin). exists s. split; [|done].
      by eapply list_elem_of_lookup_2.
  - intros i j si sj Hij Hi Hj op Hop Hop'.
    apply Hij. by eapply Hone.
Qed.

Lemma layers_partition_witness :
  (∀ op, op ∈ [opA; opB; opC] ↔
     ∃ k s, [ ({[opA; opC]} : gset Operator); {[opB]} ] !! k = Some s ∧ op ∈ s) ∧
  (NoDup [opA; opB; opC] →
   (∀ k k' s s' op,
      [ ({[opA; opC]} : gset Operator); {[opB]} ] !! k = Some s →
      [ ({[opA; opC]} : gset Operator); {[opB]} ] !! k' = Some s' →
      op ∈ s → op ∈ s' → k = k') ∧
   sum_list (size <$> [ ({[opA; opC]} : gset Operator); {[opB]} ])
   = length [opA; opB; opC]).
Proof.
  apply (layers_partition 1000 [opA; opB; opC] wm2). compute_done.
Defined.

(** X6.  Appending operations to the input never moves the operations
    already there: the layers found for [ops1] are a prefix of the layers
    found for [ops1 ++ ops2], and each layer returned for [ops1] is a subset
    of the layer with the same index returned for [ops1 ++ ops2]. *)
Theorem appending_keeps_placement (depth : nat) (ops1 ops2 : list Operator)
    (wire_map : gmap string nat) (layers : list (gset Operator)) :
  drawable_layers depth (ops1 ++ ops2) wire_map = Ok layers →
  ∃ layers1 pl1 pl,
    drawable_layers depth ops1 wire_map = Ok layers1
    ∧ op_layers depth ops1 wire_map = Ok pl1
    ∧ op_layers depth (ops1 ++ ops2) wire_map = Ok pl
    ∧ pl1 = take (length ops1) pl
    ∧ length layers1 ≤ length layers
    ∧ ∀ k s1, layers1 !! k = Some s1 → ∃ s, layers !! k = Some s ∧ s1 ⊆ s.
Proof.
  intros Hrun.
  destruct (drawable_layers_Ok _ _ _ Hrun) as (pl & Htrace & HP).
  pose proof Hrun as Hfold. unfold drawable_layers in Hfold.
  apply bind_Ok in Hfold as (st2 & Hfold & [= <-]).
  rewrite foldM_app in Hfold. apply bind_Ok in Hfold as (st1 & Hrun1 & Hrun2).
  destruct (loop_run wire_map ops1 init_state st1 [] []
              (Layered_init _) (Asap_init _) Dense_init Hrun1)
    as (ks1 & Htrace1 & HL1 & HA1 & HD1).
  simpl in HL1, HA1, HD1.
  destruct (loop_run wire_map ops2 st1 st2 _ _ HL1 HA1 HD1 Hrun2)
    as (ks2 & Htrace2 & HL2 & _ & _).
  pose proof (op_layers_from_app _ _ _ _ _ _ _ Hrun1 Htrace1 Htrace2) as Hall.
  unfold op_layers in Htrace. rewrite Htrace in Hall. injection Hall as ->.
  pose proof (layered_len_pl _ _ _ _ HL1) as Hlen1.
  assert (drawable_layers depth ops1 wire_map = Ok (ops_in_layer st1)) as Hlayers1.
  { unfold drawable_layers. by rewrite Hrun1. }

  assert (∀ k s1, ops_in_layer st1 !! k = Some s1 →
            ∃ s, ops_in_layer st2 !! k = Some s ∧ s1 ⊆ s) as Hsub.
  { intros k s1 Hs1.
    destruct (lookup_lt_is_Some_2 (ops_in_layer st2) k) as [s Hs].
    { apply lookup_lt_Some in Hs1.
      rewrite (layered_len_ops _ _ _ _ HL1) in Hs1.
      rewrite (layered_len_ops _ _ _ _ HL2).
      destruct (decide (k = 0)) as [->|]; [lia|].
      destruct (HD1 k) as [p Hp]; [lia|].
      assert ((ks1 ++ ks2) !! p = Some k) as Hp'.
      { rewrite lookup_app_l; [done|by eapply lookup_lt_Some]. }
      pose proof (layered_bound _ _ _ _ HL2 _ _ Hp'). lia. }
    exists s. split; [done|]. intros op Hop.
    apply (layered_ops _ _ _ _ HL1 _ _ Hs1) in Hop as (p & Hp & Hk).
    apply (layered_ops _ _ _ _ HL2 _ _ Hs). exists p.
    split; (rewrite lookup_app_l; [done|by eapply lookup_lt_Some]). }
  exists (ops_in_layer st1), ks1, (ks1 ++ ks2).
  split_and!; [done..| | |done].
  - by rewrite <-Hlen1, take_app_length.
  - rewrite (layered_len_ops _ _ _ _ HL1).
    destruct (lookup_lt_is_Some_2 (ops_in_layer st1) (max_layer st1)) as [s1 Hs1].
    { rewrite (layered_len_ops _ _ _ _ HL1). lia. }
    destruct (Hsub _ _ Hs1) as (s & Hs & _). apply lookup_lt_Some in Hs. lia.
Qed.

Lemma appending_keeps_placement_witness :
  ∃ layers1 pl1 pl,
    drawable_layers 1000 [opA; opB] wm2 = Ok layers1
    ∧ op_layers 1000 [opA; opB] wm2 = Ok pl1
    ∧ op_layers 1000 ([opA; opB] ++ [opC]) wm2 = Ok pl
    ∧ pl1 = take (length [opA; opB]) pl
    ∧ length layers1 ≤ length [ ({[opA; opC]} : gset Operator); {[opB]} ]
    ∧ ∀ k s1, layers1 !! k = Some s1 →
        ∃ s, [ ({[opA; opC]} : gset Operator); {[opB]} ] !! k = Some s ∧ s1 ⊆ s.
Proof.
  apply (appending_keeps_placement 1000 [opA; opB] [opC] wm2). compute_done.
Defined.

(** A run of the loop that returns gives the result of [drawable_layers]. *)
Lemma loop_Ok_layers {depth : nat} (wire_map : gmap string nat) (ops : list Operator)
    (st : State) :
  foldM (loop_body depth wire_map) init_state ops = Ok st →
  ∃ layers pl, drawable_layers depth ops wire_map = Ok layers
             ∧ op_layers depth ops wire_map = Ok pl
             ∧ Placement wire_map ops layers pl.
Proof.
  intros Hrun.
  assert (drawable_layers depth ops wire_map = Ok (ops_in_layer st)) as Hlayers.
  { unfold drawable_layers. by rewrite Hrun. }
  destruct (drawable_layers_Ok _ _ _ Hlayers) as (pl & Htrace & HP).
  by exists (ops_in_layer st), pl.
Qed.

(** On operators no two of which conflict the loop stays in one layer, so
    one call of the search per operator is enough. *)
Lemma independent_loop_returns {depth : nat} (wire_map : gmap string nat)
    (ops : list Operator) :
  0 < depth → Forall (covered wire_map) ops →
  (∀ p q op_p op_q, p < q → ops !! p = Some op_p → ops !! q = Some op_q →
     ¬ conflict wire_map op_p op_q) →
  ∃ st, foldM (loop_body depth wire_map) init_state ops = Ok st.
Proof.
  intros Hd. induction ops as [|x l IH] using rev_ind; intros Hcov Hfree; [by eexists|].
  apply Forall_app in Hcov as [Hcov Hx]. rewrite Forall_singleton in Hx.
  destruct IH as [st Hrun]; [done| |].
  { intros p q op_p op_q Hpq Hp Hq.
    apply (Hfree p q); [done|by apply lookup_app_l_Some..]. }
  destruct (loop_run wire_map l init_state st [] []
              (Layered_init _) (Asap_init _) Dense_init Hrun)
    as (pl & _ & HL & HA & HD).
  simpl in HL, HA, HD.
  assert (max_layer st = 0) as Hmax.
  { destruct (decide (max_layer st = 0)) as [|Hpos]; [done|]. exfalso.
    destruct (HD (max_layer st)) as [q Hq]; [lia|].
    destruct (lookup_lt_is_Some_2 l q) as [op_q Hop].
    { rewrite <-(layered_len_pl _ _ _ _ HL). by eapply lookup_lt_Some. }
    destruct (asap_tight _ _ _ HA _ _ _ Hop Hq) as [?|(p & op_p & Hpq & Hp & _ & Hc)];
      [lia|].
    apply (Hfree p q op_p op_q); [done|by apply lookup_app_l_Some..|done]. }
  destruct (loop_body_enough (depth:=depth) _ _ _ _ x HL HA HD Hx) as [st' Hbody]; [lia|].
  exists st'. by rewrite foldM_snoc, Hrun.
Qed.

(** X7.  Operations no two of which conflict all go to layer 0: the result
    is the single layer holding every operation of the input.  One call of
    the search per operation is enough for that. *)
Theorem independent_operations_one_layer (depth : nat) (ops : list Operator)
    (wire_map : gmap string nat) :
  (ops ≠ [] → 0 < depth) →
  Forall (covered wire_map) ops →
  (∀ p q op_p op_q, p < q → ops !! p = Some op_p → ops !! q = Some op_q →
     ¬ conflict wire_map op_p op_q) →
  drawable_layers depth ops wire_map = Ok [list_to_set ops] ∧
  op_layers depth ops wire_map = Ok (replicate (length ops) 0).
Proof.
  intros Hd Hcov Hfree.
  destruct (decide (ops = [])) as [->|Hne]; [done|].
  destruct (independent_loop_returns _ _ (Hd Hne) Hcov Hfree) as [st Hst].
  destruct (loop_Ok_layers _ _ _ Hst) as (layers & pl & Hrun & Htrace & HP).

  assert (∀ q k, pl !! q = Some k → k = 0) as Hzero.
  { intros q k Hk.
    destruct (lookup_lt_is_Some_2 ops q) as [op_q Hq].
    { rewrite <-(placement_len _ _ _ _ HP). by eapply lookup_lt_Some. }
    destruct (asap_tight _ _ _ (placement_asap _ _ _ _ HP) _ _ _ Hq Hk)
      as [?|(p & op_p & Hpq & Hp & _ & Hc)]; [done|].
    by destruct (Hfree _ _ _ _ Hpq Hp Hq). }
  assert (length layers = 1) as Hone.
  { pose proof (placement_nonempty _ _ _ _ HP).
    destruct (decide (length layers ≤ 1)); [lia|].
    destruct (placement_dense _ _ _ _ HP 1) as [p Hp]; [lia|].
    apply Hzero in Hp. lia. }
  split.
  - rewrite Hrun. f_equal.
    destruct layers as [|s [|s' layers]]; simplify_eq/=. f_equal.
    apply set_eq. intros op.
    rewrite (placement_members _ _ _ _ HP 0 s eq_refl), elem_of_list_to_set.
    split.
    + intros (p & Hp & _). by eapply list_elem_of_lookup_2.
    + intros [p Hp]%list_elem_of_lookup. exists p. split; [done|].
      destruct (lookup_lt_is_Some_2 pl p) as [k Hk].
      { rewrite (placement_len _ _ _ _ HP). by eapply lookup_lt_Some. }
      by rewrite Hk, (Hzero _ _ Hk).
  - rewrite Htrace. f_equal. apply list_eq. intros q.
    destruct (pl !! q) as [k|] eqn:Hk.
    + rewrite (Hzero _ _ Hk). symmetry. apply lookup_replicate_2.
      rewrite <-(placement_len _ _ _ _ HP). by eapply lookup_lt_Some.
    + symmetry. apply lookup_replicate_None.
      apply lookup_ge_None in Hk. rewrite <-(placement_len _ _ _ _ HP). done.
Qed.

Lemma independent_operations_one_layer_witness :
  drawable_layers 1000 [opA; opC] wm2 = Ok [list_to_set [opA; opC]] ∧
  op_layers 1000 [opA; opC] wm2 = Ok (replicate (length [opA; opC]) 0).
Proof.
  apply (independent_operations_one_layer 1000 [opA; opC] wm2).
  - intros _. lia.
  - compute_done.
  - intros p q op_p op_q Hpq Hp Hq.
    destruct p as [|[|p]], q as [|[|q]]; simplify_eq/=; try lia.
    compute_done.
Defined.

(** In a chain of conflicts the operator at position [q] is in layer [q]. *)
Lemma chain_positions (wire_map : gmap string nat) (ops : list Operator)
    (pl : list nat) :
  Asap wire_map ops pl → length pl = length ops →
  (∀ q a b, ops !! q = Some a → ops !! S q = Some b → conflict wire_map a b) →
  ∀ q, q < length ops → pl !! q = Some q.
Proof.
  intros HA Hlen Hchain.
  pose proof (Asap_le_position _ _ _ HA Hlen) as Hle.
  induction q as [|q IH]; intros Hq.
  - destruct (lookup_lt_is_Some_2 pl 0) as [k Hk]; [lia|].
    pose proof (Hle _ _ Hk). rewrite Hk. f_equal. lia.
  - destruct (lookup_lt_is_Some_2 pl (S q)) as [k Hk]; [lia|].
    destruct (lookup_lt_is_Some_2 ops q) as [a Ha]; [lia|].
    destruct (lookup_lt_is_Some_2 ops (S q)) as [b Hb]; [lia|].
    pose proof (asap_after _ _ _ HA q (S q) a b q k ltac:(lia) Ha Hb
                  (IH ltac:(lia)) Hk (Hchain _ _ _ Ha Hb)).
    pose proof (Hle _ _ Hk). rewrite Hk. f_equal. lia.
Qed.

(** In a chain of conflicts every operator conflicts with the last layer, so
    one call of the search per operator is enough. *)
Lemma chain_loop_returns {depth : nat} (wire_map : gmap string nat)
    (ops : list Operator) :
  0 < depth → Forall (covered wire_map) ops →
  (∀ q a b, ops !! q = Some a → ops !! S q = Some b → conflict wire_map a b) →
  ∃ st, foldM (loop_body depth wire_map) init_state ops = Ok st.
Proof.
  intros Hd. induction ops as [|x l IH] using rev_ind; intros Hcov Hchain; [by eexists|].
  apply Forall_app in Hcov as [Hcov Hx]. rewrite Forall_singleton in Hx.
  destruct IH as [st Hrun]; [done| |].
  { intros q a b Ha Hb. apply (Hchain q); by apply lookup_app_l_Some. }
  destruct (loop_run wire_map l init_state st [] []
              (Layered_init _) (Asap_init _) Dense_init Hrun)
    as (pl & _ & HL & HA & HD).
  simpl in HL, HA, HD.
  destruct (proj1 (op_occupied_wires_covered wire_map x) Hx) as [occ Hocc].
  assert (∃ r, _recursive_find_layer depth (max_layer st) occ
                 (occupied_wires_per_layer st) = Ok r) as [r Hr].
  { apply find_layer_returns; [rewrite (layered_len_occ _ _ _ _ HL); lia|].
    destruct (decide (l = [])) as [->|Hne].
    { left. injection Hrun as <-. simpl. lia. }
    right. exists (max_layer st). split_and!; [lia..|].
    rewrite <-(occ_of_Ok _ _ _ Hocc). eapply conflicts_at_iff; [done|].
    assert (length l ≠ 0) as Hlen by (by destruct l).
    pose proof (layered_len_pl _ _ _ _ HL) as Hlenpl.
    assert (∀ q, q < length l → pl !! q = Some q) as Hpl.
    { apply (chain_positions wire_map l); [done..|].
      intros q a b Ha Hb. apply (Hchain q); by apply lookup_app_l_Some. }
    assert (max_layer st = length l - 1) as Hmax.
    { pose proof (layered_bound _ _ _ _ HL _ _ (Hpl (length l - 1) ltac:(lia))).
      destruct (decide (max_layer st ≤ length l - 1)); [lia|].
      destruct (HD (max_layer st)) as [p Hp]; [lia|].
      pose proof (lookup_lt_Some _ _ _ Hp) as Hlt. rewrite Hlenpl in Hlt.
      rewrite (Hpl p Hlt) in Hp. injection Hp as Hp. lia. }
    destruct (lookup_lt_is_Some_2 l (length l - 1)) as [a Ha]; [lia|].
    exists (length l - 1), a. split_and!; [done|rewrite Hmax; apply Hpl; lia|].
    apply (Hchain (length l - 1) a x); [by apply lookup_app_l_Some|].
    replace (S (length l - 1)) with (length l) by lia. apply list_lookup_middle. done. }
  destruct (loop_body_place _ _ _ _ _ _ _ HL HA HD Hocc Hr) as (st' & _ & Hbody & _).
  exists st'. by rewrite foldM_snoc, Hrun.
Qed.

(** X8.  When every operation conflicts with the one just before it, the
    operations get one layer each, in input order.  One call of the search
    per operation is enough for that. *)
Theorem conflict_chain_one_layer_each (depth : nat) (ops : list Operator)
    (wire_map : gmap string nat) :
  0 < depth →
  Forall (covered wire_map) ops → ops ≠ [] →
  (∀ q a b, ops !! q = Some a → ops !! S q = Some b → conflict wire_map a b) →
  drawable_layers depth ops wire_map = Ok ((λ op, {[op]}) <$> ops) ∧
  op_layers depth ops wire_map = Ok (seq 0 (length ops)).
Proof.
  intros Hd Hcov Hne Hchain.
  destruct (chain_loop_returns _ _ Hd Hcov Hchain) as [st Hst].
  destruct (loop_Ok_layers _ _ _ Hst) as (layers & pl & Hrun & Htrace & HP).
  pose proof (placement_len _ _ _ _ HP) as Hlen.
  pose proof (placement_asap _ _ _ _ HP) as HA.
  pose proof (Asap_le_position _ _ _ HA Hlen) as Hle.
  pose proof (chain_positions _ _ _ HA Hlen Hchain) as Hpl.

  assert (length layers = length ops) as Hcount.
  { assert (length ops ≠ 0) by (by destruct ops).
    pose proof (placement_bound _ _ _ _ HP _ _ (Hpl (length ops - 1) ltac:(lia))).
    destruct (decide (length layers ≤ length ops)); [lia|].
    destruct (placement_dense _ _ _ _ HP (length layers - 1)) as [p Hp]; [lia|].
    pose proof (Hle _ _ Hp). apply lookup_lt_Some in Hp. lia. }
  split.
  - rewrite Hrun. f_equal. apply list_eq. intros k.
    rewrite list_lookup_fmap.
    destruct (layers !! k) as [s|] eqn:Hs.
    + destruct (lookup_lt_is_Some_2 ops k) as [op Hop].
      { rewrite <-Hcount. by eapply lookup_lt_Some. }
      rewrite Hop. simpl. f_equal. apply set_eq. intros op'.
      rewrite (placement_members _ _ _ _ HP _ _ Hs), elem_of_singleton. split.
      * intros (p & Hp & Hk). rewrite Hpl in Hk by (by eapply lookup_lt_Some).
        congruence.
      * intros ->. exists k. split; [done|]. apply Hpl. by eapply lookup_lt_Some.
    + apply lookup_ge_None in Hs. rewrite Hcount in Hs.
      apply lookup_ge_None in Hs. by rewrite Hs.
  - rewrite Htrace. f_equal. apply list_eq. intros q.
    destruct (decide (q < length ops)) as [Hq|Hq].
    + by rewrite Hpl, lookup_seq_lt.
    + rewrite lookup_seq_ge by lia. apply lookup_ge_None. lia.
Qed.

Lemma conflict_chain_one_layer_each_witness :
  drawable_layers 1000 [opA; opB; opD] wm2 = Ok ((λ op, {[op]}) <$> [opA; opB; opD]) ∧
  op_layers 1000 [opA; opB; opD] wm2 = Ok (seq 0 (length [opA; opB; opD])).
Proof.
  apply (conflict_chain_one_layer_each 1000 [opA; opB; opD] wm2).
  - lia.
  - compute_done.
  - done.
  - intros [|[|[|q]]] a b Ha Hb; simplify_eq/=; compute_done.
Defined.

Lemma lookup_app_two {A} (l : list A) (x y z : A) (p : nat) :
  (l ++ [x; y]) !! p = Some z ↔
  (p < length l ∧ l !! p = Some z) ∨ (p = length l ∧ z = x)
  ∨ (p = S (length l) ∧ z = y).
Proof.
  rewrite lookup_app_Some. split.
  - intros [Hl|[Hge Hxy]].
    + left. split; [by eapply lookup_lt_Some|done].
    + right. destruct (p - length l) as [|[|n]] eqn:Hn; simplify_eq/=.
      * left. split; [lia|done].
      * right. split; [lia|done].
  - intros [[_ Hl]|[[-> ->]|[-> ->]]]; [by left|right..].
    + split; [lia|]. by rewrite Nat.sub_diag.
    + split; [lia|]. by replace (S (length l) - length l) with 1 by lia.
Qed.

(** Exchanging the last two operators, when they do not conflict, exchanges
    their layers and nothing else. *)
Lemma Asap_swap_tail (wire_map : gmap string nat) (l : list Operator)
    (pl : list nat) (a b : Operator) (ka kb : nat) :
  length pl = length l → ¬ conflict wire_map a b →
  Asap wire_map (l ++ [a; b]) (pl ++ [ka; kb]) →
  Asap wire_map (l ++ [b; a]) (pl ++ [kb; ka]).
Proof.
  intros Hlen Hfree [Hafter Htight].
  assert (∀ p op k, p < length l → l !! p = Some op → pl !! p = Some k →
            (l ++ [a; b]) !! p = Some op ∧ (pl ++ [ka; kb]) !! p = Some k) as Hold.
  { intros p op k Hp Hop Hk. split; apply lookup_app_two; left; split; (done || lia). }
  assert ((l ++ [a; b]) !! length l = Some a
          ∧ (pl ++ [ka; kb]) !! length l = Some ka) as [Ha Hka].
  { split; apply lookup_app_two; right; left; split; (done || lia). }
  assert ((l ++ [a; b]) !! S (length l) = Some b
          ∧ (pl ++ [ka; kb]) !! S (length l) = Some kb) as [Hb Hkb].
  { split; apply lookup_app_two; right; right; split; (done || lia). }
  split.
  - intros p q op_p op_q kp kq Hpq Hp Hq Hkp Hkq Hc.
    apply lookup_app_two in Hp as [[Hp1 Hp]|[[-> ->]|[-> ->]]];
      apply lookup_app_two in Hq as [[Hq1 Hq]|[[-> ->]|[-> ->]]];
      apply lookup_app_two in Hkp as [[Hkp1 Hkp]|[[Hkp1 ->]|[Hkp1 ->]]];
      apply lookup_app_two in Hkq as [[Hkq1 Hkq]|[[Hkq1 ->]|[Hkq1 ->]]];
      try lia.
    + destruct (Hold _ _ _ Hp1 Hp Hkp), (Hold _ _ _ Hq1 Hq Hkq).
      by eapply (Hafter p q).
    + destruct (Hold _ _ _ Hp1 Hp Hkp).
      eapply (Hafter p (S (length l))); [lia|done..].
    + destruct (Hold _ _ _ Hp1 Hp Hkp).
      by eapply (Hafter p (length l)).
    + by apply conflict_sym in Hc.
  - intros q op_q kq Hq Hkq.
    apply lookup_app_two in Hq as [[Hq1 Hq]|[[-> ->]|[-> ->]]];
      apply lookup_app_two in Hkq as [[Hkq1 Hkq]|[[Hkq1 ->]|[Hkq1 ->]]];
      try lia.
    + destruct (Hold _ _ _ Hq1 Hq Hkq) as [Hq' Hkq'].
      destruct (Htight _ _ _ Hq' Hkq') as [?|(p & op_p & Hpq & Hp & Hkp & Hc)];
        [by left|right].
      apply lookup_app_two in Hp as [[Hp1 Hp]|[[-> ->]|[-> ->]]]; try lia.
      apply lookup_app_two in Hkp as [[_ Hkp]|[[? _]|[? _]]]; try lia.
      exists p, op_p. split_and!; [done| | |done];
        apply lookup_app_two; left; split; (done || lia).
    + destruct (Htight _ _ _ Hb Hkb) as [?|(p & op_p & Hpq & Hp & Hkp & Hc)];
        [by left|right].
      apply lookup_app_two in Hp as [[Hp1 Hp]|[[-> ->]|[-> ->]]]; try lia; [|done].
      apply lookup_app_two in Hkp as [[_ Hkp]|[[? _]|[? _]]]; try lia.
      exists p, op_p. split_and!; [lia| | |done];
        apply lookup_app_two; left; split; (done || lia).
    + destruct (Htight _ _ _ Ha Hka) as [?|(p & op_p & Hpq & Hp & Hkp & Hc)];
        [by left|right].
      apply lookup_app_two in Hp as [[Hp1 Hp]|[[-> ->]|[-> ->]]]; try lia.
      apply lookup_app_two in Hkp as [[_ Hkp]|[[? _]|[? _]]]; try lia.
      exists p, op_p. split_and!; [lia| | |done];
        apply lookup_app_two; left; split; (done || lia).
Qed.

(** A state is determined by which operator was placed in which layer. *)
Lemma Layered_ext (wire_map : gmap string nat) (st st' : State)
    (seen seen' : list Operator) (pl pl' : list nat) :
  Layered wire_map st seen pl → Dense st pl →
  Layered wire_map st' seen' pl' → Dense st' pl' →
  (∀ op k, (∃ p, seen !! p = Some op ∧ pl !! p = Some k) ↔
           (∃ p, seen' !! p = Some op ∧ pl' !! p = Some k)) →
  st = st'.
Proof.
  intros HL HD HL' HD' Hsame.
  assert (∀ st1 seen1 pl1 st2 seen2 pl2,
            Layered wire_map st1 seen1 pl1 → Layered wire_map st2 seen2 pl2 →
            Dense st2 pl2 →
            (∀ op k, (∃ p, seen2 !! p = Some op ∧ pl2 !! p = Some k) →
                     (∃ p, seen1 !! p = Some op ∧ pl1 !! p = Some k)) →
            max_layer st2 ≤ max_layer st1) as Hmax.
  { intros st1 seen1 pl1 st2 seen2 pl2 H1 H2 HD2 Himp.
    destruct (decide (max_layer st2 = 0)) as [|Hpos]; [lia|].
    destruct (HD2 (max_layer st2)) as [p Hp]; [lia|].
    destruct (lookup_lt_is_Some_2 seen2 p) as [op Hop].
    { rewrite <-(layered_len_pl _ _ _ _ H2). by eapply lookup_lt_Some. }
    destruct (Himp op (max_layer st2)) as (p1 & _ & Hp1); [by exists p|].
    by eapply layered_bound. }
  assert (max_layer st = max_layer st') as Heq.
  { apply Nat.le_antisymm.
    - eapply (Hmax st' seen' pl' st seen pl); try done. intros op k. apply Hsame.
    - eapply (Hmax st seen pl st' seen' pl'); try done. intros op k. apply Hsame. }
  assert (ops_in_layer st = ops_in_layer st') as Hops.
  { apply list_eq. intros k.
    destruct (ops_in_layer st !! k) as [s|] eqn:Hs.
    - destruct (lookup_lt_is_Some_2 (ops_in_layer st') k) as [s' Hs'].
      { rewrite (layered_len_ops _ _ _ _ HL'), <-Heq, <-(layered_len_ops _ _ _ _ HL).
        by eapply lookup_lt_Some. }
      rewrite Hs'. f_equal. apply set_eq. intros op.
      rewrite (layered_ops _ _ _ _ HL _ _ Hs), (layered_ops _ _ _ _ HL' _ _ Hs').
      apply Hsame.
    - symmetry. apply lookup_ge_None. apply lookup_ge_None in Hs.
      rewrite (layered_len_ops _ _ _ _ HL'), <-Heq, <-(layered_len_ops _ _ _ _ HL).
      done. }
  assert (occupied_wires_per_layer st = occupied_wires_per_layer st') as Hoccs.
  { apply list_eq. intros k.
    destruct (occupied_wires_per_layer st !! k) as [o|] eqn:Ho.
    - destruct (lookup_lt_is_Some_2 (occupied_wires_per_layer st') k) as [o' Ho'].
      { rewrite (layered_len_occ _ _ _ _ HL'), <-Heq, <-(layered_len_occ _ _ _ _ HL).
        by eapply lookup_lt_Some. }
      rewrite Ho'. f_equal. apply set_eq. intros x.
      rewrite (layered_occ _ _ _ _ HL _ _ Ho), (layered_occ _ _ _ _ HL' _ _ Ho').
      split.
      + intros (p & op & Hp & Hk & Hx).
        destruct (proj1 (Hsame op k)) as (p' & Hp' & Hk'); [by exists p|].
        by exists p', op.
      + intros (p & op & Hp & Hk & Hx).
        destruct (proj2 (Hsame op k)) as (p' & Hp' & Hk'); [by exists p|].
        by exists p', op.
    - symmetry. apply lookup_ge_None. apply lookup_ge_None in Ho.
      rewrite (layered_len_occ _ _ _ _ HL'), <-Heq, <-(layered_len_occ _ _ _ _ HL).
      done. }
  destruct st, st'. simpl in *. by subst.
Qed.

Lemma loop_body_Ok_covered {depth : nat} (wire_map : gmap string nat) (st st' : State)
    (op : Operator) :
  loop_body depth wire_map st op = Ok st' → ∃ occ, op_occupied_wires wire_map op = Ok occ.
Proof.
  unfold loop_body. intros ([occ k] & Hfind & _)%bind_Ok.
  unfold find_op_layer in Hfind. apply bind_Ok in Hfind as (occ' & Hocc & _).
  by exists occ'.
Qed.

(** Two neighbours that do not conflict, processed in either order, lead to
    the same state. *)
Lemma loop_body_swap {depth : nat} (wire_map : gmap string nat)
    (st st_a st_ab st_b st_ba : State)
    (seen : list Operator) (pl : list nat) (a b : Operator) :
  Layered wire_map st seen pl → Asap wire_map seen pl → Dense st pl →
  ¬ conflict wire_map a b →
  loop_body depth wire_map st a = Ok st_a → loop_body depth wire_map st_a b = Ok st_ab →
  loop_body depth wire_map st b = Ok st_b → loop_body depth wire_map st_b a = Ok st_ba →
  st_ba = st_ab.
Proof.
  intros HL HA HD Hfree Ha Hb Hb1 Ha1.
  destruct (loop_body_step _ _ _ _ _ _ HL HA HD Ha)
    as (occ_a & ka & _ & _ & _ & HL1 & HA1 & HD1).
  destruct (loop_body_step _ _ _ _ _ _ HL1 HA1 HD1 Hb)
    as (occ_b & kb & _ & _ & _ & HL2 & HA2 & HD2).
  destruct (loop_body_step _ _ _ _ _ _ HL HA HD Hb1)
    as (occ_b' & kb' & _ & _ & _ & HL3 & HA3 & HD3).
  destruct (loop_body_step _ _ _ _ _ _ HL3 HA3 HD3 Ha1)
    as (occ_a' & ka' & _ & _ & _ & HL4 & HA4 & HD4).
  pose proof (layered_len_pl _ _ _ _ HL) as Hlen.
  rewrite <-(app_assoc seen), <-(app_assoc pl) in HL2, HA2, HL4, HA4.
  rewrite <-(app_assoc pl) in HD2, HD4. simpl in *.
  pose proof (Asap_swap_tail _ _ _ _ _ _ _ Hlen Hfree HA2) as HAswap.
  assert (pl ++ [kb'; ka'] = pl ++ [kb; ka]) as Heq.
  { apply (Asap_unique wire_map (seen ++ [b; a])); [done..| |];
      rewrite !length_app; simpl; lia. }
  apply app_inv_head in Heq. injection Heq as -> ->.
  eapply Layered_ext; [exact HL4|exact HD4|exact HL2|exact HD2|].
  intros op k. split.
  - intros (p & Hp & Hk).
    apply lookup_app_two in Hp as [[Hp1 Hp]|[[-> ->]|[-> ->]]];
      apply lookup_app_two in Hk as [[Hk1 Hk]|[[Hk1 ->]|[Hk1 ->]]]; try lia.
    + exists p. split; apply lookup_app_two; left; split; (done || lia).
    + exists (S (length seen)).
      split; apply lookup_app_two; right; right; split; (done || lia).
    + exists (length seen).
      split; apply lookup_app_two; right; left; split; (done || lia).
  - intros (p & Hp & Hk).
    apply lookup_app_two in Hp as [[Hp1 Hp]|[[-> ->]|[-> ->]]];
      apply lookup_app_two in Hk as [[Hk1 Hk]|[[Hk1 ->]|[Hk1 ->]]]; try lia.
    + exists p. split; apply lookup_app_two; left; split; (done || lia).
    + exists (S (length seen)).
      split; apply lookup_app_two; right; right; split; (done || lia).
    + exists (length seen).
      split; apply lookup_app_two; right; left; split; (done || lia).
Qed.

(** X9.  Exchanging two neighbouring operations that do not conflict does
    not change the layers: whatever [drawable_layers] returns on the
    exchanged input is what it returned on the original one.  On the
    exchanged input the two operations may be searched from one layer
    higher, so the call returns when the search is allowed two more nested
    calls than there are operations before the pair. *)
Theorem swap_independent_neighbours (depth : nat) (l1 l2 : list Operator) (a b : Operator)
    (wire_map : gmap string nat) (layers : list (gset Operator)) :
  ¬ conflict wire_map a b →
  drawable_layers depth (l1 ++ a :: b :: l2) wire_map = Ok layers →
  (∀ layers', drawable_layers depth (l1 ++ b :: a :: l2) wire_map = Ok layers' →
     layers' = layers) ∧
  (length l1 + 2 ≤ depth →
   drawable_layers depth (l1 ++ b :: a :: l2) wire_map = Ok layers).
Proof.
  intros Hfree. unfold drawable_layers. rewrite !foldM_app.
  intros (st_end & (st & Hst & Hrest)%bind_Ok & [= <-])%bind_Ok.
  simpl in Hrest.
  apply bind_Ok in Hrest as (st_a & Ha & (st_ab & Hb & Hl2)%bind_Ok).
  destruct (reachable_Layered _ _ _ Hst) as (pl & HL & HA & HD).
  rewrite Hst. simpl. split.
  - intros layers' (st_end' & Hrest' & [= <-])%bind_Ok.
    apply bind_Ok in Hrest' as (st_b & Hb' & (st_ba & Ha' & Hl2')%bind_Ok).
    rewrite (loop_body_swap _ _ _ _ _ _ _ _ _ _ HL HA HD Hfree Ha Hb Hb' Ha') in Hl2'.
    congruence.
  - intros Hdepth.
    destruct (loop_body_Ok_covered _ _ _ _ Ha) as [occ_a Hocc_a].
    destruct (loop_body_Ok_covered _ _ _ _ Hb) as [occ_b Hocc_b].
    pose proof (max_layer_le_seen _ _ _ _ HL HA HD) as Hmax.
    destruct (loop_body_enough (depth:=depth) _ _ _ _ b HL HA HD) as [st_b Hb'];
      [apply op_occupied_wires_covered; by eexists|lia|].
    destruct (loop_body_step _ _ _ _ _ _ HL HA HD Hb')
      as (occ_b' & kb & _ & _ & _ & HL3 & HA3 & HD3).
    pose proof (max_layer_le_seen _ _ _ _ HL3 HA3 HD3) as Hmax3.
    rewrite length_app in Hmax3. simpl in Hmax3.
    destruct (loop_body_enough (depth:=depth) _ _ _ _ a HL3 HA3 HD3) as [st_ba Ha'];
      [apply op_occupied_wires_covered; by eexists|lia|].
    rewrite Hb'. simpl. rewrite Ha'. simpl.
    rewrite (loop_body_swap _ _ _ _ _ _ _ _ _ _ HL HA HD Hfree Ha Hb Hb' Ha').
    by rewrite Hl2.
Qed.

Lemma swap_independent_neighbours_witness :
  (∀ layers', drawable_layers 1000 ([opA] ++ opC :: opB :: [opD]) wm2 = Ok layers' →
     layers' = [ {[opA; opC]}; {[opB]}; {[opD]} ]) ∧
  (length [opA] + 2 ≤ 1000 →
   drawable_layers 1000 ([opA] ++ opC :: opB :: [opD]) wm2
   = Ok [ {[opA; opC]}; {[opB]}; {[opD]} ]).
Proof.
  apply (swap_independent_neighbours 1000 [opA] [opD] opB opC wm2);
    compute_done.
Defined.

(** X15.  When the wire map is not empty, an operation without wires is the
    only member of its layer: every operation before it lies in an earlier
    layer and every operation after it in a later one, whether or not a wire
    was occupied when it was reached. *)
Theorem broadcast_alone (depth : nat) (ops : list Operator) (wire_map : gmap string nat)
    (layers : list (gset Operator)) (p : nat) (B : Operator) :
  drawable_layers depth ops wire_map = Ok layers →
  ops !! p = Some B → wires B = [] → wire_map ≠ ∅ →
  ∃ pl k, op_layers depth ops wire_map = Ok pl ∧ pl !! p = Some k
    ∧ layers !! k = Some {[B]}
    ∧ (∀ q kq, q < p → pl !! q = Some kq → kq < k)
    ∧ (∀ q kq, p < q → pl !! q = Some kq → k < kq).
Proof.
  intros Hrun Hp HB Hwm.
  destruct (drawable_layers_Ok _ _ _ Hrun) as (pl & Htrace & HP).
  destruct (placement_member _ _ _ _ _ _ HP Hp) as (k & s & Hk & Hs & Hin).
  assert (∃ y, y ∈ (map_img wire_map : gset nat)) as [y Hy].
  { apply set_choose_L. by rewrite map_img_empty_iff_L. }
  assert (occ_of wire_map B = map_img wire_map) as HoccB.
  { apply occ_of_Ok. by apply op_occupied_wires_broadcast. }
  assert (∀ q N, ops !! q = Some N → conflict wire_map B N) as Hconf.
  { intros q N HN.
    pose proof (placement_covered _ _ _ _ HP) as Hcov.
    rewrite Forall_forall in Hcov.
    destruct (proj1 (op_occupied_wires_covered wire_map N)) as [oN HoN].
    { apply Hcov. by eapply list_elem_of_lookup_2. }
    unfold conflict. rewrite HoccB, (occ_of_Ok _ N oN) by done.
    destruct (decide (wires N = [])) as [HNnil|HNwires].
    - rewrite op_occupied_wires_broadcast in HoN by done. injection HoN as <-.
      apply (non_empty_inhabited_L y). by apply elem_of_intersection.
    - destruct (occupied_meets_img _ _ _ HoN) as (z & Hz & Hzimg).
      { by eapply occupied_nonempty. }
      apply (non_empty_inhabited_L z). by apply elem_of_intersection. }
  pose proof (placement_asap _ _ _ _ HP) as HA.
  assert (∀ q kq, q < p → pl !! q = Some kq → kq < k) as Hbefore.
  { intros q kq Hq Hkq.
    destruct (lookup_lt_is_Some_2 ops q) as [N HN].
    { rewrite <-(placement_len _ _ _ _ HP). by eapply lookup_lt_Some. }
    eapply (asap_after _ _ _ HA q p); try done.
    apply conflict_sym. by eapply Hconf. }
  assert (∀ q kq, p < q → pl !! q = Some kq → k < kq) as Hafter.
  { intros q kq Hq Hkq.
    destruct (lookup_lt_is_Some_2 ops q) as [N HN].
    { rewrite <-(placement_len _ _ _ _ HP). by eapply lookup_lt_Some. }
    eapply (asap_after _ _ _ HA p q); try done. by eapply Hconf. }
  exists pl, k. split_and!; try done.
  rewrite Hs. f_equal. apply set_eq. intros op.
  rewrite (placement_members _ _ _ _ HP _ _ Hs), elem_of_singleton. split.
  - intros (q & Hq & Hkq).
    destruct (Nat.lt_total q p) as [Hlt|[->|Hlt]].
    + pose proof (Hbefore _ _ Hlt Hkq). lia.
    + congruence.
    + pose proof (Hafter _ _ Hlt Hkq). lia.
  - intros ->. by exists p.
Qed.

Lemma broadcast_alone_witness :
  ∃ pl k, op_layers 1000 [opS; opA; opC] wm2 = Ok pl ∧ pl !! 0 = Some k
    ∧ [ ({[opS]} : gset Operator); {[opA; opC]} ] !! k = Some {[opS]}
    ∧ (∀ q kq, q < 0 → pl !! q = Some kq → kq < k)
    ∧ (∀ q kq, 0 < q → pl !! q = Some kq → k < kq).
Proof.
  apply (broadcast_alone 1000 [opS; opA; opC] wm2 _ 0 opS); compute_done.
Defined.

(** X10.  With no nested call allowed the search raises [RecursionError].
    Otherwise it raises [IndexError] when [layer_to_check] is not an index of
    the list of layers.  On an index of the list it returns when it is
    allowed [layer_to_check + 1] nested calls; what it returns is a layer no
    greater than [layer_to_check + 1], and layer 0 for an operation that
    occupies no wire; and what it raises is [RecursionError], which needs
    [depth ≤ layer_to_check]. *)
Theorem find_layer_bounds (depth : nat) (layer_to_check : nat) (occ : gset nat)
    (occs : list (gset nat)) :
  (depth = 0 →
   _recursive_find_layer depth layer_to_check occ occs = Raise RecursionError) ∧
  (0 < depth → length occs ≤ layer_to_check →
   _recursive_find_layer depth layer_to_check occ occs = Raise IndexError) ∧
  (layer_to_check < length occs →
   (layer_to_check < depth →
    ∃ r, _recursive_find_layer depth layer_to_check occ occs = Ok r) ∧
   (∀ r, _recursive_find_layer depth layer_to_check occ occs = Ok r →
      r ≤ layer_to_check + 1 ∧ (occ = ∅ → r = 0)) ∧
   (∀ e, _recursive_find_layer depth layer_to_check occ occs = Raise e →
      e = RecursionError ∧ depth ≤ layer_to_check)).
Proof.
  split_and!.
  - by intros ->.
  - intros Hd Hge. apply lookup_ge_None in Hge.
    destruct depth as [|d]; [lia|]. simpl. by rewrite Hge.
  - intros Hlt. split_and!.
    + by apply find_layer_enough.
    + intros r Hr. destruct (find_layer_Ok _ _ _ _ _ Hr) as (_ & Hle & _ & Hstop).
      split; [done|].
      intros ->. destruct Hstop as [?|(o & _ & Hc)]; [done|].
      exfalso. apply Hc. apply (right_absorb_L ∅ (∩)).
    + intros e. by apply find_layer_Raise.
Qed.

Lemma find_layer_bounds_witness :
  (∃ r, _recursive_find_layer 1000 1 {[0]} [ {[0]}; {[1]} ] = Ok r) ∧
  _recursive_find_layer 1000 2 {[0]} [ {[0]}; {[1]} ] = Raise IndexError ∧
  _recursive_find_layer 0 1 {[0]} [ {[0]}; {[1]} ] = Raise RecursionError.
Proof.
  split_and!.
  - apply (find_layer_bounds 1000 1 {[0]} [ {[0]}; {[1]} ]); simpl; lia.
  - apply (find_layer_bounds 1000 2 {[0]} [ {[0]}; {[1]} ]); simpl; lia.
  - by apply (find_layer_bounds 0 1 {[0]} [ {[0]}; {[1]} ]).
Defined.

(** ** Further properties of the grid *)

(** On a grid of empty cells, a cell that holds an operator was assigned
    it. *)
Lemma apply_writes_cells_sound (grid : Grid) (n m : nat)
    (ws : list (nat * nat * Operator)) :
  shape grid n m →
  (∀ r c x, cell grid r c = Some x → x = None) →
  ∀ g', apply_writes grid ws = Ok g' →
  ∀ r c op, cell g' r c = Some (Some op) → (r, c, op) ∈ ws.
Proof.
  intros Hshape Hempty.
  induction ws as [|[[r0 c0] op0] ws IH] using rev_ind; intros g' Hrun r c op Hcell.
  - injection Hrun as <-. by apply Hempty in Hcell.
  - unfold apply_writes in Hrun. rewrite foldM_snoc in Hrun.
    apply bind_Ok in Hrun as (g1 & Hg1 & Hset). simpl in Hset.
    destruct (apply_writes_Ok_inv _ _ _ _ _ Hshape Hg1) as [Hshape1 _].
    destruct (set_cell_Ok_inv _ _ _ _ _ _ _ Hshape1 Hset) as (_ & _ & _ & Hcells).
    rewrite Hcells in Hcell. apply elem_of_app. case_decide as Heq.
    + destruct Heq as [-> ->]. injection Hcell as ->.
      right. by apply list_elem_of_singleton.
    + left. by eapply IH.
Qed.

Lemma cell_no_columns (n r c : nat) : cell (replicate n []) r c = None.
Proof.
  unfold cell. destruct (replicate n [] !! r) as [row|] eqn:Hrow; [|done].
  apply lookup_replicate in Hrow as [-> _]. done.
Qed.

Lemma placement_layer_inhabited (wire_map : gmap string nat) (ops : list Operator)
    (layers : list (gset Operator)) (pl : list nat) (k : nat) (s : gset Operator) :
  Placement wire_map ops layers pl → ops ≠ [] →
  layers !! k = Some s → ∃ op, op ∈ s.
Proof.
  intros HP Hne Hs.
  assert (∃ p, pl !! p = Some k) as [p Hp].
  { destruct (decide (k = 0)) as [->|Hk].
    - exists 0. destruct (lookup_lt_is_Some_2 pl 0) as [k0 Hk0].
      { rewrite (placement_len _ _ _ _ HP). destruct ops; [done|simpl; lia]. }
      pose proof (Asap_le_position _ _ _ (placement_asap _ _ _ _ HP)
                    (placement_len _ _ _ _ HP) _ _ Hk0).
      rewrite Hk0. f_equal. lia.
    - apply (placement_dense _ _ _ _ HP). apply lookup_lt_Some in Hs. lia. }
  destruct (lookup_lt_is_Some_2 ops p) as [op Hop].
  { rewrite <-(placement_len _ _ _ _ HP). by eapply lookup_lt_Some. }
  exists op. apply (placement_members _ _ _ _ HP _ _ Hs). by exists p.
Qed.

Section grid_further.
Variable set_iter : gset Operator → list Operator.
Hypothesis set_iter_perm : ∀ s, set_iter s ≡ₚ elements s.

(** Once the layers are returned, the grid is not returned exactly when some
    wire has an index that is not a row of the grid. *)
Lemma grid_Raise_layers {depth : nat} (ops : list Operator) (wire_map : gmap string nat)
    (layers : list (gset Operator)) :
  drawable_layers depth ops wire_map = Ok layers →
  ((∃ e, drawable_grid set_iter depth ops wire_map = Raise e) ↔
   ∃ op w i, op ∈ ops ∧ w ∈ wires op ∧ wire_map !! w = Some i
           ∧ size wire_map ≤ i) ∧
  (∀ e, drawable_grid set_iter depth ops wire_map = Raise e → e = IndexError).
Proof.
  intros Hrun.
  destruct (drawable_layers_Ok _ _ _ Hrun) as (pl & _ & HP).
  destruct (decide (ops = [])) as [->|Hne].
  { unfold drawable_grid. simpl. split.
    - split.
      + intros [e He]. by case_decide.
      + by intros (op & w & i & ?%elem_of_nil & _).
    - intros e He. by case_decide. }
  rewrite (drawable_grid_writes set_iter set_iter_perm _ _ _ Hne Hrun).
  split; [split|].
  - intros [e [_ Hout]%(apply_writes_Raise _ _ _ _ _ (shape_replicate _ _))].
    apply not_Forall_Exists in Hout; [|apply _].
    apply Exists_exists in Hout as ([[r c] op] & Hw & Hbad). simpl in Hbad.
    pose proof (grid_writes_columns _ set_iter_perm _ _ _ _ _ _ Hw) as Hc.
    apply elem_of_grid_writes in Hw as (k & s & Hs & _ & Hop & Hr); [|done].
    apply elem_of_op_rows in Hr as [[_ Hr]|(w & Hw & Hlk)].
    { exfalso. apply Hbad. by split. }
    exists op, w, r. split_and!; [|done..|].
    + apply (placement_members _ _ _ _ HP _ _ Hs) in Hop as (p & Hp & _).
      by eapply list_elem_of_lookup_2.
    + destruct (decide (size wire_map ≤ r)); [done|].
      exfalso. apply Hbad. split; [lia|done].
  - intros (op & w & i & [p Hp]%list_elem_of_lookup & Hw & Hlk & Hi).
    destruct (placement_member _ _ _ _ _ _ HP Hp) as (k & s & _ & Hs & Hin).
    assert ((i, k, op) ∈ grid_writes set_iter wire_map (size wire_map) 0 layers)
      as Hwrite.
    { apply elem_of_grid_writes; [done|]. exists k, s. split_and!; [done..|].
      apply elem_of_op_rows. right. by exists w. }
    destruct (apply_writes _ _) as [g|e] eqn:Hgrid; [|by exists e].
    apply (apply_writes_Ok_inv _ _ _ _ _ (shape_replicate _ _)) in Hgrid as [_ Hin_range].
    rewrite Forall_forall in Hin_range.
    destruct (Hin_range _ Hwrite) as [Hlt _]. simpl in Hlt. lia.
  - intros e Hgrid.
    by apply (apply_writes_Raise _ _ _ _ _ (shape_replicate _ _)) in Hgrid as [? _].
Qed.

(** X11.  [drawable_grid] raises [IndexError] only after [drawable_layers]
    has returned, and only when some operation has a wire whose index is not
    below the number of entries of the wire map; with such a wire it never
    returns a grid.  When every wire label is a key of the wire map it
    raises nothing but [IndexError] and the [RecursionError] of
    [drawable_layers].  When [drawable_layers] returns, and so when the
    labels are keys and the search is allowed as many nested calls as there
    are operations, [drawable_grid] raises exactly when there is such a
    wire, and what it raises is [IndexError]. *)
Theorem grid_IndexError (depth : nat) (ops : list Operator) (wire_map : gmap string nat) :
  (drawable_grid set_iter depth ops wire_map = Raise IndexError →
   (∃ layers, drawable_layers depth ops wire_map = Ok layers) ∧
   ∃ op w i, op ∈ ops ∧ w ∈ wires op ∧ wire_map !! w = Some i
           ∧ size wire_map ≤ i) ∧
  ((∃ op w i, op ∈ ops ∧ w ∈ wires op ∧ wire_map !! w = Some i
            ∧ size wire_map ≤ i) →
   ∃ e, drawable_grid set_iter depth ops wire_map = Raise e) ∧
  (Forall (covered wire_map) ops →
   ∀ e, drawable_grid set_iter depth ops wire_map = Raise e →
     e = IndexError
     ∨ (e = RecursionError
        ∧ drawable_layers depth ops wire_map = Raise RecursionError)) ∧
  (∀ layers, drawable_layers depth ops wire_map = Ok layers →
     ((∃ e, drawable_grid set_iter depth ops wire_map = Raise e) ↔
      ∃ op w i, op ∈ ops ∧ w ∈ wires op ∧ wire_map !! w = Some i
              ∧ size wire_map ≤ i) ∧
     (∀ e, drawable_grid set_iter depth ops wire_map = Raise e → e = IndexError)) ∧
  (Forall (covered wire_map) ops → length ops ≤ depth →
   ((∃ e, drawable_grid set_iter depth ops wire_map = Raise e) ↔
    ∃ op w i, op ∈ ops ∧ w ∈ wires op ∧ wire_map !! w = Some i
            ∧ size wire_map ≤ i) ∧
   (∀ e, drawable_grid set_iter depth ops wire_map = Raise e → e = IndexError)).
Proof.
  split_and!.
  - intros Hgrid.
    destruct (drawable_layers depth ops wire_map) as [layers|e] eqn:Hrun.
    + split; [by eexists|].
      apply (grid_Raise_layers _ _ _ Hrun). by eexists.
    + rewrite (drawable_grid_Raise_layers set_iter _ _ _ Hrun) in Hgrid.
      injection Hgrid as ->.
      by destruct (drawable_layers_Raise_cases _ _ _ Hrun)
        as [(? & ? & ? & ? & ? & _)|[? _]].
  - intros Hout.
    destruct (drawable_layers depth ops wire_map) as [layers|e] eqn:Hrun.
    + by apply (grid_Raise_layers _ _ _ Hrun).
    + exists e. by apply drawable_grid_Raise_layers.
  - intros Hcov e Hgrid.
    destruct (drawable_layers depth ops wire_map) as [layers|e'] eqn:Hrun.
    + left. by apply (grid_Raise_layers _ _ _ Hrun).
    + right. rewrite (drawable_grid_Raise_layers set_iter _ _ _ Hrun) in Hgrid.
      injection Hgrid as ->.
      destruct (drawable_layers_Raise_cases _ _ _ Hrun)
        as [(n & op & m & w & _ & Hn & _ & Hm & Hnone & _)|[-> _]]; [|done].
      exfalso. rewrite Forall_forall in Hcov.
      assert (covered wire_map op) as Hop
        by (apply Hcov; by eapply list_elem_of_lookup_2).
      unfold covered in Hop. rewrite Forall_forall in Hop.
      destruct (Hop w) as [i Hi]; [by eapply list_elem_of_lookup_2|congruence].
  - intros layers Hrun. by apply (grid_Raise_layers _ _ _ Hrun).
  - intros Hcov Hdepth.
    destruct (drawable_layers_enough (depth:=depth) _ _ Hcov Hdepth) as [layers Hrun].
    by apply (grid_Raise_layers _ _ _ Hrun).
Qed.

(** X12.  Whatever the wire map, a cell of the returned grid that holds an
    operation lies in the column of a layer that contains the operation, and
    in the row of one of its wires, or in any row when it has no wires. *)
Theorem cell_holds_layer_member (depth : nat) (ops : list Operator) (wire_map : gmap string nat)
    (grid : Grid) (layers : list (gset Operator)) (r c : nat) (op : Operator) :
  drawable_grid set_iter depth ops wire_map = Ok grid →
  drawable_layers depth ops wire_map = Ok layers →
  cell grid r c = Some (Some op) →
  ∃ s, layers !! c = Some s ∧ op ∈ s ∧ op ∈ ops
     ∧ ((wires op = [] ∧ r < size wire_map)
        ∨ ∃ w, w ∈ wires op ∧ wire_map !! w = Some r).
Proof.
  intros Hgrid Hrun Hcell.
  destruct (decide (ops = [])) as [->|Hne].
  { exfalso. unfold drawable_grid in Hgrid. simpl in Hgrid.
    case_decide; injection Hgrid as <-.
    - unfold cell in Hcell. by destruct r as [|[|r]], c.
    - by rewrite cell_no_columns in Hcell. }
  rewrite (drawable_grid_writes set_iter set_iter_perm _ _ _ Hne Hrun) in Hgrid.
  destruct (drawable_layers_Ok _ _ _ Hrun) as (pl & _ & HP).
  eapply apply_writes_cells_sound in Hcell; [|apply shape_replicate| |done].
  - apply elem_of_grid_writes in Hcell as (k & s & Hs & -> & Hop & Hr); [|done].
    exists s. split_and!; [done..| |by apply elem_of_op_rows].
    apply (placement_members _ _ _ _ HP _ _ Hs) in Hop as (p & Hp & _).
    by eapply list_elem_of_lookup_2.
  - intros r' c' x Hx.
    assert (is_Some (cell (replicate (size wire_map)
                             (replicate (length layers) None)) r' c')) as Hin
      by (by eexists).
    apply (cell_is_Some _ _ _ _ _ (shape_replicate _ _)) in Hin as [Hr Hc].
    rewrite cell_replicate in Hx by done. congruence.
Qed.

(** X13.  With the wire map of the data model, not empty, and a non-empty
    sequence of operations, every column of a grid that [drawable_grid]
    returns holds an operation in some row. *)
Theorem grid_no_blank_column (depth : nat) (ops : list Operator) (wire_map : gmap string nat)
    (grid : Grid) :
  wire_map_ok wire_map → ops ≠ [] → size wire_map ≠ 0 →
  drawable_grid set_iter depth ops wire_map = Ok grid →
  ∃ layers,
    drawable_layers depth ops wire_map = Ok layers
    ∧ ∀ c, c < length layers → ∃ r op, cell grid r c = Some (Some op).
Proof.
  intros Hok Hne Hsize Hgrid.
  destruct (drawable_layers depth ops wire_map) as [layers|e] eqn:Hrun.
  2:{ by rewrite (drawable_grid_Raise_layers set_iter _ _ _ Hrun) in Hgrid. }
  destruct (drawable_layers_Ok _ _ _ Hrun) as (pl & _ & HP).
  rewrite (drawable_grid_writes set_iter set_iter_perm _ _ _ Hne Hrun) in Hgrid.
  exists layers. split; [done|].
  intros c Hc.
  destruct (lookup_lt_is_Some_2 layers c Hc) as [s Hs].
  destruct (placement_layer_inhabited _ _ _ _ _ _ HP Hne Hs) as [op Hop].
  assert (∃ r, r ∈ op_rows wire_map (size wire_map) op) as [r Hr].
  { destruct (wires op) as [|w ws] eqn:Hwires.
    - exists 0. apply elem_of_op_rows. left. split; [done|lia].
    - assert (covered wire_map op) as Hcovop.
      { eapply placement_member_covered; [done| |done].
        by eapply list_elem_of_lookup_2. }
      unfold covered in Hcovop. rewrite Hwires in Hcovop.
      apply Forall_cons in Hcovop as [[i Hi] _].
      exists i. apply elem_of_op_rows. right. exists w.
      split; [|done]. rewrite Hwires. by left. }
  exists r, op.
  eapply (apply_writes_cells _ _ _ _ (shape_replicate _ _)); [|done| |].
  - intros r' c' x Hx.
    assert (is_Some (cell (replicate (size wire_map)
                             (replicate (length layers) None)) r' c')) as Hin
      by (by eexists).
    apply (cell_is_Some _ _ _ _ _ (shape_replicate _ _)) in Hin as [Hr' Hc'].
    rewrite cell_replicate in Hx by done. congruence.
  - by eapply grid_writes_consistent.
  - apply elem_of_grid_writes; [done|]. by exists c, s.
Qed.

(** X14.  With an empty wire map and operations without wires, the layers
    are the single layer of all operations, and the grid has no rows when
    there is an operation, but is the single empty row when there is none.
    One call of the search per operation is enough for that. *)
Theorem grid_empty_wire_map (depth : nat) (ops : list Operator) :
  (ops ≠ [] → 0 < depth) →
  Forall (λ op, wires op = []) ops →
  drawable_layers depth ops ∅ = Ok [list_to_set ops] ∧
  drawable_grid set_iter depth ops ∅ = Ok (if decide (ops = []) then [[]] else []).
Proof.
  intros Hd Hwires.
  destruct (decide (ops = [])) as [->|Hne0]; [done|].
  assert (Forall (covered ∅) ops) as Hcov.
  { eapply Forall_impl; [done|]. intros op Hop. unfold covered. by rewrite Hop. }
  assert (∀ op, op ∈ ops → occ_of ∅ op = ∅) as Hocc.
  { intros op Hop. rewrite Forall_forall in Hwires.
    rewrite (occ_of_Ok _ _ (map_img (∅ : gmap string nat)))
      by (apply op_occupied_wires_broadcast; by apply Hwires).
    apply map_img_empty_L. }
  destruct (independent_loop_returns (depth:=depth) ∅ ops (Hd Hne0) Hcov) as [st Hst].
  { intros p q op_p op_q _ _ Hq Hc. apply Hc.
    rewrite (Hocc op_q) by (by eapply list_elem_of_lookup_2).
    apply (right_absorb_L ∅ (∩)). }
  destruct (loop_Ok_layers _ _ _ Hst) as (layers & pl & Hrun & _ & HP).
  assert (∀ q k, pl !! q = Some k → k = 0) as Hzero.
  { intros q k Hk.
    destruct (lookup_lt_is_Some_2 ops q) as [op_q Hq].
    { rewrite <-(placement_len _ _ _ _ HP). by eapply lookup_lt_Some. }
    destruct (asap_tight _ _ _ (placement_asap _ _ _ _ HP) _ _ _ Hq Hk)
      as [?|(p & op_p & Hpq & Hp & _ & Hc)]; [done|].
    exfalso. apply Hc. rewrite (Hocc op_q) by (by eapply list_elem_of_lookup_2).
    apply (right_absorb_L ∅ (∩)). }
  assert (layers = [list_to_set ops]) as ->.
  { pose proof (placement_nonempty _ _ _ _ HP).
    assert (length layers = 1) as Hone.
    { destruct (decide (length layers ≤ 1)); [lia|].
      destruct (placement_dense _ _ _ _ HP 1) as [p Hp]; [lia|].
      apply Hzero in Hp. lia. }
    destruct layers as [|s [|s' layers]]; simplify_eq/=. f_equal.
    apply set_eq. intros op.
    rewrite (placement_members _ _ _ _ HP 0 s eq_refl), elem_of_list_to_set.
    split.
    - intros (p & Hp & _). by eapply list_elem_of_lookup_2.
    - intros [p Hp]%list_elem_of_lookup. exists p. split; [done|].
      destruct (lookup_lt_is_Some_2 pl p) as [k Hk].
      { rewrite (placement_len _ _ _ _ HP). by eapply lookup_lt_Some. }
      by rewrite Hk, (Hzero _ _ Hk). }
  split; [done|].
  rewrite (drawable_grid_writes set_iter set_iter_perm _ _ _ Hne0 Hrun).
  destruct (apply_writes_Ok
              (grid_writes set_iter ∅ (size (∅ : gmap string nat)) 0
                 [list_to_set ops])
              (size (∅ : gmap string nat))
              (length [list_to_set ops : gset Operator])
              _ (shape_replicate _ _)) as (grid & Hgrid & [Hrows _]).
  { apply grid_writes_in_range; [done|]. by rewrite map_img_empty_L. }
  simpl in Hgrid |- *. rewrite Hgrid. f_equal.
  rewrite map_size_empty in Hrows. by destruct grid.
Qed.

(** X16.  On operations whose wire labels are all keys of the wire map,
    [drawable_layers] returns when the search is allowed as many nested
    calls as there are operations, and then [drawable_grid] returns too when
    the indices of the wire map lie in [0 .. n-1].  [drawable_layers] raises
    [RecursionError] only on an input of more than [depth] operations. *)
Theorem enough_depth_returns (depth : nat) (ops : list Operator)
    (wire_map : gmap string nat) :
  (Forall (covered wire_map) ops → length ops ≤ depth →
   (∃ layers, drawable_layers depth ops wire_map = Ok layers) ∧
   ((map_img wire_map : gset nat) ⊆ set_seq 0 (size wire_map) →
    ∃ grid, drawable_grid set_iter depth ops wire_map = Ok grid)) ∧
  (drawable_layers depth ops wire_map = Raise RecursionError → depth < length ops).
Proof.
  split.
  - intros Hcov Hdepth.
    destruct (drawable_layers_enough (depth:=depth) _ _ Hcov Hdepth) as [layers Hrun].
    split; [by exists layers|]. intros Himg.
    destruct (decide (ops = [])) as [->|Hne].
    { unfold drawable_grid. simpl. case_decide; by eexists. }
    rewrite (drawable_grid_writes set_iter set_iter_perm _ _ _ Hne Hrun).
    destruct (apply_writes_Ok
                (grid_writes set_iter wire_map (size wire_map) 0 layers)
                (size wire_map) (length layers)
                _ (shape_replicate _ _)) as (grid & Hgrid & _).
    { by apply grid_writes_in_range. }
    by exists grid.
  - intros [(n & op & m & w & ? & _)|(_ & n & op & Hn & _ & Hd)]%drawable_layers_Raise_cases;
      [done|].
    apply lookup_lt_Some in Hn. lia.
Qed.
End grid_further.

Lemma grid_IndexError_witness :
  ((∃ e, drawable_grid elements 1000 [opA] {[ "a" := 5 ]} = Raise e) ↔
   ∃ op w i, op ∈ [opA] ∧ w ∈ wires op
           ∧ ({[ "a" := 5 ]} : gmap string nat) !! w = Some i
           ∧ size ({[ "a" := 5 ]} : gmap string nat) ≤ i) ∧
  (∀ e, drawable_grid elements 1000 [opA] {[ "a" := 5 ]} = Raise e → e = IndexError).
Proof.
  apply (grid_IndexError elements elements_perm 1000 [opA] {[ "a" := 5 ]}).
  - compute_done.
  - simpl. lia.
Defined.

Lemma cell_holds_layer_member_witness :
  ∃ s, [ ({[Op "E" ["a"; "d"]]} : gset Operator); {[Op "F" ["b"]]} ] !! 0 = Some s
     ∧ Op "E" ["a"; "d"] ∈ s ∧ Op "E" ["a"; "d"] ∈ wm4_ops
     ∧ ((wires (Op "E" ["a"; "d"]) = [] ∧ 3 < size wm4)
        ∨ ∃ w, w ∈ wires (Op "E" ["a"; "d"]) ∧ wm4 !! w = Some 3).
Proof.
  apply (cell_holds_layer_member elements elements_perm 1000 wm4_ops wm4
           [ [Some (Op "E" ["a"; "d"]); None];
             [None; Some (Op "F" ["b"])];
             [None; None];
             [Some (Op "E" ["a"; "d"]); None] ]
           [ {[Op "E" ["a"; "d"]]}; {[Op "F" ["b"]]} ] 3 0 (Op "E" ["a"; "d"]));
    compute_done.
Defined.

Lemma grid_no_blank_column_witness :
  ∃ layers,
    drawable_layers 1000 wm4_ops wm4 = Ok layers
    ∧ ∀ c, c < length layers → ∃ r op, cell wm4_grid r c = Some (Some op).
Proof.
  apply (grid_no_blank_column elements elements_perm 1000 wm4_ops wm4 wm4_grid);
    compute_done.
Defined.

Lemma grid_empty_wire_map_witness :
  drawable_layers 1000 [opS] ∅ = Ok [list_to_set [opS]] ∧
  drawable_grid elements 1000 [opS] ∅ = Ok (if decide ([opS] = []) then [[]] else []).
Proof.
  apply (grid_empty_wire_map elements elements_perm 1000 [opS]).
  - intros _. lia.
  - compute_done.
Defined.

Lemma enough_depth_returns_witness :
  (∃ layers, drawable_layers 1000 [opA; opB; opC] wm2 = Ok layers) ∧
  (∃ grid, drawable_grid elements 1000 [opA; opB; opC] wm2 = Ok grid).
Proof.
  destruct (proj1 (enough_depth_returns elements elements_perm 1000 [opA; opB; opC] wm2))
    as [Hlayers Hgrid]; [compute_done|simpl; lia|].
  split; [done|]. apply Hgrid. compute_done.
Defined.
